(** * Bank-connection server actions and the session cache

    A shallow embedding of
      - [app/connect-bank/actions.ts]   (module [ConnectBank]),
      - the widget server actions that take the user id as an argument
        (module [WidgetActions]),
      - [lib/services/plaid-service.ts] (module [PlaidService]),
      - [lib/services/session-service.ts] (module [SessionService]),
      - the [plaid_items] table of the migrations and the statements that the
        actions run (module [Db]),
      - the item store behind [UserService] (module [ItemStore]),
      - [lib/auth/mcp-auth.ts] (module [McpAuth]) and [lib/utils/metadata.ts]
        (module [Metadata]),
      - the balances, the health check and the spending insights of
        [lib/services/plaid-service.ts] (modules [Accounts] and [Spending]),
      - [scripts/migrate.ts] (module [Migrate]),
      - the reading and writing methods of [ItemsService] (module
        [ItemsService]).

    Asynchronous code is sequential here: every [await] is a call whose
    outcome is either a value or a thrown value.  The external collaborators
    (request headers, the OAuth authority, the subscription helper, the
    banking API, the connection pool, the mailer) are fields of an
    environment record; the database is explicit state; the calls made during
    one invocation are collected in an event list.  [console.error] is an
    event, the [console.log] diagnostics are left out. *)

From Stdlib Require QArith.
From Stdlib Require Import Ascii.
From stdpp Require Import gmap strings list pretty sorting.

(** ** JavaScript values the actions rely on *)

Module Js.

(** A thrown value: an [Error] instance carrying its [message], or anything
    else ([error instanceof Error] is false). *)
Inductive Thrown : Type :=
| ErrorObj (message : string)
| NonError.

Inductive Outcome (A : Type) : Type :=
| Ok (a : A)
| Throw (e : Thrown).
Arguments Ok {A} a.
Arguments Throw {A} e.

(** Truthiness of a string: only the empty string is falsy. *)
Definition truthy (s : string) : bool := negb (bool_decide (s = "")).

(** Truthiness of [string | null | undefined]. *)
Definition truthy_opt (s : option string) : bool :=
  match s with
  | Some s => truthy s
  | None => false
  end.

(** [s || undefined] on [string | null | undefined]. *)
Definition or_undefined (s : option string) : option string :=
  match s with
  | Some s => if truthy s then Some s else None
  | None => None
  end.

(** [a || b] where [b] is a string. *)
Definition or_else (a : option string) (b : string) : string :=
  match a with
  | Some s => if truthy s then s else b
  | None => b
  end.

(** [error instanceof Error ? error.message : fallback] *)
Definition message_or (e : Thrown) (fallback : string) : string :=
  match e with
  | ErrorObj m => m
  | NonError => fallback
  end.

(** [String.prototype.includes] *)
Fixpoint includes (hay needle : string) : bool :=
  String.prefix needle hay ||
  match hay with
  | EmptyString => false
  | String _ rest => includes rest needle
  end.

(** Strings are sequences of bytes; a character outside ASCII stands as its
    UTF-8 encoding. *)

(** HTTP whitespace: tab, line feed, carriage return and space. *)
Definition http_whitespace (c : ascii) : bool :=
  bool_decide (c ∈ ["009"; "010"; "013"; " "]%char).

(** A byte that no header value holds: NUL, line feed or carriage return. *)
Definition forbidden_byte (c : ascii) : bool :=
  bool_decide (c ∈ ["000"; "010"; "013"]%char).

(** The first byte of a character above U+00FF (0xC4 and above in UTF-8):
    a string with such a character is no [ByteString]. *)
Definition above_latin1 (c : ascii) : bool :=
  bool_decide (196 ≤ N_of_ascii c)%N.

Fixpoint drop_whitespace (l : list ascii) : list ascii :=
  match l with
  | c :: rest => if http_whitespace c then drop_whitespace rest else l
  | [] => []
  end.

(** The value without its leading and trailing HTTP whitespace. *)
Definition normalize (value : string) : string :=
  String.string_of_list_ascii
    (reverse
       (drop_whitespace (reverse (drop_whitespace (String.list_ascii_of_string value))))).

(** What [Headers.prototype.set(name, value)] stores for a valid [name]:
    the value is converted to a [ByteString], normalized and validated;
    [None] stands for the [TypeError] of a failed conversion or validation. *)
Definition header_value (value : string) : option string :=
  if existsb above_latin1 (String.list_ascii_of_string value) then None
  else
    let stored := normalize value in
    if existsb forbidden_byte (String.list_ascii_of_string stored) then None
    else Some stored.

(** Own keys of [Object.prototype]: a property read on an object literal
    finds these through the prototype chain. *)
Definition object_prototype_keys : list string :=
  [ "constructor"; "__defineGetter__"; "__defineSetter__"; "hasOwnProperty";
    "__lookupGetter__"; "__lookupSetter__"; "isPrototypeOf";
    "propertyIsEnumerable"; "toString"; "valueOf"; "__proto__";
    "toLocaleString" ].

End Js.
Export Js.

(** ** The relational store *)

Module Db.

(** A row of [plaid_items].  The generated [id], [created_at],
    [last_synced_at] and [metadata] columns are read by none of the modelled
    statements and are left out. *)
Record PlaidItem : Type := {
  user_id : string;
  item_id : string;
  access_token : option string;
  access_token_encrypted : option string;
  institution_id : option string;
  institution_name : option string;
  status : string;
  error_code : option string;
}.

(** The columns of [subscription] that the plan query reads. *)
Record Subscription : Type := {
  reference_id : string;
  sub_status : string;
  plan : string;
  period_start : option Z;
}.

(** The columns of ["user"] that the e-mail step reads. *)
Record User : Type := {
  id : string;
  email : string;
  name : option string;
}.

Record t : Type := {
  plaid_items : list PlaidItem;
  subscription : list Subscription;
  user : list User;
}.

Definition with_plaid_items (d : t) (rows : list PlaidItem) : t :=
  {| plaid_items := rows; subscription := subscription d; user := user d |}.

(** [UNIQUE(user_id, item_id)]: the key of a row. *)
Definition key (r : PlaidItem) : string * string := (user_id r, item_id r).

Definition same_key (u i : string) (r : PlaidItem) : bool :=
  bool_decide (user_id r = u) && bool_decide (item_id r = i).

(** The message of the error raised on a violation of the constraint.
    The spec names the error [DuplicateItem]. *)
Definition DuplicateItem : Thrown := ErrorObj "DuplicateItem".

(** [user_id TEXT NOT NULL REFERENCES "user"(id)]: the user of the row is
    in the table of users. *)
Definition references_user (users : list User) (r : PlaidItem) : bool :=
  existsb (fun u => bool_decide (id u = user_id r)) users.

(** The error of a violation of the foreign key (SQLSTATE 23503), with the
    message of the database. *)
Definition ForeignKeyViolation : Thrown :=
  let quoted name := String "034" name +:+ String "034" EmptyString in
  ErrorObj ("insert or update on table " +:+ quoted "plaid_items" +:+
            " violates foreign key constraint " +:+ quoted "plaid_items_user_id_fkey").

(** [INSERT INTO plaid_items ...] under [UNIQUE(user_id, item_id)] and
    [REFERENCES "user"(id)]: the statement fails and leaves the table as it
    was when a row with the same key exists, and when the user of the row is
    not in the table of users. *)
Definition insert_plaid_item (users : list User) (r : PlaidItem) (rows : list PlaidItem)
  : Outcome unit * list PlaidItem :=
  if existsb (same_key (user_id r) (item_id r)) rows
  then (Throw DuplicateItem, rows)
  else if references_user users r then (Ok tt, rows ++ [r])
  else (Throw ForeignKeyViolation, rows).

(** [SELECT plan FROM subscription WHERE reference_id = $1
     AND status IN ('active', 'trialing')
     ORDER BY period_start DESC LIMIT 1] *)
Definition live (userId : string) (s : Subscription) : bool :=
  bool_decide (reference_id s = userId) &&
  (bool_decide (sub_status s = "active") || bool_decide (sub_status s = "trialing")).

(** [a] sorts strictly before [b] under [ORDER BY period_start DESC]
    (NULLs first, the default of a descending sort). *)
Definition sorts_before (a b : Subscription) : bool :=
  match period_start a, period_start b with
  | None, Some _ => true
  | Some x, Some y => bool_decide (y < x)%Z
  | _, _ => false
  end.

Fixpoint first_by_period_start (best : Subscription) (rows : list Subscription)
  : Subscription :=
  match rows with
  | [] => best
  | s :: rows =>
      first_by_period_start (if sorts_before s best then s else best) rows
  end.

Definition select_plan (userId : string) (d : t) : list Subscription :=
  match filter (fun s => live userId s = true) (subscription d) with
  | [] => []
  | s :: rows => [first_by_period_start s rows]
  end.

(** [SELECT email, name FROM "user" WHERE id = $1] *)
Definition select_user (userId : string) (d : t) : list User :=
  filter (fun u => id u = userId) (user d).

(** [SELECT COUNT( * ) FROM plaid_items WHERE user_id = $1 AND status = $2] *)
Definition count_items (userId st : string) (d : t) : nat :=
  length (filter (fun r => user_id r = userId ∧ status r = st) (plaid_items d)).

End Db.

(** ** Events, collaborators and the monad of the actions *)

Record McpSession : Type := { userId : string }.

Record LinkTokenCreateRequest : Type := {
  client_user_id : string;
  client_name : string;
  products : list string;
  country_codes : list string;
  language : string;
  webhook : option string;
  redirect_uri : option string;
}.

Record LinkTokenCreateResponse : Type := {
  link_token : string;
  expiration : string;
}.

Record ItemPublicTokenExchangeResponse : Type := {
  resp_access_token : string;
  resp_item_id : string;
}.

Inductive Event : Type :=
| EvHeaders
| EvGetMcpSession (authorization : option string)
| EvHasActiveSubscription (userId : string)
| EvGetUserPlaidItems (userId : string) (activeOnly : bool)
| EvPoolConnect
| EvClientQuery
| EvClientRelease
| EvLinkTokenCreate (request : LinkTokenCreateRequest)
| EvItemPublicTokenExchange (public_token : string)
| EvSavePlaidItem (userId itemId accessToken : string)
                  (institutionId institutionName : option string)
| EvImportEmailService
| EvSendBankConnectionConfirmation (email userName institutionName : string)
                                   (isFirstAccount : bool)
| EvConsoleError (label : string) (cause : Thrown).

(** The collaborators that live outside the repository.  Each field is what
    the call yields during the invocation under study. *)
Record Env : Type := {
  (** [headers()]: the [Authorization] header of the request. *)
  env_headers : Outcome (option string);
  (** [auth.api.getMcpSession({ headers })], given the [Authorization] value. *)
  env_getMcpSession : option string -> Outcome (option McpSession);
  (** [hasActiveSubscription(userId)] of [lib/utils/subscription-helpers]. *)
  env_hasActiveSubscription : string -> Outcome bool;
  (** [pool.connect()] *)
  env_pool_connect : Outcome unit;
  (** [client.query(...)]: [Some e] when the statement throws [e]. *)
  env_query_error : option Thrown;
  (** [getPlaidClient().linkTokenCreate(request)] *)
  env_linkTokenCreate : LinkTokenCreateRequest -> Outcome LinkTokenCreateResponse;
  (** [getPlaidClient().itemPublicTokenExchange({ public_token })] *)
  env_itemPublicTokenExchange : string -> Outcome ItemPublicTokenExchangeResponse;
  (** [await import("@/lib/services/email-service")] *)
  env_import_email_service : Outcome unit;
  (** [EmailService.sendBankConnectionConfirmation(...)] *)
  env_sendBankConnectionConfirmation : string -> string -> string -> bool -> Outcome unit;
  (** [process.env.BETTER_AUTH_URL] *)
  env_BETTER_AUTH_URL : option string;
  (** The message of the [TypeError] that [Headers.prototype.set] throws for
      a value that is no header value. *)
  env_invalid_header_value : string -> string;
}.

(** [UserService] of [lib/services/user-service]: the two methods the actions
    call.  They act on the store only. *)
Record UserService : Type := {
  getUserPlaidItems : string -> bool -> Db.t -> Outcome (list Db.PlaidItem) * Db.t;
  savePlaidItem : string -> string -> string -> option string -> option string ->
                  Db.t -> Outcome unit * Db.t;
}.

(** A computation: from the store to an outcome, the new store and the events
    of the run, oldest first. *)
Definition M (A : Type) : Type := Db.t -> Outcome A * Db.t * list Event.

Definition ret {A} (a : A) : M A := fun d => (Ok a, d, []).

Definition throw {A} (e : Thrown) : M A := fun d => (Throw e, d, []).

Definition bind {A B} (m : M A) (k : A -> M B) : M B :=
  fun d =>
    match m d with
    | (Ok a, d1, t1) =>
        match k a d1 with
        | (r, d2, t2) => (r, d2, t1 ++ t2)
        end
    | (Throw e, d1, t1) => (Throw e, d1, t1)
    end.

(** A step that calls no collaborator: it returns or throws. *)
Definition settle {A} (o : Outcome A) : M A := fun d => (o, d, []).

(** [try { body } catch (error) { handler }] *)
Definition try_catch {A} (body : M A) (handler : Thrown -> M A) : M A :=
  fun d =>
    match body d with
    | (Ok a, d1, t1) => (Ok a, d1, t1)
    | (Throw e, d1, t1) =>
        match handler e d1 with
        | (r, d2, t2) => (r, d2, t1 ++ t2)
        end
    end.

(** [try { body } finally { fin }]: [fin] runs on every exit of [body]. *)
Definition try_finally {A} (body : M A) (fin : M unit) : M A :=
  fun d =>
    match body d with
    | (r, d1, t1) =>
        match fin d1 with
        | (Ok _, d2, t2) => (r, d2, t1 ++ t2)
        | (Throw e, d2, t2) => (Throw e, d2, t1 ++ t2)
        end
    end.

(** A call to a collaborator: the event, then its outcome. *)
Definition call {A} (ev : Event) (o : Outcome A) : M A :=
  fun d => (o, d, [ev]).

(** A call to a method that acts on the store. *)
Definition call_db {A} (ev : Event) (f : Db.t -> Outcome A * Db.t) : M A :=
  fun d => match f d with (o, d1) => (o, d1, [ev]) end.

Definition console_error (label : string) (cause : Thrown) : M unit :=
  call (EvConsoleError label cause) (Ok tt).

Declare Scope action_scope.
Delimit Scope action_scope with action.
Notation "x <- m ;; k" := (bind m (fun x => k))
  (at level 100, m at next level, right associativity) : action_scope.
Notation "m ;;; k" := (bind m (fun _ => k))
  (at level 100, right associativity) : action_scope.
Open Scope action_scope.

Definition outcome {A} (r : Outcome A * Db.t * list Event) : Outcome A := r.1.1.
Definition store {A} (r : Outcome A * Db.t * list Event) : Db.t := r.1.2.
Definition events {A} (r : Outcome A * Db.t * list Event) : list Event := r.2.

(** ** [lib/services/plaid-service.ts] *)

Module PlaidService.
Section WithEnv.
Variable E : Env.

Definition link_token_request (userId : string) (redirectUri : option string)
  : LinkTokenCreateRequest :=
  {| client_user_id := userId;
     client_name := "AskMyMoney";
     products := ["transactions"; "auth"; "investments"; "liabilities"];
     country_codes := ["US"];
     language := "en";
     webhook :=
       match env_BETTER_AUTH_URL E with
       | Some url => if truthy url then Some (url +:+ "/api/plaid/webhook") else None
       | None => None
       end;
     redirect_uri := or_undefined redirectUri |}.

Definition createLinkToken (userId : string) (redirectUri : option string)
  : M LinkTokenCreateResponse :=
  try_catch
    (let request := link_token_request userId redirectUri in
     response <- call (EvLinkTokenCreate request) (env_linkTokenCreate E request);;
     ret response)
    (fun error =>
       console_error "Error creating link token:" error;;;
       throw (ErrorObj ("Failed to create link token: " +:+
                        message_or error "Unknown error"))).

Definition exchangePublicToken (publicToken : string) : M (string * string) :=
  try_catch
    (response <- call (EvItemPublicTokenExchange publicToken)
                      (env_itemPublicTokenExchange E publicToken);;
     ret (resp_access_token response, resp_item_id response))
    (fun error =>
       console_error "Error exchanging public token:" error;;;
       throw (ErrorObj ("Failed to exchange public token: " +:+
                        message_or error "Unknown error"))).

End WithEnv.
End PlaidService.

(** ** [app/connect-bank/actions.ts] *)

Module ConnectBank.

Inductive LinkTokenResult : Type :=
| LinkSuccess (linkToken expiration : string)
| LinkFailure (error : string).

Inductive ExchangeTokenResult : Type :=
| ExchangeSuccess (itemId : string) (institutionName : option string)
| ExchangeFailure (error : string).

Record PlaidInstitutionMetadata : Type := {
  institution_id : option string;
  name : option string;
}.

Record PlaidMetadata : Type := {
  institution : option PlaidInstitutionMetadata;
}.

(** [metadata?.institution?.field] *)
Definition institution_field (field : PlaidInstitutionMetadata -> option string)
  (metadata : option PlaidMetadata) : option string :=
  match metadata with
  | Some m =>
      match institution m with
      | Some i => field i
      | None => None
      end
  | None => None
  end.

(** What [planLimits[plan]] evaluates to when it is not [undefined]: one of
    the three numbers of the literal, or a property inherited from
    [Object.prototype], which no comparison with a number accepts. *)
Inductive PlanLimit : Type :=
| Limit (n : Z)
| Inherited.

Definition planLimits (plan : string) : option PlanLimit :=
  if bool_decide (plan = "basic") then Some (Limit 3)
  else if bool_decide (plan = "pro") then Some (Limit 10)
  else if bool_decide (plan = "enterprise") then Some (Limit 999999)
  else if bool_decide (plan ∈ object_prototype_keys) then Some Inherited
  else None.

(** [subscription?.plan || 'basic'] on [subResult.rows[0]] *)
Definition plan_of (rows : list Db.Subscription) : string :=
  or_else (Db.plan <$> head rows) "basic".

(** [planLimits[plan] ?? 3] *)
Definition maxAccounts (plan : string) : PlanLimit :=
  default (Limit 3) (planLimits plan).

(** [existingItems.length >= maxAccounts] *)
Definition limit_reached (existing : nat) (m : PlanLimit) : bool :=
  match m with
  | Limit n => bool_decide (n ≤ Z.of_nat existing)%Z
  | Inherited => false
  end.

Definition limit_message (m : PlanLimit) : string :=
  "Account limit reached. Your plan allows " +:+
  match m with Limit n => pretty n | Inherited => "" end +:+
  " bank account(s). Please upgrade or remove an existing connection.".

Definition auth_required : string :=
  "Authentication required. Please sign in first through ChatGPT.".

Definition subscription_required : string :=
  "Active subscription required. Please subscribe first.".

(** [new Headers(headersList)] followed by the optional
    [authHeaders.set('Authorization', `Bearer ${mcpToken}`)]: the
    [Authorization] value of [authHeaders], or the [TypeError] of [set]. *)
Definition authHeaders (E : Env) (headersList : option string) (mcpToken : option string)
  : Outcome (option string) :=
  match mcpToken with
  | Some tok =>
      if truthy tok then
        match header_value ("Bearer " +:+ tok) with
        | Some stored => Ok (Some stored)
        | None => Throw (ErrorObj (env_invalid_header_value E ("Bearer " +:+ tok)))
        end
      else Ok headersList
  | None => Ok headersList
  end.

(** [mcpSession?.userId], with [undefined] for a missing session *)
Definition session_userId (mcpSession : option McpSession) : option string :=
  userId <$> mcpSession.

Section WithEnv.
Variable E : Env.
Variable US : UserService.

Definition headers : M (option string) := call EvHeaders (env_headers E).

Definition getMcpSession (h : option string) : M (option McpSession) :=
  call (EvGetMcpSession h) (env_getMcpSession E h).

Definition hasActiveSubscription (userId : string) : M bool :=
  call (EvHasActiveSubscription userId) (env_hasActiveSubscription E userId).

Definition pool_connect : M unit := call EvPoolConnect (env_pool_connect E).

Definition client_release : M unit := call EvClientRelease (Ok tt).

Definition client_query {A} (rows : Db.t -> A) : M A :=
  fun d =>
    (match env_query_error E with
     | Some e => Throw e
     | None => Ok (rows d)
     end, d, [EvClientQuery]).

Definition createPlaidLinkToken (mcpToken : option string) : M LinkTokenResult :=
  try_catch
    ((* Check 1: Authentication *)
     headersList <- headers;;
     authorization <- settle (authHeaders E headersList mcpToken);;
     mcpSession <- getMcpSession authorization;;
     if negb (truthy_opt (session_userId mcpSession)) then
       ret (LinkFailure auth_required)
     else
     let userId := default "" (session_userId mcpSession) in
     (* Check 2: Active Subscription *)
     hasSubscription <- hasActiveSubscription userId;;
     if negb hasSubscription then
       ret (LinkFailure subscription_required)
     else
     (* Check 3: Account limits *)
     existingItems <- call_db (EvGetUserPlaidItems userId true)
                              (getUserPlaidItems US userId true);;
     pool_connect;;;
     try_finally
       (subResult <- client_query (Db.select_plan userId);;
        let plan := plan_of subResult in
        let maxAccounts := maxAccounts plan in
        if limit_reached (length existingItems) maxAccounts then
          ret (LinkFailure (limit_message maxAccounts))
        else
        (* All checks passed - create link token *)
        linkTokenData <- PlaidService.createLinkToken E userId None;;
        ret (LinkSuccess (link_token linkTokenData) (expiration linkTokenData)))
       client_release)
    (fun error =>
       console_error "[Server Action] createPlaidLinkToken error:" error;;;
       ret (LinkFailure (message_or error "Failed to initialize bank connection"))).

(** The best-effort e-mail step of [exchangePlaidPublicToken]. *)
Definition send_email_notification (userId : string) (institutionName : option string)
  : M unit :=
  try_catch
    (call EvImportEmailService (env_import_email_service E);;;
     pool_connect;;;
     try_finally
       (userResult <- client_query (Db.select_user userId);;
        accountCount <- client_query (Db.count_items userId "active");;
        let user := head userResult in
        let isFirstAccount := bool_decide (accountCount = 1) in
        match user, institutionName with
        | Some u, Some inst =>
            if truthy (Db.email u) && truthy inst then
              let userName := or_else (Db.name u) "there" in
              call (EvSendBankConnectionConfirmation (Db.email u) userName inst isFirstAccount)
                   (env_sendBankConnectionConfirmation E (Db.email u) userName inst
                      isFirstAccount)
            else ret tt
        | _, _ => ret tt
        end)
       client_release)
    (fun error =>
       console_error "[Server Action] Failed to send bank connection email:" error).

Definition exchangePlaidPublicToken (publicToken : string)
  (metadata : option PlaidMetadata) (mcpToken : option string) : M ExchangeTokenResult :=
  try_catch
    ((* Check 1: Authentication *)
     headersList <- headers;;
     authorization <- settle (authHeaders E headersList mcpToken);;
     mcpSession <- getMcpSession authorization;;
     if negb (truthy_opt (session_userId mcpSession)) then
       ret (ExchangeFailure auth_required)
     else
     let userId := default "" (session_userId mcpSession) in
     (* Check 2: Active Subscription *)
     hasSubscription <- hasActiveSubscription userId;;
     if negb hasSubscription then
       ret (ExchangeFailure subscription_required)
     else
     if negb (truthy publicToken) then
       ret (ExchangeFailure "Missing public token")
     else
     (* Exchange public token for access token *)
     exchanged <- PlaidService.exchangePublicToken E publicToken;;
     let accessToken := exchanged.1 in
     let itemId := exchanged.2 in
     let institutionId :=
       or_undefined (institution_field institution_id metadata) in
     let institutionName :=
       or_undefined (institution_field name metadata) in
     (* Save the Plaid item to database *)
     call_db (EvSavePlaidItem userId itemId accessToken institutionId institutionName)
             (savePlaidItem US userId itemId accessToken institutionId institutionName);;;
     (* Send email notification *)
     send_email_notification userId institutionName;;;
     ret (ExchangeSuccess itemId institutionName))
    (fun error =>
       console_error "[Server Action] exchangePlaidPublicToken error:" error;;;
       ret (ExchangeFailure (message_or error "Failed to connect bank account"))).

End WithEnv.
End ConnectBank.

(** ** The widget server actions that take the user id as an argument *)

Module WidgetActions.

Record PlaidInstitution : Type := {
  id : option string;
  name : option string;
}.

(** [{ success: true, linkToken }] or [{ success: false, error }] *)
Inductive LinkResult : Type :=
| LinkSuccess (linkToken : string)
| LinkFailure (error : string).

(** [{ success: true }] or [{ success: false, error }] *)
Inductive ExchangeResult : Type :=
| ExchangeSuccess
| ExchangeFailure (error : string).

Section WithEnv.
Variable E : Env.
Variable US : UserService.

Definition createPlaidLinkToken (userId : string) : M LinkResult :=
  if negb (truthy userId) then
    ret (LinkFailure "User ID is required")
  else
  try_catch
    (response <- PlaidService.createLinkToken E userId None;;
     ret (LinkSuccess (link_token response)))
    (fun error =>
       console_error "Error creating Plaid link token:" error;;;
       ret (LinkFailure "Failed to create Plaid link token")).

(** [institution] is an object, as its type says; its two fields may be
    absent. *)
Definition exchangePlaidPublicToken (userId publicToken : string)
  (institution : PlaidInstitution) : M ExchangeResult :=
  if negb (truthy userId) then
    ret (ExchangeFailure "User ID is required")
  else
  try_catch
    (exchanged <- PlaidService.exchangePublicToken E publicToken;;
     let accessToken := exchanged.1 in
     let itemId := exchanged.2 in
     call_db (EvSavePlaidItem userId itemId accessToken (id institution) (name institution))
             (savePlaidItem US userId itemId accessToken (id institution) (name institution));;;
     ret ExchangeSuccess)
    (fun error =>
       console_error "Error exchanging Plaid public token:" error;;;
       ret (ExchangeFailure "Failed to exchange Plaid public token")).

End WithEnv.
End WidgetActions.

(** ** The item store behind [UserService] *)

Module ItemStore.
Section WithCipher.
(** The Credential Cipher's [encrypt], as it answers during the call. *)
Variable encrypt : string -> string.

(** Modelled from the spec: the body of [UserService.getUserPlaidItems]
    ([lib/services/user-service]) is not among the sources.  The spec's
    [getUserItems(userId, activeOnly) -> [Item]]: the rows of the user,
    restricted to status [active] when [activeOnly] is set. *)
Definition getUserPlaidItems (userId : string) (activeOnly : bool) (d : Db.t)
  : Outcome (list Db.PlaidItem) * Db.t :=
  (Ok (filter (fun r => Db.user_id r = userId ∧
                        (activeOnly = true → Db.status r = "active"))
              (Db.plaid_items d)), d).

(** The row that a successful exchange creates: status [active], the
    credential in the encrypted column only. *)
Definition new_item (userId itemId accessToken : string)
  (institutionId institutionName : option string) : Db.PlaidItem :=
  {| Db.user_id := userId;
     Db.item_id := itemId;
     Db.access_token := None;
     Db.access_token_encrypted := Some (encrypt accessToken);
     Db.institution_id := institutionId;
     Db.institution_name := institutionName;
     Db.status := "active";
     Db.error_code := None |}.

(** Modelled from the spec: the body of [UserService.savePlaidItem]
    ([lib/services/user-service]) is not among the sources.  The spec's
    [createItem]: encrypts via the Credential Cipher, then inserts; a
    violation of the uniqueness invariant raises [DuplicateItem].  The spec
    has no name for the error of the foreign key: the error of the
    statement is thrown on. *)
Definition savePlaidItem (userId itemId accessToken : string)
  (institutionId institutionName : option string) (d : Db.t)
  : Outcome unit * Db.t :=
  match Db.insert_plaid_item (Db.user d)
          (new_item userId itemId accessToken institutionId institutionName)
          (Db.plaid_items d) with
  | (o, rows) => (o, Db.with_plaid_items d rows)
  end.

Definition service : UserService :=
  Build_UserService getUserPlaidItems savePlaidItem.

End WithCipher.
End ItemStore.

(** ** [lib/services/session-service.ts] *)

Module SessionService.

Record UserSession : Type := {
  sessionId : string;
  accessToken : string;
  itemId : string;
  createdAt : Z;
  lastAccessedAt : Z;
}.

(** [private sessions: Map<string, UserSession>]; dates are milliseconds
    since the epoch. *)
Abbreviation Sessions := (gmap string UserSession).

Definition touch (now : Z) (s : UserSession) : UserSession :=
  {| sessionId := sessionId s;
     accessToken := accessToken s;
     itemId := itemId s;
     createdAt := createdAt s;
     lastAccessedAt := now |}.

(** [generated] is the value of [generateSessionId()], that is
    [randomBytes(32).toString('hex')]; [now1] and [now2] are the two
    readings of the clock. *)
Definition createSession (generated : string) (now1 now2 : Z)
  (accessToken itemId : string) (sessions : Sessions) : string * Sessions :=
  let sessionId := generated in
  let session :=
    {| sessionId := sessionId;
       accessToken := accessToken;
       itemId := itemId;
       createdAt := now1;
       lastAccessedAt := now2 |} in
  (sessionId, <[sessionId := session]> sessions).

Definition getAccessToken (now : Z) (sessionId : string) (sessions : Sessions)
  : option string * Sessions :=
  match sessions !! sessionId with
  | None => (None, sessions)
  | Some session =>
      (Some (accessToken session), <[sessionId := touch now session]> sessions)
  end.

Definition isValidSession (sessionId : string) (sessions : Sessions) : bool :=
  bool_decide (is_Some (sessions !! sessionId)).

Definition deleteSession (sessionId : string) (sessions : Sessions)
  : bool * Sessions :=
  (bool_decide (is_Some (sessions !! sessionId)), delete sessionId sessions).

Definition getSessionInfo (sessionId : string) (sessions : Sessions)
  : option (string * string * Z * Z) :=
  match sessions !! sessionId with
  | None => None
  | Some session =>
      Some (SessionService.sessionId session, itemId session,
            createdAt session, lastAccessedAt session)
  end.

(** [age > maxAge] for one entry of the sweep *)
Definition expired (now maxAge : Z) (session : UserSession) : bool :=
  bool_decide (now - lastAccessedAt session > maxAge)%Z.

(** The body of the [for ... of this.sessions.entries()] loop, over the
    entries in the order of the iteration. *)
Fixpoint sweep (now maxAge : Z) (entries : list (string * UserSession))
  (sessions : Sessions) (deletedCount : nat) : nat * Sessions :=
  match entries with
  | [] => (deletedCount, sessions)
  | (sessionId, session) :: entries =>
      if expired now maxAge session
      then sweep now maxAge entries (delete sessionId sessions) (S deletedCount)
      else sweep now maxAge entries sessions deletedCount
  end.

(** [maxAgeInDays] defaults to 30 when the argument is absent; a whole number
    of days.  The entries are visited in the order of [map_to_list]; the
    outcome of the loop does not depend on the order. *)
Definition cleanupOldSessions (now : Z) (maxAgeInDays : option Z)
  (sessions : Sessions) : nat * Sessions :=
  let maxAge := (default 30 maxAgeInDays * 24 * 60 * 60 * 1000)%Z in
  sweep now maxAge (map_to_list sessions) sessions 0.

(** One call on the singleton [sessionService]. *)
Inductive Call : Type :=
| CreateSession (generated : string) (now1 now2 : Z) (accessToken itemId : string)
| GetAccessToken (now : Z) (sessionId : string)
| IsValidSession (sessionId : string)
| DeleteSession (sessionId : string)
| GetSessionInfo (sessionId : string)
| CleanupOldSessions (now : Z) (maxAgeInDays : option Z).

Definition step (c : Call) (sessions : Sessions) : Sessions :=
  match c with
  | CreateSession g n1 n2 t i => (createSession g n1 n2 t i sessions).2
  | GetAccessToken now s => (getAccessToken now s sessions).2
  | IsValidSession _ => sessions
  | DeleteSession s => (deleteSession s sessions).2
  | GetSessionInfo _ => sessions
  | CleanupOldSessions now d => (cleanupOldSessions now d sessions).2
  end.

Definition run (cs : list Call) (sessions : Sessions) : Sessions :=
  foldl (fun m c => step c m) sessions cs.

(** The call [c], made on [sessions], removes or replaces session [s]:
    it deletes [s], sweeps it away, or creates a session under the same
    generated identifier. *)
Definition removes (s : string) (c : Call) (sessions : Sessions) : bool :=
  match c with
  | CreateSession g _ _ _ _ => bool_decide (g = s)
  | DeleteSession s' => bool_decide (s' = s)
  | CleanupOldSessions now d =>
      match sessions !! s with
      | Some session =>
          expired now (default 30 d * 24 * 60 * 60 * 1000)%Z session
      | None => false
      end
  | _ => false
  end.

(** No call of [cs], made in turn from [sessions], removes [s]. *)
Fixpoint kept (s : string) (cs : list Call) (sessions : Sessions) : bool :=
  match cs with
  | [] => true
  | c :: cs => negb (removes s c sessions) && kept s cs (step c sessions)
  end.

End SessionService.

(** ** Concrete collaborators and stores used by the examples *)

Module Scenario.

Definition sessions_of (h : option string) : Outcome (option McpSession) :=
  if bool_decide (h = Some "Bearer good")
  then Ok (Some {| userId := "user_1" |})
  else Ok None.

(** The text of the runtime for a value that [Headers.prototype.set]
    refuses. *)
Definition invalid_header_value (value : string) : string :=
  "Headers.set: " +:+ value +:+ " is an invalid header value.".

Definition link_response : LinkTokenCreateResponse :=
  {| link_token := "link-token-1"; expiration := "2030-01-01T00:00:00Z" |}.

Definition exchange_response (item : string) : ItemPublicTokenExchangeResponse :=
  {| resp_access_token := "tok_abc"; resp_item_id := item |}.

(** Every collaborator answers; the public token is exchanged for [item]. *)
Definition env (item : string) : Env :=
  {| env_headers := Ok (Some "Bearer good");
     env_getMcpSession := sessions_of;
     env_hasActiveSubscription := fun _ => Ok true;
     env_pool_connect := Ok tt;
     env_query_error := None;
     env_linkTokenCreate := fun _ => Ok link_response;
     env_itemPublicTokenExchange := fun _ => Ok (exchange_response item);
     env_import_email_service := Ok tt;
     env_sendBankConnectionConfirmation := fun _ _ _ _ => Ok tt;
     env_BETTER_AUTH_URL := Some "https://app.example";
     env_invalid_header_value := invalid_header_value |}.

(** The request carries no bearer credential. *)
Definition env_anonymous : Env :=
  {| env_headers := Ok None;
     env_getMcpSession := sessions_of;
     env_hasActiveSubscription := fun _ => Ok true;
     env_pool_connect := Ok tt;
     env_query_error := None;
     env_linkTokenCreate := fun _ => Ok link_response;
     env_itemPublicTokenExchange := fun _ => Ok (exchange_response "item_1");
     env_import_email_service := Ok tt;
     env_sendBankConnectionConfirmation := fun _ _ _ _ => Ok tt;
     env_BETTER_AUTH_URL := Some "https://app.example";
     env_invalid_header_value := invalid_header_value |}.

Definition provider_message : string :=
  "INVALID_API_KEYS: invalid client_id or secret provided".

(** The banking API rejects both calls. *)
Definition env_provider_down : Env :=
  {| env_headers := Ok (Some "Bearer good");
     env_getMcpSession := sessions_of;
     env_hasActiveSubscription := fun _ => Ok true;
     env_pool_connect := Ok tt;
     env_query_error := None;
     env_linkTokenCreate := fun _ => Throw (ErrorObj provider_message);
     env_itemPublicTokenExchange := fun _ => Throw (ErrorObj provider_message);
     env_import_email_service := Ok tt;
     env_sendBankConnectionConfirmation := fun _ _ _ _ => Ok tt;
     env_BETTER_AUTH_URL := Some "https://app.example";
     env_invalid_header_value := invalid_header_value |}.

(** The mailer throws. *)
Definition env_mail_down (item : string) : Env :=
  {| env_headers := Ok (Some "Bearer good");
     env_getMcpSession := sessions_of;
     env_hasActiveSubscription := fun _ => Ok true;
     env_pool_connect := Ok tt;
     env_query_error := None;
     env_linkTokenCreate := fun _ => Ok link_response;
     env_itemPublicTokenExchange := fun _ => Ok (exchange_response item);
     env_import_email_service := Ok tt;
     env_sendBankConnectionConfirmation :=
       fun _ _ _ _ => Throw (ErrorObj "SMTP connection refused");
     env_BETTER_AUTH_URL := Some "https://app.example";
     env_invalid_header_value := invalid_header_value |}.

Definition encrypt (s : string) : string := "v1:" +:+ String.rev s.

Definition service : UserService := ItemStore.service encrypt.

Definition item (i st : string) : Db.PlaidItem :=
  {| Db.user_id := "user_1";
     Db.item_id := i;
     Db.access_token := None;
     Db.access_token_encrypted := Some (encrypt "tok");
     Db.institution_id := Some "ins_1";
     Db.institution_name := Some "First Bank";
     Db.status := st;
     Db.error_code := None |}.

Definition basic_subscription : Db.Subscription :=
  {| Db.reference_id := "user_1";
     Db.sub_status := "active";
     Db.plan := "basic";
     Db.period_start := Some 1700000000000%Z |}.

Definition user_1 : Db.User :=
  {| Db.id := "user_1"; Db.email := "u1@example.org"; Db.name := Some "Una" |}.

(** A store in which [user_1], on the basic plan, owns the listed items. *)
Definition db (rows : list Db.PlaidItem) : Db.t :=
  {| Db.plaid_items := rows;
     Db.subscription := [basic_subscription];
     Db.user := [user_1] |}.

Definition subscription_on (plan : string) : Db.Subscription :=
  {| Db.reference_id := "user_1";
     Db.sub_status := "active";
     Db.plan := plan;
     Db.period_start := Some 1700000000000%Z |}.

(** [n] active items of [user_1]. *)
Definition items (n : nat) : list Db.PlaidItem :=
  (fun k => item ("item_" +:+ pretty k) "active") <$> seq 0 n.

(** A store in which [user_1], on [plan], owns the listed items. *)
Definition db_on (plan : string) (rows : list Db.PlaidItem) : Db.t :=
  {| Db.plaid_items := rows;
     Db.subscription := [subscription_on plan];
     Db.user := [user_1] |}.

Definition user_9 : Db.User :=
  {| Db.id := "user_9"; Db.email := "u9@example.org"; Db.name := None |}.

(** The store [db rows] with a second user, who has no subscription. *)
Definition db_two_users (rows : list Db.PlaidItem) : Db.t :=
  {| Db.plaid_items := rows;
     Db.subscription := [basic_subscription];
     Db.user := [user_1; user_9] |}.

(** A bearer token with a line feed in it. *)
Definition broken_token : string := "go" +:+ String "010" "od".

Definition two_items : list Db.PlaidItem :=
  [item "item_a" "active"; item "item_b" "active"].

Definition three_items : list Db.PlaidItem :=
  two_items ++ [item "item_c" "active"].

Definition four_items : list Db.PlaidItem :=
  three_items ++ [item "item_d" "active"].

Definition first_bank : ConnectBank.PlaidMetadata :=
  {| ConnectBank.institution :=
       Some {| ConnectBank.institution_id := Some "ins_1";
               ConnectBank.name := Some "First Bank" |} |}.

End Scenario.

(** ** How the checks of an invocation come out *)

Module Checks.
Import ConnectBank.

(** The authority resolves the bearer credential to the user [uid]. *)
Definition authenticated (E : Env) (mcpToken : option string) (uid : string) : Prop :=
  ∃ h authorization session,
    env_headers E = Ok h ∧
    authHeaders E h mcpToken = Ok authorization ∧
    env_getMcpSession E authorization = Ok (Some session) ∧
    userId session = uid ∧ truthy uid = true.

(** The authority answers, with no session or with one that has no user. *)
Definition unauthenticated (E : Env) (mcpToken : option string) : Prop :=
  ∃ h authorization session,
    env_headers E = Ok h ∧
    authHeaders E h mcpToken = Ok authorization ∧
    env_getMcpSession E authorization = Ok session ∧
    truthy_opt (session_userId session) = false.

(** [Headers.prototype.set] refuses the bearer credential, with [message]. *)
Definition refused (E : Env) (mcpToken : option string) (message : string) : Prop :=
  ∃ h, env_headers E = Ok h ∧ authHeaders E h mcpToken = Throw (ErrorObj message).

Definition subscribed (E : Env) (uid : string) : Prop :=
  env_hasActiveSubscription E uid = Ok true.

Definition unsubscribed (E : Env) (uid : string) : Prop :=
  env_hasActiveSubscription E uid = Ok false.

(** The active items of [uid] are read, and their number is below the limit
    of the plan. *)
Definition under_quota (US : UserService) (uid : string) (d : Db.t) : Prop :=
  ∃ items d1,
    getUserPlaidItems US uid true d = (Ok items, d1) ∧
    limit_reached (length items)
      (maxAccounts (plan_of (Db.select_plan uid d1))) = false.

(** The connection pool and the statements of the invocation work. *)
Definition database_up (E : Env) : Prop :=
  env_pool_connect E = Ok tt ∧ env_query_error E = None.

(** Calls to the external banking API. *)
Definition banking_call (ev : Event) : bool :=
  match ev with
  | EvLinkTokenCreate _ | EvItemPublicTokenExchange _ => true
  | _ => false
  end.

(** Calls that validate the session, read the subscription or count items. *)
Definition checking_call (ev : Event) : bool :=
  match ev with
  | EvHeaders | EvGetMcpSession _ | EvHasActiveSubscription _
  | EvGetUserPlaidItems _ _ | EvPoolConnect | EvClientQuery => true
  | _ => false
  end.

(** [UNIQUE(user_id, item_id)] as a property of the table: at most one row
    for every pair. *)
Definition unique (rows : list Db.PlaidItem) : Prop :=
  ∀ u i,
    length (filter (fun r => Db.user_id r = u ∧ Db.item_id r = i) rows) ≤ 1.

End Checks.

(** ** The sweep of the session cache, as a filter *)

Module SessionSweep.
Import SessionService.

(** [maxAgeInDays * 24 * 60 * 60 * 1000], with the default of 30 days *)
Definition maxAge (maxAgeInDays : option Z) : Z :=
  (default 30 maxAgeInDays * 24 * 60 * 60 * 1000)%Z.

(** The entry is older than [maxAge] at the time [now] of the sweep. *)
Definition stale (now : Z) (maxAgeInDays : option Z) (kv : string * UserSession) : Prop :=
  expired now (maxAge maxAgeInDays) kv.2 = true.

#[global] Instance stale_dec now maxAgeInDays kv : Decision (stale now maxAgeInDays kv).
Proof. unfold stale. apply _. Defined.

(** Calls that name one session: every call but the sweep. *)
Definition about (c : Call) : option string :=
  match c with
  | CreateSession g _ _ _ _ => Some g
  | GetAccessToken _ s => Some s
  | IsValidSession s => Some s
  | DeleteSession s => Some s
  | GetSessionInfo s => Some s
  | CleanupOldSessions _ _ => None
  end.

End SessionSweep.

(** ** Observations on the events of an action *)

Module Observe.

(** The environment [E] with another answer of [headers()]. *)
Definition with_headers (E : Env) (h : Outcome (option string)) : Env :=
  {| env_headers := h;
     env_getMcpSession := env_getMcpSession E;
     env_hasActiveSubscription := env_hasActiveSubscription E;
     env_pool_connect := env_pool_connect E;
     env_query_error := env_query_error E;
     env_linkTokenCreate := env_linkTokenCreate E;
     env_itemPublicTokenExchange := env_itemPublicTokenExchange E;
     env_import_email_service := env_import_email_service E;
     env_sendBankConnectionConfirmation := env_sendBankConnectionConfirmation E;
     env_BETTER_AUTH_URL := env_BETTER_AUTH_URL E;
     env_invalid_header_value := env_invalid_header_value E |}.

Definition is_connect (ev : Event) : bool :=
  match ev with EvPoolConnect => true | _ => false end.

Definition is_release (ev : Event) : bool :=
  match ev with EvClientRelease => true | _ => false end.


Definition is_save (ev : Event) : bool :=
  match ev with EvSavePlaidItem _ _ _ _ _ => true | _ => false end.

(** The number of events of a kind. *)
Definition count (p : Event -> bool) (evs : list Event) : nat :=
  length (filter (fun ev => p ev = true) evs).

(** [pool.connect()] resolved. *)
Definition connects (E : Env) : bool :=
  match env_pool_connect E with Ok _ => true | Throw _ => false end.

End Observe.

(** ** [lib/auth/mcp-auth.ts] *)

Module McpAuth.

(** What [auth.api.getMcpSession] resolves to: the two fields that are read. *)
Record SessionData : Type := {
  data_userId : string;
  data_accessToken : string;
}.

Record McpSession : Type := {
  userId : string;
  sessionId : string;
}.

Definition authentication_required : string :=
  "Authentication required. Please authenticate with ChatGPT.".

Section WithAuthority.
(** [auth.api.getMcpSession({ headers })], given the [Authorization] value. *)
Variable api_getMcpSession : option string -> Outcome (option SessionData).

(** The [console.error] calls that report progress are left out; the one of
    the [catch] block, which carries the thrown value, is an event. *)
Definition getMcpSession (headers : option string) : M (option McpSession) :=
  try_catch
    (sessionData <- call (EvGetMcpSession headers) (api_getMcpSession headers);;
     if negb (truthy_opt (data_userId <$> sessionData)) then
       ret None
     else
       match sessionData with
       | Some data =>
           ret (Some {| userId := data_userId data;
                        sessionId := data_accessToken data |})
       | None => ret None
       end)
    (fun error =>
       console_error "[MCP Auth] Error validating session:" error;;;
       ret None).

Definition requireMcpAuth (headers : option string) : M McpSession :=
  session <- getMcpSession headers;;
  match session with
  | None => throw (ErrorObj authentication_required)
  | Some session => ret session
  end.

Definition isAuthenticated (headers : option string) : M bool :=
  session <- getMcpSession headers;;
  ret (bool_decide (session ≠ None)).

Definition getOptionalMcpAuth (headers : option string) : M (option McpSession) :=
  getMcpSession headers.

End WithAuthority.
End McpAuth.

(** ** [lib/utils/metadata.ts] *)

Module Metadata.

(** The values of tool parameters: what [JSON.parse] produces, and
    [undefined] for what is absent. *)
#[warnings="-register-all"]
Inductive Value : Type :=
| VUndefined
| VNull
| VBool (b : bool)
| VNumber (n : QArith_base.Q)
| VString (s : string)
| VArray (items : list Value)
| VObject (fields : gmap string Value).

(** [!!v] *)
Definition truthy_value (v : Value) : bool :=
  match v with
  | VUndefined | VNull => false
  | VBool b => b
  | VNumber n => negb (QArith_base.Qnum n =? 0)%Z
  | VString s => truthy s
  | VArray _ | VObject _ => true
  end.

(** [typeof v === 'object'] *)
Definition is_object (v : Value) : bool :=
  match v with
  | VNull | VArray _ | VObject _ => true
  | _ => false
  end.

(** [v?.[key]] for a key that is neither an index nor a built-in property *)
Definition get (v : Value) (key : string) : Value :=
  match v with
  | VObject fields => default VUndefined (fields !! key)
  | _ => VUndefined
  end.

(** [a || b] *)
Definition or_value (a b : Value) : Value :=
  if truthy_value a then a else b.

Record OpenAIMetadata : Type := {
  userAgent : Value;
  locale : Value;
  userLocation : Value;
  subject : Value;
}.

Definition default_location : Value :=
  VObject (list_to_map
    [("city", VString "Unknown"); ("region", VString "Unknown");
     ("country", VString "US"); ("timezone", VString "UTC");
     ("latitude", VString "0"); ("longitude", VString "0")]).

Definition extractOpenAIMetadata (params : Value) : option OpenAIMetadata :=
  let meta := get params "_meta" in
  if negb (truthy_value meta) || negb (is_object meta) then None
  else
    let hasOpenAIFields :=
      or_value (get meta "openai/userAgent")
        (or_value (get meta "openai/locale")
           (or_value (get meta "openai/userLocation")
              (get meta "openai/subject"))) in
    if negb (truthy_value hasOpenAIFields) then None
    else
      Some {| userAgent := or_value (get meta "openai/userAgent") (VString "unknown");
              locale := or_value (get meta "openai/locale") (VString "en-US");
              userLocation := or_value (get meta "openai/userLocation") default_location;
              subject := or_value (get meta "openai/subject") (VString "unknown") |}.




(** All four fields are present and truthy. *)
Definition complete (m : OpenAIMetadata) : Prop :=
  truthy_value (userAgent m) = true ∧ truthy_value (locale m) = true ∧
  truthy_value (userLocation m) = true ∧ truthy_value (subject m) = true.

End Metadata.

(** ** [plaid-service.ts]: account balances and account health *)

Module Accounts.

(** Amounts are the finite numbers of a JSON response, as rationals. *)
Abbreviation Q := QArith_base.Q.

Definition num (z : Z) : Q := QArith_base.inject_Z z.

(** [a < b] *)
Definition lt (a b : Q) : bool := negb (QArith_base.Qle_bool b a).

(** Truthiness of a number: it is not zero. *)
Definition nonzero (q : Q) : bool := negb (QArith_base.Qnum q =? 0)%Z.

(** [x || 0] on [number | null] *)
Definition or_zero (x : option Q) : Q :=
  match x with
  | Some q => if nonzero q then q else num 0
  | None => num 0
  end.

(** The balances of an account; the same four fields, renamed, in the
    response of the provider and in the result of [getAccountBalances]. *)
Record Balance : Type := {
  current : option Q;
  available : option Q;
  limit : option Q;
  isoCurrencyCode : option string;
}.

(** An account of [response.data.accounts] and, field by field, of the
    result of [getAccountBalances]. *)
Record Account : Type := {
  id : string;
  name : string;
  officialName : option string;
  type : string;
  subtype : option string;
  mask : option string;
  balance : Balance;
}.

(** What the [catch] blocks observe of a thrown value: whether it is an
    [Error] and its message, [error?.response?.data?.error_code], and the
    text that [error.response.data.error_message] renders to. *)
Record Caught : Type := {
  cause : Thrown;
  error_code : option string;
  error_message : string;
}.

Inductive Reply (A : Type) : Type :=
| Resolved (a : A)
| Rejected (c : Caught).
Arguments Resolved {A} a.
Arguments Rejected {A} c.

Record AccountHealth : Type := {
  accountId : string;
  accountName : string;
  accountType : string;
  healthBalance : Q;
  healthAvailable : Q;
  status : string;
  warnings : list string;
}.

Record HealthReport : Type := {
  reportAccounts : list AccountHealth;
  overallStatus : string;
  totalAccounts : nat;
  accountsWithWarnings : nat;
}.

Definition login_required_message : string :=
  "Your bank connection has expired. Please reconnect your account.".

Definition invalid_token_message : string :=
  "Invalid bank connection. Please reconnect your account.".

Section WithProvider.
(** The type of [response.data.item], which is passed on untouched. *)
Variable Item : Type.
(** [getPlaidClient().accountsGet({ access_token })] *)
Variable accountsGet : string -> Reply (list Account * Item).
(** The number that [(Math.abs(balance) / limit) * 100] evaluates to. *)
Variable utilization : Q -> Q -> Q.

(** [console.error] is left out of this part of the service. *)
Definition getAccountBalances (accessToken : string) : Outcome (list Account * Item) :=
  match accountsGet accessToken with
  | Resolved data => Ok data
  | Rejected error =>
      if truthy_opt (error_code error) then
        let plaidErrorCode := default "" (error_code error) in
        let plaidErrorMessage := error_message error in
        if bool_decide (plaidErrorCode = "ITEM_LOGIN_REQUIRED") then
          Throw (ErrorObj login_required_message)
        else if bool_decide (plaidErrorCode = "INVALID_ACCESS_TOKEN") then
          Throw (ErrorObj invalid_token_message)
        else
          Throw (ErrorObj ("Plaid error (" +:+ plaidErrorCode +:+ "): " +:+
                           plaidErrorMessage))
      else
        Throw (ErrorObj ("Failed to get account balances: " +:+
                         message_or (cause error) "Unknown error"))
  end.

(** The body of [accounts.map(account => ...)] in [checkAccountHealth]. *)
Definition assess (account : Account) : AccountHealth :=
  let balance := or_zero (current (balance account)) in
  let available := or_zero (available (Accounts.balance account)) in
  let low :=
    if lt balance (num 100) && bool_decide (type account = "depository")
    then ["Low balance warning"] else [] in
  let negative :=
    if lt balance (num 0) then ["Negative balance"] else [] in
  let credit :=
    match limit (Accounts.balance account) with
    | Some l =>
        if bool_decide (type account = "credit") && nonzero l then
          let utilization := utilization balance l in
          if lt (num 90) utilization then ["High credit utilization (>90%)"]
          else if lt (num 70) utilization then ["Moderate credit utilization (>70%)"]
          else []
        else []
    | None => []
    end in
  let warnings := low ++ negative ++ credit in
  {| accountId := id account;
     accountName := name account;
     accountType := type account;
     healthBalance := balance;
     healthAvailable := available;
     status := if bool_decide (length warnings = 0) then "healthy" else "attention_needed";
     warnings := warnings |}.

Definition has_warnings (a : AccountHealth) : bool :=
  bool_decide (0 < length (warnings a)).

Definition checkAccountHealth (accessToken : string) : Outcome HealthReport :=
  match getAccountBalances accessToken with
  | Ok (accounts, _) =>
      let healthChecks := assess <$> accounts in
      Ok {| reportAccounts := healthChecks;
            overallStatus :=
              if existsb has_warnings healthChecks then "attention_needed" else "healthy";
            totalAccounts := length accounts;
            accountsWithWarnings := length (List.filter has_warnings healthChecks) |}
  | Throw error =>
      Throw (ErrorObj ("Failed to check account health: " +:+
                       message_or error "Unknown error"))
  end.

End WithProvider.
End Accounts.

(** ** [scripts/migrate.ts] *)

Module Migrate.

(** A file name as the script holds it: the UTF-16 code units of the
    string. *)
Definition Name : Type := list N.

(** The name that consists of the given ASCII characters. *)
Definition ascii_name (s : string) : Name :=
  N_of_ascii <$> String.list_ascii_of_string s.

(** [s.endsWith(suffix)] *)
Definition endsWith (s suffix : Name) : bool := bool_decide (suffix `suffix_of` s).

(** The order of [Array.prototype.sort()] without a comparator, on strings:
    code unit by code unit, a string before its extensions. *)
Fixpoint name_leb (a b : Name) : bool :=
  match a, b with
  | [], _ => true
  | _ :: _, [] => false
  | x :: a, y :: b => if decide (x = y) then name_leb a b else bool_decide (x < y)%N
  end.

Definition name_le (a b : Name) : Prop := name_leb a b = true.

#[global] Instance name_le_dec a b : Decision (name_le a b).
Proof. unfold name_le. apply _. Defined.

(** [readdirSync(migrationsDir).filter(f => f.endsWith('.sql')).sort()] *)
Definition migrationFiles (listing : list Name) : list Name :=
  merge_sort name_le (filter (fun f => endsWith f (ascii_name ".sql") = true) listing).

(** How the script ends: it returns after [migrationsRan] migrations, or it
    leaves through [process.exit(1)]. *)
Inductive Exit : Type :=
| Completed (migrationsRan : nat)
| Exit1.

(** What the script meets outside the [migrations] table. *)
Record World : Type := {
  (** [CREATE TABLE IF NOT EXISTS migrations ...] *)
  create_table : Outcome unit;
  (** [readdirSync(migrationsDir)] *)
  readdir : Outcome (list Name);
  (** [SELECT filename FROM migrations] answers *)
  select_executed : Outcome unit;
  (** reading the file and running its SQL after [BEGIN] *)
  execute : Name -> Outcome unit;
}.

Section WithWorld.
Variable W : World.

(** The [for ... of migrationFiles] loop.  [table] holds the file names of
    the [migrations] table, [executedSet] is the set read before the loop.
    The result is the exit, the table, and the files whose SQL was run, in
    order.  [BEGIN], [COMMIT] and [ROLLBACK] are taken to succeed; the
    [INSERT] fails on a file name that the table already holds, and the
    transaction of a failed migration is rolled back. *)
Fixpoint run_files (executedSet files table : list Name) (migrationsRan : nat)
  : Exit * list Name * list Name :=
  match files with
  | [] => (Completed migrationsRan, table, [])
  | filename :: files =>
      if bool_decide (filename ∈ executedSet) then
        run_files executedSet files table migrationsRan
      else
        match execute W filename with
        | Throw _ => (Exit1, table, [filename])
        | Ok _ =>
            if bool_decide (filename ∈ table) then (Exit1, table, [filename])
            else
              match run_files executedSet files (table ++ [filename]) (S migrationsRan) with
              | (exit, table', attempted) => (exit, table', filename :: attempted)
              end
        end
  end.

(** [runMigrations()], from the rows of the [migrations] table; a table that
    does not exist yet counts as empty and is created. *)
Definition runMigrations (table : list Name) : Exit * list Name * list Name :=
  match create_table W with
  | Throw _ => (Exit1, table, [])
  | Ok _ =>
      match readdir W with
      | Throw _ => (Exit1, table, [])
      | Ok listing =>
          match select_executed W with
          | Throw _ => (Exit1, table, [])
          | Ok _ => run_files table (migrationFiles listing) table 0
          end
      end
  end.

(** The migrations that a run has to apply: the [.sql] files of the
    directory, in order, that the table does not hold. *)
Definition pending (listing table : list Name) : list Name :=
  filter (fun f => f ∉ table) (migrationFiles listing).

Definition fails (o : Outcome unit) : Prop :=
  match o with Ok _ => False | Throw _ => True end.

End WithWorld.
End Migrate.

(** ** [plaid-service.ts]: transactions and spending insights *)

Module Spending.
Import Accounts.

(** A transaction of [response.data.transactions] and, field by field, of
    the result of [getTransactions]. *)
Record Transaction : Type := {
  id : string;
  accountId : string;
  amount : Q;
  isoCurrencyCode : option string;
  date : string;
  name : string;
  merchantName : option string;
  category : option (list string);
  pending : bool;
  paymentChannel : string;
}.

Record TransactionsGetRequest : Type := {
  access_token : string;
  start_date : string;
  end_date : string;
  options_count : Z;
  options_offset : Z;
}.

Record Insight : Type := {
  insightCategory : string;
  insightAmount : Q;
  percentage : Q;
}.

Record SpendingInsights : Type := {
  totalSpending : Q;
  categoryBreakdown : list Insight;
  transactionCount : nat;
  dateRange : string * string;
}.

(** [Map<string, number>], in the order of insertion. *)
Definition Totals : Type := list (string * Q).

Definition totals_get (k : string) (m : Totals) : option Q :=
  snd <$> List.find (fun kv => bool_decide (kv.1 = k)) m.

(** [m.set(k, v)]: an existing key keeps its place. *)
Fixpoint totals_set (k : string) (v : Q) (m : Totals) : Totals :=
  match m with
  | [] => [(k, v)]
  | (k', v') :: m =>
      if bool_decide (k' = k) then (k, v) :: m else (k', v') :: totals_set k v m
  end.

(** [tx.amount > 0 && !tx.pending] *)
Definition counts (tx : Transaction) : bool :=
  lt (num 0) (amount tx) && negb (pending tx).

(** [tx.category?.[0] || 'Uncategorized'] *)
Definition category_of (tx : Transaction) : string :=
  or_else (category tx ≫= head) "Uncategorized".

(** [a] may stand in front of [b] in the breakdown: [b] is not larger. *)
Definition not_below (a b : Insight) : Prop :=
  lt (insightAmount a) (insightAmount b) = false.

Section WithProvider.
(** The type of [response.data.accounts], passed on untouched. *)
Variable Acct : Type.
(** [getPlaidClient().transactionsGet(request)]: the transactions, the
    accounts and [total_transactions]. *)
Variable transactionsGet :
  TransactionsGetRequest -> Reply (list Transaction * list Acct * nat).
(** The sum of two numbers, as the engine computes it. *)
Variable add : Q -> Q -> Q.
(** The number that [(amount / totalSpending) * 100] evaluates to. *)
Variable percentage_of : Q -> Q -> Q.

Definition getTransactions (accessToken startDate endDate : string)
  : Outcome (list Transaction * list Acct * nat) :=
  let request :=
    {| access_token := accessToken; start_date := startDate; end_date := endDate;
       options_count := 100; options_offset := 0 |} in
  match transactionsGet request with
  | Resolved data => Ok data
  | Rejected error =>
      Throw (ErrorObj ("Failed to get transactions: " +:+
                       message_or (cause error) "Unknown error"))
  end.

(** One turn of the [for (const tx of transactions)] loop. *)
Definition tally (state : Totals * Q) (tx : Transaction) : Totals * Q :=
  let '(categoryTotals, totalSpending) := state in
  if counts tx then
    let category := category_of tx in
    (totals_set category (add (or_zero (totals_get category categoryTotals)) (amount tx))
       categoryTotals,
     add totalSpending (amount tx))
  else state.

(** Where [x] goes in a list sorted by [(a, b) => b.amount - a.amount]:
    in front of the first entry that is not larger. *)
Fixpoint insert_desc (x : Insight) (l : list Insight) : list Insight :=
  match l with
  | [] => [x]
  | y :: l' =>
      if lt (insightAmount x) (insightAmount y) then y :: insert_desc x l'
      else x :: y :: l'
  end.

(** [.sort((a, b) => b.amount - a.amount)], which keeps the order of entries
    with equal amounts. *)
Definition sort_desc (l : list Insight) : list Insight := foldr insert_desc [] l.

Definition getSpendingInsights (accessToken startDate endDate : string)
  : Outcome SpendingInsights :=
  match getTransactions accessToken startDate endDate with
  | Ok (transactions, _, _) =>
      let '(categoryTotals, totalSpending) := foldl tally ([], num 0) transactions in
      let insights :=
        sort_desc
          ((fun kv => {| insightCategory := kv.1;
                         insightAmount := kv.2;
                         percentage := percentage_of kv.2 totalSpending |})
             <$> categoryTotals) in
      Ok {| totalSpending := totalSpending;
            categoryBreakdown := insights;
            transactionCount := length transactions;
            dateRange := (startDate, endDate) |}
  | Throw error =>
      Throw (ErrorObj ("Failed to get spending insights: " +:+
                       message_or error "Unknown error"))
  end.

End WithProvider.
End Spending.

(** ** [items-service.ts]: the methods of [ItemsService] that read, change
    and remove rows of [userItems] *)

Module ItemsService.

(** The values of [ItemStatus] the service writes. *)
Inductive Status : Type := Active | Archived | Deleted.

#[global] Instance Status_eq_dec : EqDecision Status.
Proof. solve_decision. Defined.

(** A row of [userItems], with the columns the service names; a [Date] is
    its time value. *)
Record Item : Type := {
  id : string;
  userId : string;
  title : string;
  description : option string;
  status : Status;
  metadata : option Metadata.Value;
  order : Z;
  createdAt : Z;
  updatedAt : Z;
  archivedAt : option Z;
  deletedAt : option Z;
}.

Definition Table : Type := list Item.

Record UpdateItemInput : Type := {
  input_title : option string;
  input_description : option string;
  input_status : option Status;
  input_metadata : option Metadata.Value;
  input_order : option Z;
}.

(** [and(eq(userItems.id, itemId), eq(userItems.userId, userId))] *)
Definition selected (itemId user : string) (row : Item) : bool :=
  bool_decide (id row = itemId) && bool_decide (userId row = user).

Definition not_found : Thrown := ErrorObj "Item not found or access denied".

(** [{ ...input, updatedAt: new Date() }]: a key the input leaves out keeps
    the column. *)
Definition set_input (input : UpdateItemInput) (now : Z) (row : Item) : Item :=
  {| id := id row;
     userId := userId row;
     title := default (title row) (input_title input);
     description := from_option Some (description row) (input_description input);
     status := default (status row) (input_status input);
     metadata := from_option Some (metadata row) (input_metadata input);
     order := default (order row) (input_order input);
     createdAt := createdAt row;
     updatedAt := now;
     archivedAt := archivedAt row;
     deletedAt := deletedAt row |}.

(** [{ status: "archived", archivedAt: new Date(), updatedAt: new Date() }]:
    [now] and [updated] are the two readings of the clock, in this order. *)
Definition set_archived (now updated : Z) (row : Item) : Item :=
  {| id := id row; userId := userId row; title := title row;
     description := description row; status := Archived; metadata := metadata row;
     order := order row; createdAt := createdAt row;
     updatedAt := updated; archivedAt := Some now;
     deletedAt := deletedAt row |}.

(** [{ status: "deleted", deletedAt: new Date(), updatedAt: new Date() }]:
    [now] and [updated] are the two readings of the clock, in this order. *)
Definition set_deleted (now updated : Z) (row : Item) : Item :=
  {| id := id row; userId := userId row; title := title row;
     description := description row; status := Deleted; metadata := metadata row;
     order := order row; createdAt := createdAt row;
     updatedAt := updated; archivedAt := archivedAt row;
     deletedAt := Some now |}.

(** [{ status: "active", archivedAt: null, deletedAt: null, updatedAt: new Date() }] *)
Definition set_active (now : Z) (row : Item) : Item :=
  {| id := id row; userId := userId row; title := title row;
     description := description row; status := Active; metadata := metadata row;
     order := order row; createdAt := createdAt row;
     updatedAt := now; archivedAt := None; deletedAt := None |}.

Section WithDatabase.
(** The error with which the database rejects a query, when it does. *)
Variable fault : option Thrown.

(** [const [row] = await db.update(userItems).set(..).where(..).returning();
    if (!row) throw new Error(..); return row], inside [try] with a [catch]
    that logs and throws the same error again. *)
Definition update_returning (change : Item -> Item) (itemId user : string)
    (table : Table) : Outcome Item * Table :=
  match fault with
  | Some error => (Throw error, table)
  | None =>
      let table' := (fun row => if selected itemId user row then change row else row) <$> table in
      match change <$> List.filter (selected itemId user) table with
      | row :: _ => (Ok row, table')
      | [] => (Throw not_found, table')
      end
  end.

Definition getItem (itemId user : string) (table : Table) : Outcome (option Item) :=
  match fault with
  | Some error => Throw error
  | None => Ok (head (List.filter (selected itemId user) table))
  end.

Definition updateItem (itemId user : string) (input : UpdateItemInput) (now : Z)
  : Table -> Outcome Item * Table :=
  update_returning (set_input input now) itemId user.

Definition archiveItem (itemId user : string) (now updated : Z)
  : Table -> Outcome Item * Table :=
  update_returning (set_archived now updated) itemId user.

Definition deleteItem (itemId user : string) (now updated : Z)
  : Table -> Outcome Item * Table :=
  update_returning (set_deleted now updated) itemId user.

Definition restoreItem (itemId user : string) (now : Z) : Table -> Outcome Item * Table :=
  update_returning (set_active now) itemId user.

Definition hardDeleteItem (itemId user : string) (table : Table) : Outcome Item * Table :=
  match fault with
  | Some error => (Throw error, table)
  | None =>
      let table' := List.filter (fun row => negb (selected itemId user row)) table in
      match List.filter (selected itemId user) table with
      | row :: _ => (Ok row, table')
      | [] => (Throw not_found, table')
      end
  end.

(** [countUserItems]: every value of [ItemStatus] is a truthy string. *)
Definition countUserItems (user : string) (wanted : option Status) (table : Table)
  : Outcome nat :=
  match fault with
  | Some error => Throw error
  | None =>
      Ok (length (List.filter
                    (fun row => bool_decide (userId row = user) &&
                                match wanted with
                                | Some s => bool_decide (status row = s)
                                | None => true
                                end) table))
  end.

(** A call of one of the methods that write.  [now] is the first reading
    of the clock in the call and [updated] the second, which only
    [archiveItem] and [deleteItem] take. *)
Inductive Mutation : Type :=
  | UpdateItem (input : UpdateItemInput)
  | ArchiveItem
  | DeleteItem
  | RestoreItem
  | HardDeleteItem.

Definition mutate (m : Mutation) (itemId user : string) (now updated : Z)
  : Table -> Outcome Item * Table :=
  match m with
  | UpdateItem input => updateItem itemId user input now
  | ArchiveItem => archiveItem itemId user now updated
  | DeleteItem => deleteItem itemId user now updated
  | RestoreItem => restoreItem itemId user now
  | HardDeleteItem => hardDeleteItem itemId user
  end.

End WithDatabase.

(** The rows a call with [itemId] and [user] has no business with. *)
Definition others (itemId user : string) (table : Table) : Table :=
  List.filter (fun row => negb (selected itemId user row)) table.

End ItemsService.

(** * Properties *)

Import Checks.

Ltac unfold_action :=
  unfold ConnectBank.createPlaidLinkToken, ConnectBank.exchangePlaidPublicToken,
    ConnectBank.send_email_notification,
    WidgetActions.createPlaidLinkToken, WidgetActions.exchangePlaidPublicToken,
    PlaidService.createLinkToken, PlaidService.exchangePublicToken,
    ConnectBank.headers, ConnectBank.getMcpSession, ConnectBank.hasActiveSubscription,
    ConnectBank.pool_connect, ConnectBank.client_release, ConnectBank.client_query,
    console_error, try_catch, try_finally, bind, ret, throw, settle, call, call_db,
    outcome, store, events in *.

(** Membership of an event in an explicit list of events. *)
Ltac event_in :=
  repeat match goal with
         | H : _ ∈ _ ++ _ |- _ => apply elem_of_app in H; destruct H as [H|H]
         | H : _ ∈ _ :: _ |- _ => apply elem_of_cons in H; destruct H as [H|H]
         | H : _ ∈ [] |- _ => by apply elem_of_nil in H
         end;
  try discriminate; simplify_eq; try done.

Section ConnectBankLinkToken.
Import ConnectBank.
Variables (E : Env) (US : UserService) (mcpToken : option string) (d : Db.t).

(** The run of [createPlaidLinkToken] once the session and the subscription
    are in order, the items are read and the database answers. *)
Lemma createPlaidLinkToken_checked uid items d1 :
  authenticated E mcpToken uid → subscribed E uid →
  getUserPlaidItems US uid true d = (Ok items, d1) →
  database_up E →
  let m := maxAccounts (plan_of (Db.select_plan uid d1)) in
  let request := PlaidService.link_token_request E uid None in
  let message := "Failed to create link token: " in
  ∃ checks,
    Forall (fun ev => banking_call ev = false) checks ∧
    createPlaidLinkToken E US mcpToken d =
      if limit_reached (length items) m then
        (Ok (LinkFailure (limit_message m)), d1, checks ++ [EvClientRelease])
      else
        match env_linkTokenCreate E request with
        | Ok response =>
            (Ok (LinkSuccess (link_token response) (expiration response)), d1,
             checks ++ [EvLinkTokenCreate request; EvClientRelease])
        | Throw e =>
            (Ok (LinkFailure (message +:+ message_or e "Unknown error")), d1,
             checks ++
             [EvLinkTokenCreate request;
              EvConsoleError "Error creating link token:" e;
              EvClientRelease;
              EvConsoleError "[Server Action] createPlaidLinkToken error:"
                (ErrorObj (message +:+ message_or e "Unknown error"))])
        end.
Proof.
  intros (h & authorization & [uid'] & Hh & Ha & Hs & Hu & Ht) Hsub Hitems [Hpool Hquery];
    simpl in *; subst uid'.
  unfold subscribed in Hsub.
  exists [EvHeaders; EvGetMcpSession authorization;
          EvHasActiveSubscription uid; EvGetUserPlaidItems uid true;
          EvPoolConnect; EvClientQuery].
  split; [by repeat constructor|].
  unfold_action.
  rewrite Hh; simpl. rewrite Ha; simpl. rewrite Hs; simpl. rewrite Ht; simpl.
  rewrite Hsub; simpl. rewrite Hitems; simpl. rewrite Hpool; simpl.
  rewrite Hquery; simpl.
  destruct (limit_reached _ _); simpl; [done|].
  by destruct (env_linkTokenCreate E _).
Qed.

(** Without a resolved user the action stops after the session lookup. *)
Lemma createPlaidLinkToken_unauthenticated :
  unauthenticated E mcpToken →
  ∃ h, createPlaidLinkToken E US mcpToken d =
         (Ok (LinkFailure auth_required), d, [EvHeaders; EvGetMcpSession h]).
Proof.
  intros (h & authorization & s & Hh & Ha & Hs & Ht). unfold_action.
  rewrite Hh; simpl. rewrite Ha; simpl. rewrite Hs; simpl. rewrite Ht; simpl. by eexists.
Qed.

(** When the bearer credential is refused as a header value, the action
    stops before the session lookup, in its catch-all handler. *)
Lemma createPlaidLinkToken_refused message :
  refused E mcpToken message →
  createPlaidLinkToken E US mcpToken d =
    (Ok (LinkFailure message), d,
     [EvHeaders;
      EvConsoleError "[Server Action] createPlaidLinkToken error:" (ErrorObj message)]).
Proof.
  intros (h & Hh & Ha). unfold_action.
  rewrite Hh; simpl. by rewrite Ha.
Qed.

(** Without a resolved user the action returns a failure and reaches no call
    to the banking API. *)
Lemma createPlaidLinkToken_unresolved :
  (∀ uid, ¬ authenticated E mcpToken uid) →
  (∃ error, outcome (createPlaidLinkToken E US mcpToken d) = Ok (LinkFailure error)) ∧
  ∀ ev, ev ∈ events (createPlaidLinkToken E US mcpToken d) → banking_call ev = false.
Proof.
  intros Hnone. unfold_action.
  destruct (env_headers E) as [h|e] eqn:Hh; simpl;
    [|split; [by eexists|intros ev Hin; event_in]].
  destruct (authHeaders E h mcpToken) as [authorization|e] eqn:Ha; simpl;
    [|split; [by eexists|intros ev Hin; event_in]].
  destruct (env_getMcpSession E authorization) as [s|e] eqn:Hs; simpl;
    [|split; [by eexists|intros ev Hin; event_in]].
  destruct (truthy_opt (session_userId s)) eqn:Ht; simpl;
    [|split; [by eexists|intros ev Hin; event_in]].
  destruct s as [[uid]|]; simpl in *; [|done].
  destruct (Hnone uid). by exists h, authorization, {| userId := uid |}.
Qed.

(** A call for a link token occurs only behind the three checks. *)
Lemma link_token_call_guarded request :
  EvLinkTokenCreate request ∈ events (createPlaidLinkToken E US mcpToken d) →
  ∃ uid, authenticated E mcpToken uid ∧ subscribed E uid ∧ under_quota US uid d ∧
         request = PlaidService.link_token_request E uid None.
Proof.
  unfold_action.
  destruct (env_headers E) as [h|e] eqn:Hh; simpl; [|intros; event_in].
  destruct (authHeaders E h mcpToken) as [authorization|e] eqn:Ha; simpl;
    [|intros; event_in].
  destruct (env_getMcpSession E _) as [s|e] eqn:Hs; simpl; [|intros; event_in].
  destruct (truthy_opt (session_userId s)) eqn:Ht; simpl; [|intros; event_in].
  destruct s as [[uid]|]; simpl in *; [|done].
  destruct (env_hasActiveSubscription E uid) as [[|]|e] eqn:Hsub; simpl;
    [|intros; event_in..].
  destruct (getUserPlaidItems US uid true d) as [[items|e] d1] eqn:Hit; simpl;
    [|intros; event_in].
  destruct (env_pool_connect E) as [[]|e]; simpl; [|intros; event_in].
  destruct (env_query_error E) as [e|]; simpl; [intros; event_in|].
  destruct (limit_reached _ _) eqn:Hlim; simpl; [intros; event_in|].
  intros Hin. exists uid.
  assert (request = PlaidService.link_token_request E uid None) as ->.
  { destruct (env_linkTokenCreate E _); simpl in Hin; event_in. }
  split_and!; try done.
  - by exists h, authorization, {| userId := uid |}.
  - by exists items, d1.
Qed.

End ConnectBankLinkToken.

(** No call to the banking API among events that are not such calls. *)
Lemma not_banking_call (evs : list Event) (ev : Event) :
  Forall (fun ev => banking_call ev = false) evs →
  banking_call ev = true → ev ∉ evs.
Proof.
  intros Hall Hev Hin. rewrite Forall_forall in Hall.
  apply Hall in Hin. congruence.
Qed.

(** The needle of [includes] found at the head, and behind a prefix. *)
Lemma prefix_app (a b : string) : String.prefix a (a +:+ b) = true.
Proof.
  induction a as [|c a IH]; simpl; [by destruct b|].
  by destruct (Ascii.ascii_dec c c).
Qed.

Lemma includes_here (a b : string) : includes (a +:+ b) a = true.
Proof.
  destruct a as [|c a]; [by destruct b|].
  change (String.prefix (String c a) (String c a +:+ b) || includes (a +:+ b) (String c a) = true).
  by rewrite prefix_app.
Qed.

Lemma includes_self (a : string) : includes a a = true.
Proof.
  assert (Hp : ∀ s, String.prefix s s = true).
  { induction s as [|c s IH]; simpl; [done|]. by destruct (Ascii.ascii_dec c c). }
  destruct a as [|c a]; [done|].
  change (String.prefix (String c a) (String c a) || includes a (String c a) = true).
  by rewrite Hp.
Qed.

Lemma includes_behind (p hay needle : string) :
  includes hay needle = true → includes (p +:+ hay) needle = true.
Proof.
  intros H. induction p as [|c p IH]; [done|].
  change (String.prefix needle (String c (p +:+ hay)) || includes (p +:+ hay) needle = true).
  rewrite IH. apply orb_true_r.
Qed.

(** C2, as stated, fails: a bearer token with a line feed in it is no header
    value, so [Headers.prototype.set] throws before the authority is asked;
    the caller, whom nothing authenticates, is not answered with the
    authentication failure but with the text of the thrown error. *)
Lemma broken_bearer_is_not_told_to_sign_in :
  let E := Scenario.env_anonymous in
  let token := Some Scenario.broken_token in
  let r := ConnectBank.createPlaidLinkToken E Scenario.service token (Scenario.db []) in
  (∀ uid, ¬ authenticated E token uid) ∧
  outcome r =
    Ok (ConnectBank.LinkFailure
          (Scenario.invalid_header_value ("Bearer " +:+ Scenario.broken_token))) ∧
  outcome r ≠ Ok (ConnectBank.LinkFailure ConnectBank.auth_required) ∧
  events r =
    [EvHeaders;
     EvConsoleError "[Server Action] createPlaidLinkToken error:"
       (ErrorObj (Scenario.invalid_header_value ("Bearer " +:+ Scenario.broken_token)))].
Proof.
  split_and!; try by vm_compute.
  intros uid (h & authorization & session & _ & Ha & _). by vm_compute in Ha.
Qed.

(** C2 (amended) — For every invocation of [createPlaidLinkToken], the
    link-token call to the banking API is made only if the authentication
    check, the subscription check and the quota check have all passed.
    Whenever no user is resolved the action returns a failure and makes no
    call to the banking API; the failure is the authentication failure
    whenever the authority was asked and answered without a user id.  When
    the bearer credential is refused as a header value the authority is not
    asked at all. *)
Theorem link_token_only_after_checks (E : Env) (US : UserService)
    (mcpToken : option string) (d : Db.t) :
  let r := ConnectBank.createPlaidLinkToken E US mcpToken d in
  (∀ request, EvLinkTokenCreate request ∈ events r →
     ∃ uid, authenticated E mcpToken uid ∧ subscribed E uid ∧ under_quota US uid d) ∧
  ((∀ uid, ¬ authenticated E mcpToken uid) →
     (∃ error, outcome r = Ok (ConnectBank.LinkFailure error)) ∧
     ∀ ev, ev ∈ events r → banking_call ev = false) ∧
  (unauthenticated E mcpToken →
     outcome r = Ok (ConnectBank.LinkFailure ConnectBank.auth_required) ∧
     ∀ ev, ev ∈ events r → banking_call ev = false) ∧
  (∀ message, refused E mcpToken message →
     outcome r = Ok (ConnectBank.LinkFailure message) ∧
     ∀ ev, ev ∈ events r → banking_call ev = false ∧ ∀ h, ev ≠ EvGetMcpSession h).
Proof.
  intros r. split_and!.
  - intros request Hin.
    destruct (link_token_call_guarded E US mcpToken d request Hin) as (uid & ? & ? & ? & _).
    by exists uid.
  - apply createPlaidLinkToken_unresolved.
  - intros Hun. subst r.
    destruct (createPlaidLinkToken_unauthenticated E US mcpToken d Hun) as [h ->].
    split; [done|]. intros ev Hin. unfold events in Hin; simpl in Hin. event_in.
  - intros message Href. subst r.
    rewrite (createPlaidLinkToken_refused E US mcpToken d message Href).
    split; [done|]. intros ev Hin. unfold events in Hin; simpl in Hin. event_in.
Qed.

Lemma link_token_only_after_checks_witness :
  (unauthenticated Scenario.env_anonymous None ∧
   outcome (ConnectBank.createPlaidLinkToken Scenario.env_anonymous Scenario.service None
              (Scenario.db [])) =
     Ok (ConnectBank.LinkFailure ConnectBank.auth_required)) ∧
  (refused Scenario.env_anonymous (Some Scenario.broken_token)
     (Scenario.invalid_header_value ("Bearer " +:+ Scenario.broken_token)) ∧
   ∀ ev,
     ev ∈ events (ConnectBank.createPlaidLinkToken Scenario.env_anonymous Scenario.service
                    (Some Scenario.broken_token) (Scenario.db [])) →
     banking_call ev = false ∧ ∀ h, ev ≠ EvGetMcpSession h) ∧
  ∃ uid, authenticated (Scenario.env "item_1") None uid.
Proof.
  assert (unauthenticated Scenario.env_anonymous None) as Hun.
  { exists None, None, None. by vm_compute. }
  assert (refused Scenario.env_anonymous (Some Scenario.broken_token)
            (Scenario.invalid_header_value ("Bearer " +:+ Scenario.broken_token))) as Href.
  { exists None. by vm_compute. }
  split; [|split].
  - split; [done|].
    apply (proj1 (proj2 (proj2
             (link_token_only_after_checks Scenario.env_anonymous Scenario.service None
                (Scenario.db [])))) Hun).
  - split; [done|].
    apply (proj2 (proj2 (proj2
             (link_token_only_after_checks Scenario.env_anonymous Scenario.service
                (Some Scenario.broken_token) (Scenario.db [])))) _ Href).
  - destruct (proj1 (link_token_only_after_checks (Scenario.env "item_1") Scenario.service
                       None (Scenario.db []))
                (PlaidService.link_token_request (Scenario.env "item_1") "user_1" None))
      as (uid & Hauth & _).
    + vm_compute. do 6 apply list_elem_of_further. apply list_elem_of_here.
    + by exists uid.
Defined.

(** The example collaborators pass the checks for ["user_1"]. *)
Lemma scenario_authenticated (item : string) :
  authenticated (Scenario.env item) None "user_1".
Proof.
  by exists (Some "Bearer good"), (Some "Bearer good"), {| userId := "user_1" |}.
Defined.

Lemma scenario_subscribed (item : string) : subscribed (Scenario.env item) "user_1".
Proof. reflexivity. Defined.

Lemma scenario_database_up (item : string) : database_up (Scenario.env item).
Proof. by split. Defined.

(** C3 — For every authenticated, subscribed user, [createPlaidLinkToken] maps
    the plan of the row that the plan query returns to a maximum number of
    accounts (basic 3, pro 10, enterprise 999999; 3 when there is no row or
    the row has an empty plan) and compares it with the number of active
    items of the user: at or over the limit the action returns the quota
    failure and asks for no link token, below it the link token is asked for
    and issued.  So a basic user with exactly 3 active items is rejected and
    a basic user with 2 active items succeeds. *)
Theorem plan_quota_boundary (E : Env) (US : UserService) (mcpToken : option string)
    (d d1 : Db.t) (uid : string) (items : list Db.PlaidItem) (limit : Z) :
  authenticated E mcpToken uid → subscribed E uid →
  getUserPlaidItems US uid true d = (Ok items, d1) →
  database_up E →
  (Db.select_plan uid d1 = [] ∧ limit = 3%Z) ∨
  (∃ s rest, Db.select_plan uid d1 = s :: rest ∧
     (Db.plan s = "" ∧ limit = 3%Z ∨ Db.plan s = "basic" ∧ limit = 3%Z ∨
      Db.plan s = "pro" ∧ limit = 10%Z ∨ Db.plan s = "enterprise" ∧ limit = 999999%Z)) →
  let r := ConnectBank.createPlaidLinkToken E US mcpToken d in
  let request := PlaidService.link_token_request E uid None in
  ((limit ≤ Z.of_nat (length items))%Z →
     outcome r =
       Ok (ConnectBank.LinkFailure
             ("Account limit reached. Your plan allows " +:+ pretty limit +:+
              " bank account(s). Please upgrade or remove an existing connection.")) ∧
     ∀ ev, ev ∈ events r → banking_call ev = false) ∧
  ((Z.of_nat (length items) < limit)%Z →
     EvLinkTokenCreate request ∈ events r ∧
     ∀ response,
       env_linkTokenCreate E request = Ok response →
       outcome r =
         Ok (ConnectBank.LinkSuccess (link_token response) (expiration response))).
Proof.
  intros Hauth Hsub Hitems Hdb Hplan r request.
  destruct (createPlaidLinkToken_checked E US mcpToken d uid items d1 Hauth Hsub Hitems Hdb)
    as (checks & Hchecks & Hrun).
  fold r request in Hrun.
  assert (Hm : ConnectBank.maxAccounts (ConnectBank.plan_of (Db.select_plan uid d1)) =
               ConnectBank.Limit limit).
  { destruct Hplan as [[-> ->]|(s & rest & -> & Hs)]; [done|].
    unfold ConnectBank.plan_of; simpl.
    destruct Hs as [[-> ->]|[[-> ->]|[[-> ->]|[-> ->]]]]; done. }
  rewrite Hm in Hrun. simpl in Hrun. split.
  - intros Hle. rewrite bool_decide_eq_true_2 in Hrun by done. rewrite Hrun.
    split; [done|]. unfold events; simpl. intros ev Hin.
    apply elem_of_app in Hin as [Hin|Hin].
    + rewrite Forall_forall in Hchecks. by apply Hchecks.
    + event_in.
  - intros Hlt. rewrite bool_decide_eq_false_2 in Hrun by lia. split.
    + rewrite Hrun. destruct (env_linkTokenCreate E request); unfold events; simpl;
        apply elem_of_app; right; apply list_elem_of_here.
    + intros response Hresp. by rewrite Hrun, Hresp.
Qed.

Lemma plan_quota_boundary_witness :
  let link plan n :=
    outcome (ConnectBank.createPlaidLinkToken (Scenario.env "item_1") Scenario.service None
               (Scenario.db_on plan (Scenario.items n))) in
  let rejected limit :=
    Ok (ConnectBank.LinkFailure
          ("Account limit reached. Your plan allows " +:+ limit +:+
           " bank account(s). Please upgrade or remove an existing connection.")) in
  let issued := Ok (ConnectBank.LinkSuccess "link-token-1" "2030-01-01T00:00:00Z") in
  link "basic" 3 = rejected "3" ∧ link "basic" 2 = issued ∧
  link "pro" 3 = issued ∧ link "pro" 9 = issued ∧ link "pro" 10 = rejected "10".
Proof.
  intros link rejected issued.
  assert (Hrun : ∀ plan n limit,
            plan = "basic" ∧ limit = 3%Z ∨ plan = "pro" ∧ limit = 10%Z →
            ((limit ≤ Z.of_nat (length (Scenario.items n)))%Z →
               link plan n = rejected (pretty limit)) ∧
            ((Z.of_nat (length (Scenario.items n)) < limit)%Z → link plan n = issued)).
  { intros plan n limit Hplan.
    assert (Hitems : getUserPlaidItems Scenario.service "user_1" true
                       (Scenario.db_on plan (Scenario.items n)) =
                     (Ok (Scenario.items n), Scenario.db_on plan (Scenario.items n))).
    { unfold Scenario.service, ItemStore.service, ItemStore.getUserPlaidItems; simpl.
      f_equal. f_equal. unfold Scenario.items.
      induction (seq 0 n) as [|k l IH]; [done|].
      rewrite fmap_cons, filter_cons_True by done. by rewrite IH. }
    destruct (plan_quota_boundary (Scenario.env "item_1") Scenario.service None
                (Scenario.db_on plan (Scenario.items n))
                (Scenario.db_on plan (Scenario.items n)) "user_1" (Scenario.items n) limit
                (scenario_authenticated _) (scenario_subscribed _) Hitems
                (scenario_database_up _)) as [Hreject Hissue].
    { right. exists (Scenario.subscription_on plan), []. split; [done|]. simpl. tauto. }
    split.
    - intros Hle. by destruct (Hreject Hle).
    - intros Hlt. destruct (Hissue Hlt) as [_ Hout]. by apply (Hout Scenario.link_response). }
  split_and!.
  - apply (proj1 (Hrun "basic" 3 3%Z (or_introl (conj eq_refl eq_refl)))). by vm_compute.
  - apply (proj2 (Hrun "basic" 2 3%Z (or_introl (conj eq_refl eq_refl)))). by vm_compute.
  - apply (proj2 (Hrun "pro" 3 10%Z (or_intror (conj eq_refl eq_refl)))). by vm_compute.
  - apply (proj2 (Hrun "pro" 9 10%Z (or_intror (conj eq_refl eq_refl)))). by vm_compute.
  - apply (proj1 (Hrun "pro" 10 10%Z (or_intror (conj eq_refl eq_refl)))). by vm_compute.
Defined.

(** C4, as stated, fails: with 4 active items on the basic plan the request is
    rejected for the quota, and the message holds the limit 3 but not the
    count 4. *)
Lemma quota_message_omits_count :
  let d := Scenario.db Scenario.four_items in
  let r := ConnectBank.createPlaidLinkToken (Scenario.env "item_1") Scenario.service None d in
  ∃ message,
    (getUserPlaidItems Scenario.service "user_1" true d).1 = Ok Scenario.four_items ∧
    length Scenario.four_items = 4 ∧
    outcome r = Ok (ConnectBank.LinkFailure message) ∧
    message = ConnectBank.limit_message (ConnectBank.Limit 3) ∧
    includes message (pretty 3%Z) = true ∧
    includes message (pretty (Z.of_nat 4)) = false.
Proof. eexists. by vm_compute. Qed.

(** C4 (amended) — When [createPlaidLinkToken] rejects a request for being at
    or over the quota, the error message returned to the caller contains the
    limit of the plan; it is the same for every number of active items. *)
Theorem quota_message_states_limit (E : Env) (US : UserService)
    (mcpToken : option string) (d d1 : Db.t) (uid : string) (items : list Db.PlaidItem) :
  authenticated E mcpToken uid → subscribed E uid →
  getUserPlaidItems US uid true d = (Ok items, d1) →
  database_up E →
  let r := ConnectBank.createPlaidLinkToken E US mcpToken d in
  let m := ConnectBank.maxAccounts (ConnectBank.plan_of (Db.select_plan uid d1)) in
  ConnectBank.limit_reached (length items) m = true →
  ∃ n message,
    m = ConnectBank.Limit n ∧
    outcome r = Ok (ConnectBank.LinkFailure message) ∧
    message = "Account limit reached. Your plan allows " +:+ pretty n +:+
              " bank account(s). Please upgrade or remove an existing connection." ∧
    includes message (pretty n) = true.
Proof.
  intros Hauth Hsub Hitems Hdb r m Hlim.
  destruct (createPlaidLinkToken_checked E US mcpToken d uid items d1 Hauth Hsub Hitems Hdb)
    as (checks & _ & Hrun).
  fold m in Hrun. fold r in Hrun. rewrite Hlim in Hrun.
  destruct m as [n|] eqn:Hm; [|done].
  exists n, (ConnectBank.limit_message (ConnectBank.Limit n)).
  split_and!; try done.
  - by rewrite Hrun.
  - unfold ConnectBank.limit_message. apply includes_behind, includes_here.
Qed.

Lemma quota_message_states_limit_witness :
  ∃ message,
    outcome (ConnectBank.createPlaidLinkToken (Scenario.env "item_1") Scenario.service None
               (Scenario.db Scenario.four_items)) = Ok (ConnectBank.LinkFailure message) ∧
    includes message (pretty 3%Z) = true.
Proof.
  destruct (quota_message_states_limit (Scenario.env "item_1") Scenario.service None
              (Scenario.db Scenario.four_items) (Scenario.db Scenario.four_items)
              "user_1" Scenario.four_items
              (scenario_authenticated _) (scenario_subscribed _) eq_refl
              (scenario_database_up _) eq_refl)
    as (n & message & Hm & Hout & _ & Hinc).
  exists message. split; [exact Hout|].
  assert (n = 3%Z) as <- by (vm_compute in Hm; congruence).
  exact Hinc.
Defined.

Section ConnectBankExchange.
Import ConnectBank.
Variables (E : Env) (US : UserService).

(** The e-mail step never throws and never writes to the store. *)
Lemma send_email_notification_contained uid institutionName d :
  outcome (send_email_notification E uid institutionName d) = Ok tt ∧
  store (send_email_notification E uid institutionName d) = d.
Proof.
  unfold_action.
  destruct (env_import_email_service E) as [[]|e]; simpl; [|done].
  destruct (env_pool_connect E) as [[]|e]; simpl; [|done].
  destruct (env_query_error E) as [e|]; simpl; [done|].
  destruct (head (Db.select_user uid d)) as [u|]; simpl; [|done].
  destruct institutionName as [inst|]; simpl; [|done].
  destruct (truthy (Db.email u) && truthy inst); simpl; [|done].
  by destruct (env_sendBankConnectionConfirmation E _ _ _ _) as [[]|e].
Qed.

(** The run of [exchangePlaidPublicToken] once the session and the
    subscription are in order and a public token is given. *)
Lemma exchangePlaidPublicToken_checked publicToken metadata mcpToken d uid :
  authenticated E mcpToken uid → subscribed E uid → truthy publicToken = true →
  let institutionId := or_undefined (institution_field institution_id metadata) in
  let institutionName := or_undefined (institution_field name metadata) in
  let message := "Failed to exchange public token: " in
  ∃ checks,
    Forall (fun ev => banking_call ev = false) checks ∧
    exchangePlaidPublicToken E US publicToken metadata mcpToken d =
      match env_itemPublicTokenExchange E publicToken with
      | Throw e =>
          (Ok (ExchangeFailure (message +:+ message_or e "Unknown error")), d,
           checks ++
           [EvItemPublicTokenExchange publicToken;
            EvConsoleError "Error exchanging public token:" e;
            EvConsoleError "[Server Action] exchangePlaidPublicToken error:"
              (ErrorObj (message +:+ message_or e "Unknown error"))])
      | Ok response =>
          let accessToken := resp_access_token response in
          let itemId := resp_item_id response in
          let save :=
            EvSavePlaidItem uid itemId accessToken institutionId institutionName in
          match savePlaidItem US uid itemId accessToken institutionId institutionName d with
          | (Throw e, d1) =>
              (Ok (ExchangeFailure (message_or e "Failed to connect bank account")), d1,
               checks ++
               [EvItemPublicTokenExchange publicToken; save;
                EvConsoleError "[Server Action] exchangePlaidPublicToken error:" e])
          | (Ok _, d1) =>
              (Ok (ExchangeSuccess itemId institutionName), d1,
               checks ++
               [EvItemPublicTokenExchange publicToken; save] ++
               events (send_email_notification E uid institutionName d1))
          end
      end.
Proof.
  intros (h & authorization & [uid'] & Hh & Ha & Hs & Hu & Ht) Hsub Htok;
    simpl in *; subst uid'.
  unfold subscribed in Hsub.
  exists [EvHeaders; EvGetMcpSession authorization;
          EvHasActiveSubscription uid].
  split; [by repeat constructor|].
  pose proof (send_email_notification_contained uid
                (or_undefined (institution_field name metadata))) as Hmail.
  unfold exchangePlaidPublicToken, PlaidService.exchangePublicToken,
    headers, getMcpSession, hasActiveSubscription, console_error,
    try_catch, bind, ret, throw, settle, call, call_db.
  rewrite Hh; simpl. rewrite Ha; simpl. rewrite Hs; simpl. rewrite Ht; simpl.
  rewrite Hsub; simpl. rewrite Htok; simpl.
  destruct (env_itemPublicTokenExchange E publicToken) as [response|e]; simpl; [|done].
  destruct (savePlaidItem US uid _ _ _ _ d) as [[[]|e] d1]; simpl; [|done].
  destruct (Hmail d1) as [Hout Hstore].
  destruct (send_email_notification E uid _ d1) as [[o d2] evs].
  unfold outcome, store, events in *; simpl in *; subst; simpl.
  by rewrite app_nil_r.
Qed.

(** Without a resolved user, or without a subscription, the action stops
    before any call to the banking API or to the store. *)
Lemma exchangePlaidPublicToken_unauthenticated publicToken metadata mcpToken d :
  unauthenticated E mcpToken →
  ∃ h, exchangePlaidPublicToken E US publicToken metadata mcpToken d =
         (Ok (ExchangeFailure auth_required), d, [EvHeaders; EvGetMcpSession h]).
Proof.
  intros (h & authorization & s & Hh & Ha & Hs & Ht). unfold_action.
  rewrite Hh; simpl. rewrite Ha; simpl. rewrite Hs; simpl. rewrite Ht; simpl. by eexists.
Qed.

(** When the bearer credential is refused as a header value, the action
    stops before the session lookup, in its catch-all handler. *)
Lemma exchangePlaidPublicToken_refused publicToken metadata mcpToken d message :
  refused E mcpToken message →
  exchangePlaidPublicToken E US publicToken metadata mcpToken d =
    (Ok (ExchangeFailure message), d,
     [EvHeaders;
      EvConsoleError "[Server Action] exchangePlaidPublicToken error:" (ErrorObj message)]).
Proof.
  intros (h & Hh & Ha). unfold_action.
  rewrite Hh; simpl. by rewrite Ha.
Qed.

Lemma exchangePlaidPublicToken_unsubscribed publicToken metadata mcpToken d uid :
  authenticated E mcpToken uid → unsubscribed E uid →
  ∃ h, exchangePlaidPublicToken E US publicToken metadata mcpToken d =
         (Ok (ExchangeFailure subscription_required), d,
          [EvHeaders; EvGetMcpSession h; EvHasActiveSubscription uid]).
Proof.
  intros (h & authorization & [uid'] & Hh & Ha & Hs & Hu & Ht) Hsub; simpl in *; subst uid'.
  unfold unsubscribed in Hsub. unfold_action.
  rewrite Hh; simpl. rewrite Ha; simpl. rewrite Hs; simpl. rewrite Ht; simpl.
  rewrite Hsub; simpl.
  by eexists.
Qed.

End ConnectBankExchange.

(** The message that [createPlaidLinkToken] of [app/connect-bank] returns on
    a failure of the banking API holds the provider's message. *)
Lemma link_failure_carries_provider_message (E : Env) (US : UserService)
    (mcpToken : option string) (d d1 : Db.t) (uid : string) (items : list Db.PlaidItem)
    (provider : string) :
  authenticated E mcpToken uid → subscribed E uid → under_quota US uid d →
  database_up E →
  env_linkTokenCreate E (PlaidService.link_token_request E uid None) =
    Throw (ErrorObj provider) →
  ∃ message,
    outcome (ConnectBank.createPlaidLinkToken E US mcpToken d) =
      Ok (ConnectBank.LinkFailure message) ∧
    message = "Failed to create link token: " +:+ provider ∧
    includes message provider = true.
Proof.
  intros Hauth Hsub (items' & d' & Hitems & Hlim) Hdb Hthrow.
  destruct (createPlaidLinkToken_checked E US mcpToken d uid items' d' Hauth Hsub Hitems Hdb)
    as (checks & _ & Hrun).
  rewrite Hlim, Hthrow in Hrun. eexists. rewrite Hrun. split_and!; try done.
  apply includes_behind, includes_self.
Qed.

(** C6 — at a failure of the banking API the actions of [app/connect-bank]
    hand the provider's own message to the caller, both for the link token and
    for the exchange; the cause is logged; the widget actions return a fixed
    text on the same failure. *)
Theorem provider_message_reaches_caller :
  let E := Scenario.env_provider_down in
  let d := Scenario.db Scenario.two_items in
  let link := ConnectBank.createPlaidLinkToken E Scenario.service None d in
  let exchange :=
    ConnectBank.exchangePlaidPublicToken E Scenario.service "public-1"
      (Some Scenario.first_bank) None d in
  let widget_link := WidgetActions.createPlaidLinkToken E "user_1" d in
  let widget_exchange :=
    WidgetActions.exchangePlaidPublicToken E Scenario.service "user_1" "public-1"
      {| WidgetActions.id := Some "ins_1"; WidgetActions.name := Some "First Bank" |} d in
  (∃ message,
     outcome link = Ok (ConnectBank.LinkFailure message) ∧
     message = "Failed to create link token: " +:+ Scenario.provider_message ∧
     includes message Scenario.provider_message = true) ∧
  (∃ message,
     outcome exchange = Ok (ConnectBank.ExchangeFailure message) ∧
     message = "Failed to exchange public token: " +:+ Scenario.provider_message ∧
     includes message Scenario.provider_message = true) ∧
  EvConsoleError "Error creating link token:" (ErrorObj Scenario.provider_message)
    ∈ events link ∧
  outcome widget_link = Ok (WidgetActions.LinkFailure "Failed to create Plaid link token") ∧
  outcome widget_exchange =
    Ok (WidgetActions.ExchangeFailure "Failed to exchange Plaid public token").
Proof.
  split_and!.
  - eexists. by vm_compute.
  - eexists. by vm_compute.
  - vm_compute. do 7 apply list_elem_of_further. apply list_elem_of_here.
  - reflexivity.
  - reflexivity.
Qed.

(** C7 — If the exchange of the public token and the persistence of the item
    have succeeded, [exchangePlaidPublicToken] returns success and the store
    is the one that [savePlaidItem] left, whatever the e-mail step does: its
    import, its connection, its queries or the mailer may throw. *)
Theorem email_failure_keeps_connection (E : Env) (US : UserService) (publicToken : string)
    (metadata : option ConnectBank.PlaidMetadata) (mcpToken : option string)
    (d d1 : Db.t) (uid : string) (response : ItemPublicTokenExchangeResponse) :
  authenticated E mcpToken uid → subscribed E uid → truthy publicToken = true →
  env_itemPublicTokenExchange E publicToken = Ok response →
  let institutionId :=
    or_undefined (ConnectBank.institution_field ConnectBank.institution_id metadata) in
  let institutionName :=
    or_undefined (ConnectBank.institution_field ConnectBank.name metadata) in
  savePlaidItem US uid (resp_item_id response) (resp_access_token response)
    institutionId institutionName d = (Ok tt, d1) →
  let r := ConnectBank.exchangePlaidPublicToken E US publicToken metadata mcpToken d in
  outcome r = Ok (ConnectBank.ExchangeSuccess (resp_item_id response) institutionName) ∧
  store r = d1.
Proof.
  intros Hauth Hsub Htok Hresp institutionId institutionName Hsave r.
  destruct (exchangePlaidPublicToken_checked E US publicToken metadata mcpToken d uid
              Hauth Hsub Htok) as (checks & _ & Hrun).
  subst r. rewrite Hrun, Hresp; simpl.
  fold institutionId institutionName. by rewrite Hsave.
Qed.

Lemma scenario_mail_down_authenticated (item : string) :
  authenticated (Scenario.env_mail_down item) None "user_1".
Proof.
  by exists (Some "Bearer good"), (Some "Bearer good"), {| userId := "user_1" |}.
Defined.

Lemma email_failure_keeps_connection_witness :
  let r := ConnectBank.exchangePlaidPublicToken (Scenario.env_mail_down "item_1")
             Scenario.service "public-1" (Some Scenario.first_bank) None (Scenario.db []) in
  EvConsoleError "[Server Action] Failed to send bank connection email:"
    (ErrorObj "SMTP connection refused") ∈ events r ∧
  outcome r = Ok (ConnectBank.ExchangeSuccess "item_1" (Some "First Bank")) ∧
  Db.plaid_items (store r) =
    [ItemStore.new_item Scenario.encrypt "user_1" "item_1" "tok_abc"
       (Some "ins_1") (Some "First Bank")].
Proof.
  intros r. split.
  - vm_compute. do 11 apply list_elem_of_further. apply list_elem_of_here.
  - destruct (email_failure_keeps_connection (Scenario.env_mail_down "item_1")
                Scenario.service "public-1" (Some Scenario.first_bank) None
                (Scenario.db [])
                (Db.with_plaid_items (Scenario.db [])
                   [ItemStore.new_item Scenario.encrypt "user_1" "item_1" "tok_abc"
                      (Some "ins_1") (Some "First Bank")])
                "user_1" (Scenario.exchange_response "item_1")
                (scenario_mail_down_authenticated _) eq_refl eq_refl eq_refl eq_refl)
      as [Hout Hstore].
    split; [exact Hout|]. fold r in Hstore. by rewrite Hstore.
Defined.

(** C8 — [exchangePlaidPublicToken] of [app/connect-bank] enforces
    authentication and an active subscription, and performs no quota check:
    once these two checks pass and the exchange succeeds, the item is handed
    to [savePlaidItem] in every state; in a state where a basic-plan user
    already has 3 active items, where [createPlaidLinkToken] answers with the
    quota failure, the call exchanges the token and persists a 4th item. *)
Theorem exchange_skips_quota_check :
  (∀ E US publicToken metadata mcpToken d,
     unauthenticated E mcpToken →
     let r := ConnectBank.exchangePlaidPublicToken E US publicToken metadata mcpToken d in
     outcome r = Ok (ConnectBank.ExchangeFailure ConnectBank.auth_required) ∧
     store r = d ∧ ∀ ev, ev ∈ events r → banking_call ev = false) ∧
  (∀ E US publicToken metadata mcpToken d uid,
     authenticated E mcpToken uid → unsubscribed E uid →
     let r := ConnectBank.exchangePlaidPublicToken E US publicToken metadata mcpToken d in
     outcome r = Ok (ConnectBank.ExchangeFailure ConnectBank.subscription_required) ∧
     store r = d ∧ ∀ ev, ev ∈ events r → banking_call ev = false) ∧
  (∀ E US publicToken metadata mcpToken d uid response,
     authenticated E mcpToken uid → subscribed E uid → truthy publicToken = true →
     env_itemPublicTokenExchange E publicToken = Ok response →
     let r := ConnectBank.exchangePlaidPublicToken E US publicToken metadata mcpToken d in
     EvSavePlaidItem uid (resp_item_id response) (resp_access_token response)
       (or_undefined (ConnectBank.institution_field ConnectBank.institution_id metadata))
       (or_undefined (ConnectBank.institution_field ConnectBank.name metadata))
       ∈ events r) ∧
  (let E := Scenario.env "item_d" in
   let d := Scenario.db Scenario.three_items in
   let r := ConnectBank.exchangePlaidPublicToken E Scenario.service "public-1"
              (Some Scenario.first_bank) None d in
   ConnectBank.plan_of (Db.select_plan "user_1" d) = "basic" ∧
   Db.count_items "user_1" "active" d = 3 ∧
   outcome (ConnectBank.createPlaidLinkToken E Scenario.service None d) =
     Ok (ConnectBank.LinkFailure (ConnectBank.limit_message (ConnectBank.Limit 3))) ∧
   EvItemPublicTokenExchange "public-1" ∈ events r ∧
   outcome r = Ok (ConnectBank.ExchangeSuccess "item_d" (Some "First Bank")) ∧
   Db.plaid_items (store r) =
     Scenario.three_items ++
     [ItemStore.new_item Scenario.encrypt "user_1" "item_d" "tok_abc"
        (Some "ins_1") (Some "First Bank")] ∧
   Db.count_items "user_1" "active" (store r) = 4).
Proof.
  split_and!.
  - intros E US publicToken metadata mcpToken d Hun r. subst r.
    destruct (exchangePlaidPublicToken_unauthenticated E US publicToken metadata mcpToken d
                Hun) as [h ->].
    split_and!; try done. unfold events; simpl. intros ev Hin. event_in.
  - intros E US publicToken metadata mcpToken d uid Hauth Hsub r. subst r.
    destruct (exchangePlaidPublicToken_unsubscribed E US publicToken metadata mcpToken d uid
                Hauth Hsub) as [h ->].
    split_and!; try done. unfold events; simpl. intros ev Hin. event_in.
  - intros E US publicToken metadata mcpToken d uid response Hauth Hsub Htok Hresp r.
    destruct (exchangePlaidPublicToken_checked E US publicToken metadata mcpToken d uid
                Hauth Hsub Htok) as (checks & _ & Hrun).
    subst r. rewrite Hrun, Hresp; simpl.
    destruct (savePlaidItem US uid _ _ _ _ d) as [[[]|e] d1]; unfold events; simpl;
      apply elem_of_app; right;
      apply list_elem_of_further, list_elem_of_here.
  - vm_compute. split_and!; try done.
    do 3 apply list_elem_of_further. apply list_elem_of_here.
Qed.

Lemma exchange_skips_quota_check_witness :
  outcome (ConnectBank.exchangePlaidPublicToken Scenario.env_anonymous Scenario.service
             "public-1" (Some Scenario.first_bank) None (Scenario.db Scenario.three_items)) =
    Ok (ConnectBank.ExchangeFailure ConnectBank.auth_required).
Proof.
  refine (proj1 (proj1 exchange_skips_quota_check Scenario.env_anonymous Scenario.service
                   "public-1" (Some Scenario.first_bank) None
                   (Scenario.db Scenario.three_items) _)).
  exists None, None, None. by vm_compute.
Defined.

(** C9 — The widget action [exchangePlaidPublicToken(userId, publicToken,
    institution)] validates no session, reads no subscription and counts no
    items.  For every non-empty [userId] its first call is the token exchange,
    and when the exchange succeeds the item is saved for that [userId]; for
    the empty [userId] it returns a failure with no call made and the store
    untouched, and this is the only case in which it makes no call. *)
Theorem widget_exchange_unchecked (E : Env) (US : UserService) (uid publicToken : string)
    (institution : WidgetActions.PlaidInstitution) (d : Db.t) :
  let r := WidgetActions.exchangePlaidPublicToken E US uid publicToken institution d in
  (∀ ev, ev ∈ events r → checking_call ev = false) ∧
  (truthy uid = true →
     head (events r) = Some (EvItemPublicTokenExchange publicToken) ∧
     ∀ response,
       env_itemPublicTokenExchange E publicToken = Ok response →
       let saved :=
         savePlaidItem US uid (resp_item_id response) (resp_access_token response)
           (WidgetActions.id institution) (WidgetActions.name institution) d in
       events r !! 1 =
         Some (EvSavePlaidItem uid (resp_item_id response) (resp_access_token response)
                 (WidgetActions.id institution) (WidgetActions.name institution)) ∧
       store r = saved.2 ∧
       outcome r =
         match saved.1 with
         | Ok _ => Ok WidgetActions.ExchangeSuccess
         | Throw _ =>
             Ok (WidgetActions.ExchangeFailure "Failed to exchange Plaid public token")
         end) ∧
  (truthy uid = false →
     r = (Ok (WidgetActions.ExchangeFailure "User ID is required"), d, [])) ∧
  (events r = [] → truthy uid = false).
Proof.
  intros r. subst r. unfold_action.
  destruct (truthy uid) eqn:Hu; simpl.
  - destruct (env_itemPublicTokenExchange E publicToken) as [response|e] eqn:Hresp; simpl.
    + destruct (savePlaidItem US uid _ _ _ _ d) as [[[]|e] d1] eqn:Hsave; simpl.
      * split_and!; try done.
        -- intros ev Hin. event_in.
        -- split; [done|]. intros response' [= <-]. by rewrite Hsave.
      * split_and!; try done.
        -- intros ev Hin. event_in.
        -- split; [done|]. intros response' [= <-]. by rewrite Hsave.
    + split_and!; try done. intros ev Hin. event_in.
  - split_and!; try done. intros ev Hin. event_in.
Qed.

Lemma widget_exchange_unchecked_witness :
  let r := WidgetActions.exchangePlaidPublicToken (Scenario.env "item_z") Scenario.service
             "user_9" "public-1"
             {| WidgetActions.id := None; WidgetActions.name := None |}
             (Scenario.db_two_users Scenario.three_items) in
  Db.select_plan "user_9" (Scenario.db_two_users Scenario.three_items) = [] ∧
  head (events r) = Some (EvItemPublicTokenExchange "public-1") ∧
  outcome r = Ok WidgetActions.ExchangeSuccess ∧
  Db.plaid_items (store r) =
    Scenario.three_items ++
    [ItemStore.new_item Scenario.encrypt "user_9" "item_z" "tok_abc" None None].
Proof.
  intros r.
  destruct (proj1 (proj2 (widget_exchange_unchecked (Scenario.env "item_z") Scenario.service
                            "user_9" "public-1"
                            {| WidgetActions.id := None; WidgetActions.name := None |}
                            (Scenario.db_two_users Scenario.three_items))) eq_refl)
    as [Hhead Hsave].
  destruct (Hsave (Scenario.exchange_response "item_z") eq_refl) as (_ & Hstore & Hout).
  fold r in Hhead, Hstore, Hout.
  split_and!; [reflexivity|exact Hhead|exact Hout|by rewrite Hstore].
Defined.

(** *** The store after an action *)

Section StoreAfter.
Variables (E : Env) (US : UserService).

(** The store changes only through the methods of [UserService]. *)
Lemma createPlaidLinkToken_store mcpToken d :
  let r := ConnectBank.createPlaidLinkToken E US mcpToken d in
  store r = d ∨ ∃ u, store r = (getUserPlaidItems US u true d).2.
Proof.
  intros r. subst r. unfold_action.
  destruct (env_headers E) as [h|e]; simpl; [|by left].
  destruct (ConnectBank.authHeaders E h mcpToken) as [authorization|e]; simpl; [|by left].
  destruct (env_getMcpSession E _) as [s|e]; simpl; [|by left].
  destruct (truthy_opt (ConnectBank.session_userId s)); simpl; [|by left].
  destruct (env_hasActiveSubscription E _) as [[|]|e]; simpl; [|(by left)..].
  right. exists (default "" (ConnectBank.session_userId s)).
  destruct (getUserPlaidItems US _ true d) as [[items|e] d1]; simpl; [|done].
  destruct (env_pool_connect E) as [[]|e]; simpl; [|done].
  destruct (env_query_error E) as [e|]; simpl; [done|].
  destruct (ConnectBank.limit_reached _ _); simpl; [done|].
  by destruct (env_linkTokenCreate E _).
Qed.

Lemma exchangePlaidPublicToken_store publicToken metadata mcpToken d :
  let r := ConnectBank.exchangePlaidPublicToken E US publicToken metadata mcpToken d in
  store r = d ∨
  ∃ u i a iid iname, store r = (savePlaidItem US u i a iid iname d).2.
Proof.
  intros r. subst r.
  pose proof (send_email_notification_contained E) as Hmail.
  unfold ConnectBank.exchangePlaidPublicToken, PlaidService.exchangePublicToken,
    ConnectBank.headers, ConnectBank.getMcpSession, ConnectBank.hasActiveSubscription,
    console_error, try_catch, bind, ret, throw, settle, call, call_db, store.
  destruct (env_headers E) as [h|e]; simpl; [|by left].
  destruct (ConnectBank.authHeaders E h mcpToken) as [authorization|e]; simpl; [|by left].
  destruct (env_getMcpSession E _) as [s|e]; simpl; [|by left].
  destruct (truthy_opt (ConnectBank.session_userId s)); simpl; [|by left].
  destruct (env_hasActiveSubscription E _) as [[|]|e]; simpl; [|(by left)..].
  destruct (truthy publicToken); simpl; [|by left].
  destruct (env_itemPublicTokenExchange E publicToken) as [response|e]; simpl; [|by left].
  right.
  match goal with
  | |- context [savePlaidItem US ?u ?i ?a ?iid ?iname d] => exists u, i, a, iid, iname
  end.
  destruct (savePlaidItem US _ _ _ _ _ d) as [[[]|e] d1]; simpl; [|done].
  match goal with
  | |- context [ConnectBank.send_email_notification E ?u ?n d1] =>
      destruct (Hmail u n d1) as [Hout Hstore];
      destruct (ConnectBank.send_email_notification E u n d1) as [[o d2] evs]
  end.
  unfold outcome, store in *; simpl in *; by subst.
Qed.

Lemma widget_createPlaidLinkToken_store uid d :
  store (WidgetActions.createPlaidLinkToken E uid d) = d.
Proof.
  unfold_action. destruct (truthy uid); simpl; [|done].
  by destruct (env_linkTokenCreate E _).
Qed.

Lemma widget_exchangePlaidPublicToken_store uid publicToken institution d :
  let r := WidgetActions.exchangePlaidPublicToken E US uid publicToken institution d in
  store r = d ∨
  ∃ i a, store r = (savePlaidItem US uid i a (WidgetActions.id institution)
                      (WidgetActions.name institution) d).2.
Proof.
  intros r. subst r. unfold_action. destruct (truthy uid); simpl; [|by left].
  destruct (env_itemPublicTokenExchange E publicToken) as [response|e]; simpl; [|by left].
  right. exists (resp_item_id response), (resp_access_token response).
  by destruct (savePlaidItem US uid _ _ _ _ d) as [[[]|e] d1].
Qed.

End StoreAfter.

(** *** Uniqueness of [(user_id, item_id)] *)

Lemma filter_key_absent (u i : string) (rows : list Db.PlaidItem) :
  existsb (Db.same_key u i) rows = false →
  filter (fun r => Db.user_id r = u ∧ Db.item_id r = i) rows = [].
Proof.
  induction rows as [|r rows IH]; simpl; [done|].
  intros [Hr Hrows]%orb_false_elim.
  rewrite filter_cons_False; [by apply IH|].
  intros [Hu Hi]. unfold Db.same_key in Hr.
  by rewrite !bool_decide_eq_true_2 in Hr.
Qed.

Lemma insert_plaid_item_unique (users : list Db.User) (r : Db.PlaidItem)
    (rows : list Db.PlaidItem) :
  unique rows → unique (Db.insert_plaid_item users r rows).2.
Proof.
  intros Huniq. unfold Db.insert_plaid_item.
  destruct (existsb _ rows) eqn:Hex; simpl; [done|].
  destruct (Db.references_user users r); simpl; [|done].
  intros u i. rewrite filter_app, length_app.
  destruct (decide (Db.user_id r = u ∧ Db.item_id r = i)) as [[<- <-]|Hne].
  - rewrite (filter_key_absent _ _ _ Hex); simpl.
    rewrite filter_cons_True; [|done]. by rewrite filter_nil.
  - rewrite (filter_cons_False _ r []); [|done]. rewrite filter_nil; simpl.
    specialize (Huniq u i). lia.
Qed.

Lemma savePlaidItem_unique (encrypt : string → string) (u i a : string)
    (iid iname : option string) (d : Db.t) :
  unique (Db.plaid_items d) →
  unique (Db.plaid_items (ItemStore.savePlaidItem encrypt u i a iid iname d).2).
Proof.
  intros Huniq. unfold ItemStore.savePlaidItem.
  pose proof (insert_plaid_item_unique (Db.user d)
                (ItemStore.new_item encrypt u i a iid iname)
                (Db.plaid_items d) Huniq) as Hins.
  by destruct (Db.insert_plaid_item _ _ _) as [o rows].
Qed.

(** C1 — For all users U and external item ids I, at most one row of
    [plaid_items] has (user_id = U, item_id = I): the empty table has the
    property, the insertion under the constraint keeps it, and so does every
    action that writes to the table; in particular persisting a successful
    exchange of a public token. *)
Theorem items_stay_unique (encrypt : string → string) (E : Env) (d : Db.t) :
  unique (Db.plaid_items d) →
  let US := ItemStore.service encrypt in
  unique [] ∧
  (∀ users r, unique (Db.insert_plaid_item users r (Db.plaid_items d)).2) ∧
  (∀ u i a iid iname,
     unique (Db.plaid_items (savePlaidItem US u i a iid iname d).2)) ∧
  (∀ publicToken metadata mcpToken,
     unique (Db.plaid_items
               (store (ConnectBank.exchangePlaidPublicToken E US publicToken metadata
                         mcpToken d)))) ∧
  (∀ uid publicToken institution,
     unique (Db.plaid_items
               (store (WidgetActions.exchangePlaidPublicToken E US uid publicToken
                         institution d)))) ∧
  (∀ mcpToken,
     unique (Db.plaid_items (store (ConnectBank.createPlaidLinkToken E US mcpToken d)))) ∧
  (∀ uid,
     unique (Db.plaid_items (store (WidgetActions.createPlaidLinkToken E uid d)))).
Proof.
  intros Huniq US. split_and!.
  - intros u i. rewrite filter_nil. simpl. lia.
  - intros users r. by apply insert_plaid_item_unique.
  - intros. by apply savePlaidItem_unique.
  - intros publicToken metadata mcpToken.
    destruct (exchangePlaidPublicToken_store E US publicToken metadata mcpToken d)
      as [->|(u & i & a & iid & iname & ->)]; [done|].
    by apply savePlaidItem_unique.
  - intros uid publicToken institution.
    destruct (widget_exchangePlaidPublicToken_store E US uid publicToken institution d)
      as [->|(i & a & ->)]; [done|].
    by apply savePlaidItem_unique.
  - intros mcpToken.
    by destruct (createPlaidLinkToken_store E US mcpToken d) as [->|[u ->]].
  - intros uid. by rewrite widget_createPlaidLinkToken_store.
Qed.

Lemma unique_of_NoDup (rows : list Db.PlaidItem) :
  NoDup (Db.key <$> rows) → unique rows.
Proof.
  induction rows as [|r rows IH]; intros Hnd u i.
  { rewrite filter_nil. simpl. lia. }
  rewrite fmap_cons in Hnd. apply NoDup_cons in Hnd as [Hnotin Hnd].
  rewrite filter_cons. case_decide as Hk; [|by apply IH].
  destruct Hk as [<- <-]. rewrite filter_key_absent; [simpl; lia|].
  apply not_true_is_false. intros (r' & Hin & Hsame)%existsb_exists.
  apply Hnotin, list_elem_of_fmap. exists r'. split; [|by apply list_elem_of_In].
  unfold Db.same_key in Hsame. apply andb_prop in Hsame as [Hu Hi].
  apply bool_decide_eq_true_1 in Hu, Hi. unfold Db.key. by rewrite Hu, Hi.
Qed.

Lemma scenario_three_items_unique :
  unique (Db.plaid_items (Scenario.db Scenario.three_items)).
Proof. apply unique_of_NoDup. apply (bool_decide_unpack _). by vm_compute. Defined.

Lemma items_stay_unique_witness :
  unique (Db.plaid_items
            (store (ConnectBank.exchangePlaidPublicToken (Scenario.env "item_a")
                      Scenario.service "public-1" (Some Scenario.first_bank) None
                      (Scenario.db Scenario.three_items)))) ∧
  unique (Db.plaid_items
            (store (ConnectBank.exchangePlaidPublicToken (Scenario.env "item_d")
                      Scenario.service "public-1" (Some Scenario.first_bank) None
                      (Scenario.db Scenario.three_items)))).
Proof.
  split.
  - apply (items_stay_unique Scenario.encrypt (Scenario.env "item_a")
             (Scenario.db Scenario.three_items) scenario_three_items_unique).
  - apply (items_stay_unique Scenario.encrypt (Scenario.env "item_d")
             (Scenario.db Scenario.three_items) scenario_three_items_unique).
Defined.

(** *** The session cache *)

Section SessionCache.
Import SessionService.
Implicit Types (sessions : gmap string UserSession) (s : string).

(** The sweep only deletes. *)
Lemma sweep_lookup_None now maxAge entries sessions n s :
  sessions !! s = None → (sweep now maxAge entries sessions n).2 !! s = None.
Proof.
  revert sessions n. induction entries as [|[k v] entries IH]; intros sessions n Hs;
    simpl; [done|].
  destruct (expired now maxAge v); apply IH; [|done].
  destruct (decide (k = s)) as [->|Hne].
  - apply lookup_delete_eq.
  - by rewrite lookup_delete_ne.
Qed.

(** An entry that is not expired wherever it is listed survives the sweep. *)
Lemma sweep_lookup_fresh now maxAge entries sessions n s :
  (∀ v, (s, v) ∈ entries → expired now maxAge v = false) →
  (sweep now maxAge entries sessions n).2 !! s = sessions !! s.
Proof.
  revert sessions n. induction entries as [|[k v] entries IH]; intros sessions n Hfresh;
    simpl; [done|].
  assert (Hrest : ∀ v', (s, v') ∈ entries → expired now maxAge v' = false).
  { intros v' Hin. apply Hfresh. by apply list_elem_of_further. }
  destruct (expired now maxAge v) eqn:Hv; rewrite IH by done; [|done].
  destruct (decide (k = s)) as [->|Hne]; [|by rewrite lookup_delete_ne].
  rewrite Hfresh in Hv; [done|apply list_elem_of_here].
Qed.

(** A listed entry that is expired is gone after the sweep. *)
Lemma sweep_lookup_expired now maxAge entries sessions n s v :
  (s, v) ∈ entries → expired now maxAge v = true →
  (sweep now maxAge entries sessions n).2 !! s = None.
Proof.
  revert sessions n. induction entries as [|[k w] entries IH]; intros sessions n Hin Hv;
    [by apply elem_of_nil in Hin|].
  apply elem_of_cons in Hin as [[= <- <-]|Hin]; simpl.
  - rewrite Hv. apply sweep_lookup_None, lookup_delete_eq.
  - destruct (expired now maxAge w); by apply IH.
Qed.

Lemma cleanupOldSessions_lookup now maxAgeInDays sessions s :
  (cleanupOldSessions now maxAgeInDays sessions).2 !! s =
    match sessions !! s with
    | Some v =>
        if expired now (default 30 maxAgeInDays * 24 * 60 * 60 * 1000)%Z v
        then None else Some v
    | None => None
    end.
Proof.
  unfold cleanupOldSessions.
  destruct (sessions !! s) as [v|] eqn:Hs.
  - destruct (expired now _ v) eqn:Hv.
    + apply (sweep_lookup_expired _ _ _ _ _ _ v); [|done].
      by apply elem_of_map_to_list.
    + rewrite sweep_lookup_fresh; [done|].
      intros v' Hin%elem_of_map_to_list. congruence.
  - by apply sweep_lookup_None.
Qed.

(** A call that does not remove [s] keeps its entry and its token. *)
Lemma step_keeps_token c sessions s v :
  sessions !! s = Some v → removes s c sessions = false →
  ∃ v', step c sessions !! s = Some v' ∧ accessToken v' = accessToken v.
Proof.
  intros Hs Hkeep. destruct c as [g n1 n2 t i|now s'|s'|s'|s'|now days]; simpl in *.
  - apply bool_decide_eq_false_1 in Hkeep. exists v. by rewrite lookup_insert_ne.
  - unfold getAccessToken. destruct (decide (s' = s)) as [->|Hne].
    + rewrite Hs; simpl. exists (touch now v). by rewrite lookup_insert_eq.
    + exists v. destruct (sessions !! s'); simpl; [|done]. by rewrite lookup_insert_ne.
  - by exists v.
  - apply bool_decide_eq_false_1 in Hkeep. exists v. by rewrite lookup_delete_ne.
  - by exists v.
  - rewrite Hs in Hkeep. exists v. by rewrite cleanupOldSessions_lookup, Hs, Hkeep.
Qed.

Lemma run_keeps_token cs sessions s v :
  sessions !! s = Some v → kept s cs sessions = true →
  ∃ v', run cs sessions !! s = Some v' ∧ accessToken v' = accessToken v.
Proof.
  revert sessions v. induction cs as [|c cs IH]; intros sessions v Hs Hkept; simpl in *.
  { by exists v. }
  apply andb_prop in Hkept as [Hc Hcs]. apply negb_true_iff in Hc.
  destruct (step_keeps_token c sessions s v Hs Hc) as (v1 & Hs1 & Ht1).
  destruct (IH _ _ Hs1 Hcs) as (v2 & Hs2 & Ht2).
  exists v2. split; [done|congruence].
Qed.

(** C10 — The session cache is a faithful key-value store: if
    [s = createSession(t, i)], then as long as no later call removes the
    session, [getAccessToken(s)] returns [t] and [isValidSession(s)] is
    true; after [deleteSession(s)], or after a cleanup sweep that evicts
    [s], [getAccessToken(s)] returns null and [isValidSession(s)] is
    false. *)
Theorem session_cache_faithful sessions generated now1 now2 t i cs :
  let s := (createSession generated now1 now2 t i sessions).1 in
  let created := (createSession generated now1 now2 t i sessions).2 in
  kept s cs created = true →
  let later := run cs created in
  (∀ now, (getAccessToken now s later).1 = Some t) ∧
  isValidSession s later = true ∧
  (∀ now,
     let deleted := (deleteSession s later).2 in
     (deleteSession s later).1 = true ∧
     (getAccessToken now s deleted).1 = None ∧ isValidSession s deleted = false) ∧
  (∀ at_ maxAgeInDays now,
     removes s (CleanupOldSessions at_ maxAgeInDays) later = true →
     let swept := (cleanupOldSessions at_ maxAgeInDays later).2 in
     (getAccessToken now s swept).1 = None ∧ isValidSession s swept = false).
Proof.
  intros s created Hkept later.
  assert (Hnew : ∃ v, created !! s = Some v ∧ accessToken v = t).
  { eexists. subst s created. simpl. by rewrite lookup_insert_eq. }
  destruct Hnew as (v & Hv & Ht).
  destruct (run_keeps_token cs created s v Hv Hkept) as (v' & Hv' & Ht').
  fold later in Hv'.
  assert (Hgone : ∀ m : gmap string UserSession, m !! s = None →
            ∀ now, (getAccessToken now s m).1 = None ∧ isValidSession s m = false).
  { intros m Hm now. unfold getAccessToken, isValidSession. rewrite Hm. split; [done|].
    apply bool_decide_eq_false_2. by intros [? ?]. }
  split_and!.
  - intros now. unfold getAccessToken. rewrite Hv'. simpl. congruence.
  - unfold isValidSession. apply bool_decide_eq_true_2. by exists v'.
  - intros now deleted. split.
    + simpl. apply bool_decide_eq_true_2. by exists v'.
    + apply Hgone. subst deleted. simpl. apply lookup_delete_eq.
  - intros at_ maxAgeInDays now Hrem swept. apply Hgone. subst swept.
    simpl in Hrem. rewrite Hv' in Hrem.
    by rewrite cleanupOldSessions_lookup, Hv', Hrem.
Qed.

End SessionCache.

Lemma session_cache_faithful_witness :
  let sessions : gmap string SessionService.UserSession := ∅ in
  let created := (SessionService.createSession "ab12" 1000 1001 "access-1" "item_1" sessions).2 in
  let later :=
    SessionService.run
      [SessionService.CreateSession "cd34" 2000 2000 "access-2" "item_2";
       SessionService.GetAccessToken 3000 "ab12";
       SessionService.DeleteSession "cd34";
       SessionService.CleanupOldSessions 5000 None] created in
  (SessionService.getAccessToken 6000 "ab12" later).1 = Some "access-1" ∧
  SessionService.isValidSession "ab12" later = true ∧
  SessionService.isValidSession "ab12" (SessionService.deleteSession "ab12" later).2 = false ∧
  SessionService.isValidSession "ab12"
    (SessionService.cleanupOldSessions 2592003001 None later).2 = false.
Proof.
  intros sessions created later.
  destruct (session_cache_faithful sessions "ab12" 1000 1001 "access-1" "item_1"
              [SessionService.CreateSession "cd34" 2000 2000 "access-2" "item_2";
               SessionService.GetAccessToken 3000 "ab12";
               SessionService.DeleteSession "cd34";
               SessionService.CleanupOldSessions 5000 None])
    as (Hget & Hvalid & Hdel & Hsweep).
  { by vm_compute. }
  split_and!.
  - apply Hget.
  - exact Hvalid.
  - apply (Hdel 0%Z).
  - apply (Hsweep 2592003001%Z None 0%Z). by vm_compute.
Defined.

(** * Further properties *)

(** *** More on the session cache *)

Section SessionExtras.
Import SessionService SessionSweep.
Implicit Types (sessions : gmap string UserSession) (s : string).

(** The count of the sweep: one more for every expired entry listed. *)
Lemma sweep_count now maxAge entries sessions n :
  (sweep now maxAge entries sessions n).1 =
    n + length (filter (fun kv => expired now maxAge kv.2 = true) entries).
Proof.
  revert sessions n. induction entries as [|[k v] entries IH]; intros sessions n; simpl.
  { lia. }
  rewrite filter_cons; simpl.
  destruct (expired now maxAge v) eqn:Hv; rewrite IH.
  - rewrite decide_True by done. simpl. lia.
  - rewrite decide_False by done. simpl. lia.
Qed.

Lemma length_filter_map_to_list (P : string * UserSession → Prop)
    `{!∀ kv, Decision (P kv)} sessions :
  length (filter P (map_to_list sessions)) = size (filter P sessions).
Proof.
  induction sessions as [|k v m Hk IH] using map_ind.
  { by rewrite map_to_list_empty, map_filter_empty, map_size_empty. }
  rewrite (map_to_list_insert m k v Hk), filter_cons.
  destruct (decide (P (k, v))) as [HP|HP].
  - rewrite map_filter_insert_True by done.
    rewrite map_size_insert_None; [simpl; by rewrite IH|].
    by rewrite map_lookup_filter, Hk.
  - by rewrite map_filter_insert_not' by (done || by rewrite Hk).
Qed.

Lemma cleanupOldSessions_filter now maxAgeInDays sessions :
  (cleanupOldSessions now maxAgeInDays sessions).2 =
    filter (fun kv => ¬ stale now maxAgeInDays kv) sessions.
Proof.
  apply map_eq. intros s. rewrite cleanupOldSessions_lookup, map_lookup_filter.
  destruct (sessions !! s) as [v|]; simpl; [|done].
  destruct (decide (stale now maxAgeInDays (s, v))) as [Hst|Hst].
  - rewrite option_guard_False by (by intros H).
    unfold stale, maxAge in Hst; simpl in Hst. by rewrite Hst.
  - rewrite option_guard_True by done.
    unfold stale, maxAge in Hst; simpl in Hst.
    apply not_true_is_false in Hst. by rewrite Hst.
Qed.

Lemma cleanupOldSessions_count now maxAgeInDays sessions :
  (cleanupOldSessions now maxAgeInDays sessions).1 =
    size (filter (stale now maxAgeInDays) sessions).
Proof.
  unfold cleanupOldSessions. rewrite sweep_count. simpl.
  apply (length_filter_map_to_list (stale now maxAgeInDays)).
Qed.

(** The test of the sweep, spelled out: the last access lies more than the
    maximum age, in milliseconds, before the time of the sweep. *)
Lemma expired_spec now maxAgeInDays (v : UserSession) :
  expired now (maxAge maxAgeInDays) v = true ↔
  (default 30 maxAgeInDays * 86400000 < now - lastAccessedAt v)%Z.
Proof. unfold expired, maxAge. rewrite bool_decide_eq_true. lia. Qed.

(** X1 — [cleanupOldSessions] removes exactly the sessions whose last access
    lies more than the maximum age before the time of the sweep (the given
    number of days, 30 by default, of 86400000 milliseconds each), leaves
    every other session as it was, and returns the number of sessions it
    removed; a second sweep at the same time removes nothing. *)
Theorem cleanup_removes_exactly_expired now maxAgeInDays sessions :
  let r := cleanupOldSessions now maxAgeInDays sessions in
  (∀ s v, r.2 !! s = Some v ↔
          sessions !! s = Some v ∧
          (now - lastAccessedAt v ≤ default 30 maxAgeInDays * 86400000)%Z) ∧
  r.1 = size (filter (fun kv : string * UserSession =>
                        (default 30 maxAgeInDays * 86400000 <
                         now - lastAccessedAt kv.2)%Z) sessions) ∧
  size r.2 + r.1 = size sessions ∧
  cleanupOldSessions now maxAgeInDays r.2 = (0, r.2).
Proof.
  intros r. subst r.
  rewrite cleanupOldSessions_filter, cleanupOldSessions_count.
  split_and!.
  - intros s v. rewrite map_lookup_filter_Some. unfold stale. simpl.
    rewrite expired_spec, Z.nlt_ge. tauto.
  - f_equal. apply map_filter_ext. intros s v _. unfold stale. simpl.
    apply expired_spec.
  - rewrite <- (map_filter_union_complement (stale now maxAgeInDays) sessions) at 3.
    rewrite map_size_disj_union by apply map_disjoint_filter_complement. lia.
  - apply injective_projections.
    + rewrite cleanupOldSessions_count. simpl. apply map_size_empty_iff.
      rewrite map_filter_filter. apply map_empty_filter.
      by intros k v Hkv [? ?].
    + rewrite cleanupOldSessions_filter. simpl.
      rewrite map_filter_filter. apply map_filter_ext. intros k v _. tauto.
Qed.

Lemma cleanup_removes_exactly_expired_witness :
  let idle := {| sessionId := "ab12"; accessToken := "access-1"; itemId := "item_1";
                 createdAt := 1000; lastAccessedAt := 1000 |} in
  let fresh := {| sessionId := "cd34"; accessToken := "access-2"; itemId := "item_2";
                  createdAt := 1000; lastAccessedAt := 1001 |} in
  let sessions : gmap string UserSession := {[ "ab12" := idle; "cd34" := fresh ]} in
  let r := cleanupOldSessions 2592001001 None sessions in
  r.2 !! "cd34" = Some fresh ∧ r.2 !! "ab12" = None.
Proof.
  intros idle fresh sessions r.
  destruct (cleanup_removes_exactly_expired 2592001001 None sessions) as (Hkept & _).
  fold r in Hkept. split.
  - apply Hkept. split; [reflexivity|]. simpl. lia.
  - destruct (r.2 !! "ab12") as [v|] eqn:Hv; [|done].
    apply Hkept in Hv as [Hv Hage].
    assert (Some idle = Some v) as [= <-] by (rewrite <- Hv; reflexivity).
    vm_compute in Hage. by destruct Hage.
Defined.

(** X2 — [getAccessToken] refreshes the time of last access: after a read at
    time [now], a sweep at time [later] removes the session exactly when
    [later - now] exceeds the maximum age, whatever the earlier time of
    access was; a session that is not read keeps its old time of access. *)
Theorem access_refreshes_session now later maxAgeInDays sessions s v :
  sessions !! s = Some v →
  let read := (getAccessToken now s sessions).2 in
  (isValidSession s (cleanupOldSessions later maxAgeInDays read).2 =
     bool_decide (later - now ≤ maxAge maxAgeInDays)%Z) ∧
  (isValidSession s (cleanupOldSessions later maxAgeInDays sessions).2 =
     bool_decide (later - lastAccessedAt v ≤ maxAge maxAgeInDays)%Z) ∧
  getSessionInfo s read =
    Some (sessionId v, itemId v, createdAt v, now).
Proof.
  intros Hs read. subst read. unfold getAccessToken, isValidSession, getSessionInfo.
  rewrite Hs; simpl. rewrite !cleanupOldSessions_lookup, Hs, !lookup_insert_eq.
  unfold expired, maxAge; simpl.
  assert (Hguard : ∀ (b : bool) (w : UserSession),
            bool_decide (is_Some (if b then None else Some w)) = negb b).
  { by intros [] w. }
  rewrite !Hguard. split_and!; [| |done].
  - repeat case_bool_decide; simpl; try done; lia.
  - repeat case_bool_decide; simpl; try done; lia.
Qed.

Lemma access_refreshes_session_witness :
  let sessions : gmap string UserSession :=
    (createSession "ab12" 1000 1000 "access-1" "item_1" ∅).2 in
  isValidSession "ab12"
    (cleanupOldSessions 2592001001 None
       (getAccessToken 5000 "ab12" sessions).2).2 = true ∧
  isValidSession "ab12" (cleanupOldSessions 2592001001 None sessions).2 = false.
Proof.
  intros sessions.
  destruct (access_refreshes_session 5000 2592001001 None sessions "ab12"
              {| sessionId := "ab12"; accessToken := "access-1"; itemId := "item_1";
                 createdAt := 1000; lastAccessedAt := 1000 |} eq_refl)
    as (Hread & Hidle & _).
  split; [by rewrite Hread|by rewrite Hidle].
Defined.

(** X3 — [deleteSession] answers whether the session existed; afterwards the
    session is gone, a second [deleteSession] answers false, and the number
    of sessions has dropped by one exactly when it answered true. *)
Theorem deleteSession_reports_presence sessions s :
  let r := deleteSession s sessions in
  r.1 = isValidSession s sessions ∧
  r.2 !! s = None ∧
  (deleteSession s r.2).1 = false ∧
  size sessions = size r.2 + (if r.1 then 1 else 0).
Proof.
  intros r. subst r. unfold deleteSession, isValidSession; simpl.
  rewrite lookup_delete_eq. split_and!; try done.
  rewrite map_size_delete.
  destruct (sessions !! s) as [v|] eqn:Hs; simpl; [|lia].
  assert (size sessions ≠ 0); [|lia].
  intros Hz%map_size_empty_iff. by rewrite Hz, lookup_empty in Hs.
Qed.

(** X4 — Every call other than the sweep touches one session only: a call
    about session [s] leaves the entry of every other session as it was. *)
Theorem calls_leave_other_sessions c sessions s other :
  about c = Some s → other ≠ s →
  step c sessions !! other = sessions !! other.
Proof.
  intros Hc Hne. destruct c as [g n1 n2 t i|now s'|s'|s'|s'|now days];
    simpl in *; simplify_eq; try done.
  - by rewrite lookup_insert_ne.
  - unfold getAccessToken. destruct (sessions !! s); simpl; [|done].
    by rewrite lookup_insert_ne.
  - by rewrite lookup_delete_ne.
Qed.

Lemma calls_leave_other_sessions_witness :
  let sessions : gmap string UserSession :=
    (createSession "ab12" 1000 1000 "access-1" "item_1" ∅).2 in
  step (DeleteSession "cd34") sessions !! "ab12" = sessions !! "ab12".
Proof.
  intros sessions.
  apply (calls_leave_other_sessions (DeleteSession "cd34") sessions "cd34" "ab12" eq_refl).
  by vm_compute.
Defined.

(** X5 — [createSession] stores the session under the generated identifier:
    the info read back holds the item and the two readings of the clock.
    With an identifier that is not in use the cache grows by one session;
    with one that is in use the earlier session is replaced and the size
    stays. *)
Theorem createSession_stores generated now1 now2 t i sessions :
  let r := createSession generated now1 now2 t i sessions in
  r.1 = generated ∧
  getSessionInfo r.1 r.2 = Some (generated, i, now1, now2) ∧
  (getAccessToken now2 r.1 r.2).1 = Some t ∧
  size r.2 = (if isValidSession generated sessions then size sessions
              else S (size sessions)).
Proof.
  intros r. subst r. unfold createSession, getSessionInfo, getAccessToken, isValidSession.
  simpl. rewrite lookup_insert_eq. split_and!; try done.
  rewrite map_size_insert.
  by destruct (sessions !! generated) as [v|] eqn:Hs.
Qed.

End SessionExtras.

(** *** More on the server actions *)

Section ConnectExtras.
Import Observe.

(** Case analysis on every answer that a run consults. *)
Ltac crunch := repeat (simpl in *; case_match; simplify_eq); simpl in *.

(** X6 — The four server actions never throw: every failure, of a check, of
    a collaborator or of the store, comes back as a result. *)
Theorem actions_never_throw (E : Env) (US : UserService) (d : Db.t) :
  (∀ mcpToken, ∃ r, outcome (ConnectBank.createPlaidLinkToken E US mcpToken d) = Ok r) ∧
  (∀ publicToken metadata mcpToken,
     ∃ r, outcome (ConnectBank.exchangePlaidPublicToken E US publicToken metadata
                     mcpToken d) = Ok r) ∧
  (∀ uid, ∃ r, outcome (WidgetActions.createPlaidLinkToken E uid d) = Ok r) ∧
  (∀ uid publicToken institution,
     ∃ r, outcome (WidgetActions.exchangePlaidPublicToken E US uid publicToken
                     institution d) = Ok r).
Proof.
  split_and!; intros; unfold_action; crunch; by eexists.
Qed.

Section HeaderValues.
(** The characters that [Headers.prototype.set] strips from the ends of a
    value, and those that a stored value may hold. *)
Let whitespace (c : ascii) : Prop :=
  c = "009"%char ∨ c = "010"%char ∨ c = "013"%char ∨ c = " "%char.
Let clean (c : ascii) : Prop :=
  c ≠ "000"%char ∧ c ≠ "010"%char ∧ c ≠ "013"%char ∧ (N_of_ascii c < 196)%N.

Lemma http_whitespace_spec c : http_whitespace c = true ↔ whitespace c.
Proof.
  unfold http_whitespace, whitespace. rewrite bool_decide_eq_true.
  rewrite !elem_of_cons, elem_of_nil. tauto.
Qed.

Lemma chars_app (a b : string) :
  String.list_ascii_of_string (a +:+ b) =
    String.list_ascii_of_string a ++ String.list_ascii_of_string b.
Proof. induction a as [|c a IH]; simpl; [done|]. by rewrite <- IH. Qed.

Lemma drop_whitespace_app (ws l : list ascii) :
  Forall whitespace ws → drop_whitespace (ws ++ l) = drop_whitespace l.
Proof.
  induction 1 as [|c ws Hc _ IH]; [done|].
  cbn [app drop_whitespace].
  rewrite (proj2 (http_whitespace_spec c) Hc). exact IH.
Qed.

Lemma drop_whitespace_head (l : list ascii) :
  (∀ c, head l = Some c → ¬ whitespace c) → drop_whitespace l = l.
Proof.
  destruct l as [|c l]; [done|]. cbn [drop_whitespace head]. intros Hc.
  destruct (http_whitespace c) eqn:Hw; [|done].
  destruct (Hc c eq_refl). by apply http_whitespace_spec.
Qed.

Lemma clean_spec (l : list ascii) :
  Forall clean l ↔ existsb above_latin1 l = false ∧ existsb forbidden_byte l = false.
Proof.
  induction l as [|c l IH]; simpl; [by split; [|constructor]|].
  rewrite Forall_cons, IH, !orb_false_iff.
  unfold clean, above_latin1, forbidden_byte.
  rewrite !bool_decide_eq_false, !elem_of_cons, elem_of_nil.
  split.
  - intros [(H0 & H1 & H2 & H3) [Ha Hf]]. split_and!; try done; [lia|tauto].
  - intros [[H Ha] [H' Hf]]. split_and!; try done; try tauto. lia.
Qed.

Lemma header_value_spec (s value trailing : string) :
  s = value +:+ trailing →
  Forall whitespace (String.list_ascii_of_string trailing) →
  (∀ c, last (String.list_ascii_of_string value) = Some c → ¬ whitespace c) →
  (∀ c, head (String.list_ascii_of_string s) = Some c → ¬ whitespace c) →
  (Forall clean (String.list_ascii_of_string value) → header_value s = Some value) ∧
  (¬ Forall clean (String.list_ascii_of_string value) → header_value s = None).
Proof.
  intros -> Hws Hlast Hhead.
  assert (Hnorm : normalize (value +:+ trailing) = value).
  { unfold normalize.
    rewrite (drop_whitespace_head (String.list_ascii_of_string (value +:+ trailing)) Hhead).
    rewrite chars_app, reverse_app.
    rewrite drop_whitespace_app by by apply Forall_reverse.
    rewrite drop_whitespace_head.
    - by rewrite reverse_involutive, String.string_of_list_ascii_of_string.
    - intros c. rewrite head_reverse. apply Hlast. }
  assert (Htrail : existsb above_latin1 (String.list_ascii_of_string trailing) = false).
  { induction Hws as [|c ws Hc _ IH]; simpl; [done|]. rewrite IH, orb_false_r.
    unfold above_latin1. apply bool_decide_eq_false_2.
    destruct Hc as [-> | [-> | [-> | ->]]]; intros H; vm_compute in H;
      destruct (H eq_refl). }
  unfold header_value. rewrite Hnorm, chars_app, existsb_app, Htrail, orb_false_r.
  rewrite clean_spec.
  destruct (existsb above_latin1 (String.list_ascii_of_string value)) eqn:Ha;
    destruct (existsb forbidden_byte (String.list_ascii_of_string value)) eqn:Hf;
    simpl; split; try done; try (by intros []); intros H; by destruct H.
Qed.
End HeaderValues.

(** X7 — A non-empty [mcpToken] replaces the credential of the request:
    the [Authorization] header of the request has no influence on the run.
    The authority is asked with what [Headers.prototype.set] stores for
    [Bearer <mcpToken>]: the value without its trailing tabs, line feeds,
    carriage returns and spaces, so for a token without such characters
    [Bearer <mcpToken>] itself.  When what is left holds a NUL, a line feed,
    a carriage return or a character above U+00FF, [set] throws: the
    authority is not asked and the action returns the message of that
    error.  Without a token (or with the empty one) the header of the
    request is what the authority sees. *)
Theorem mcp_token_overrides_header (E : Env) (US : UserService) (d : Db.t)
    (h h' : option string) :
  let whitespace (c : ascii) :=
    c = "009"%char ∨ c = "010"%char ∨ c = "013"%char ∨ c = " "%char in
  let clean (c : ascii) :=
    c ≠ "000"%char ∧ c ≠ "010"%char ∧ c ≠ "013"%char ∧ (N_of_ascii c < 196)%N in
  let link h token :=
    ConnectBank.createPlaidLinkToken (with_headers E (Ok h)) US token d in
  let exchange h publicToken metadata token :=
    ConnectBank.exchangePlaidPublicToken (with_headers E (Ok h)) US publicToken metadata
      token d in
  (∀ token, truthy token = true →
     link h (Some token) = link h' (Some token) ∧
     ∀ publicToken metadata,
       exchange h publicToken metadata (Some token) =
       exchange h' publicToken metadata (Some token)) ∧
  (∀ token value trailing,
     truthy token = true →
     "Bearer " +:+ token = value +:+ trailing →
     Forall whitespace (String.list_ascii_of_string trailing) →
     (∀ c, last (String.list_ascii_of_string value) = Some c → ¬ whitespace c) →
     (Forall clean (String.list_ascii_of_string value) →
        events (link h (Some token)) !! 1 = Some (EvGetMcpSession (Some value)) ∧
        ∀ publicToken metadata,
          events (exchange h publicToken metadata (Some token)) !! 1 =
            Some (EvGetMcpSession (Some value))) ∧
     (¬ Forall clean (String.list_ascii_of_string value) →
        let message := env_invalid_header_value E ("Bearer " +:+ token) in
        link h (Some token) =
          (Ok (ConnectBank.LinkFailure message), d,
           [EvHeaders;
            EvConsoleError "[Server Action] createPlaidLinkToken error:"
              (ErrorObj message)]) ∧
        ∀ publicToken metadata,
          exchange h publicToken metadata (Some token) =
            (Ok (ConnectBank.ExchangeFailure message), d,
             [EvHeaders;
              EvConsoleError "[Server Action] exchangePlaidPublicToken error:"
                (ErrorObj message)]))) ∧
  (∀ token, truthy_opt token = false →
     events (link h token) !! 1 = Some (EvGetMcpSession h) ∧
     ∀ publicToken metadata,
       events (exchange h publicToken metadata token) !! 1 = Some (EvGetMcpSession h)).
Proof.
  intros whitespace clean link exchange. subst link exchange. split_and!.
  - intros token Htok. split.
    + unfold_action; unfold ConnectBank.authHeaders; simpl. by rewrite !Htok.
    + intros. unfold ConnectBank.exchangePlaidPublicToken, ConnectBank.headers,
        ConnectBank.getMcpSession, ConnectBank.authHeaders, bind, try_catch, settle, call;
        simpl.
      by rewrite !Htok.
  - intros token value trailing Htok Hsplit Htrail Hlast.
    destruct (header_value_spec ("Bearer " +:+ token) value trailing Hsplit Htrail Hlast)
      as [Hclean Hdirty].
    { rewrite chars_app. simpl. intros c [= <-] [H|[H|[H|H]]]; discriminate. }
    split.
    + intros Hc. specialize (Hclean Hc).
      split; intros; unfold_action; unfold ConnectBank.authHeaders; simpl;
        rewrite Htok, Hclean; crunch; done.
    + intros Hc message. specialize (Hdirty Hc).
      split; intros; unfold_action; unfold ConnectBank.authHeaders; simpl;
        by rewrite Htok, Hdirty.
  - intros token Htok. split; intros; unfold_action; unfold ConnectBank.authHeaders;
      destruct token as [t|]; simpl in *; rewrite ?Htok; crunch; done.
Qed.

Lemma mcp_token_overrides_header_witness :
  let E := Scenario.env "item_1" in
  events (ConnectBank.createPlaidLinkToken (with_headers E (Ok None)) Scenario.service
            (Some "good ") (Scenario.db [])) !! 1 =
    Some (EvGetMcpSession (Some "Bearer good")) ∧
  ConnectBank.createPlaidLinkToken (with_headers E (Ok (Some "Bearer good")))
    Scenario.service (Some Scenario.broken_token) (Scenario.db []) =
    (Ok (ConnectBank.LinkFailure
           (Scenario.invalid_header_value ("Bearer " +:+ Scenario.broken_token))),
     Scenario.db [],
     [EvHeaders;
      EvConsoleError "[Server Action] createPlaidLinkToken error:"
        (ErrorObj (Scenario.invalid_header_value ("Bearer " +:+ Scenario.broken_token)))]).
Proof.
  intros E. split.
  - refine (proj1 (proj1 (proj1 (proj2
      (mcp_token_overrides_header E Scenario.service (Scenario.db []) None None))
      "good " "Bearer good" " " eq_refl eq_refl _ _) _) ).
    + constructor; [by right; right; right|constructor].
    + intros c [= <-] [H|[H|[H|H]]]; discriminate.
    + repeat (constructor; [by split_and!|]). constructor.
  - refine (proj1 (proj2 (proj1 (proj2
      (mcp_token_overrides_header E Scenario.service (Scenario.db [])
         (Some "Bearer good") None))
      Scenario.broken_token ("Bearer " +:+ Scenario.broken_token) "" eq_refl _ _ _) _)).
    + by vm_compute.
    + constructor.
    + intros c [= <-] [H|[H|[H|H]]]; discriminate.
    + intros Hclean. apply (Forall_lookup_1 _ _ 9 "010"%char) in Hclean; [|reflexivity].
      by destruct Hclean as (_ & Hlf & _).
Defined.

(** X8 — A connection taken from the pool is given back: in every run of
    the two connect-bank actions the pool is asked at most once, and the
    client is released exactly once when the pool answered, on the paths
    that return and on the paths that throw alike; it is never released when
    the pool did not answer. *)
Theorem pool_connection_released (E : Env) (US : UserService) (d : Db.t) :
  let balanced evs :=
    count is_connect evs ≤ 1 ∧
    count is_release evs = (if connects E then count is_connect evs else 0) in
  (∀ mcpToken, balanced (events (ConnectBank.createPlaidLinkToken E US mcpToken d))) ∧
  (∀ publicToken metadata mcpToken,
     balanced (events (ConnectBank.exchangePlaidPublicToken E US publicToken metadata
                         mcpToken d))).
Proof.
  intros balanced. subst balanced. unfold connects, count.
  split; intros; unfold_action; crunch; split; lia.
Qed.

(** X9 — [exchangePlaidPublicToken] with an empty public token: once the
    session and the subscription are in order the action answers
    [Missing public token], with no call to the banking API and nothing
    saved.  The check of the session comes first: when the authority is
    asked and resolves no user the caller is told to sign in, and when the
    bearer credential is refused as a header value the caller gets the
    message of that error. *)
Theorem missing_public_token (E : Env) (US : UserService)
    (metadata : option ConnectBank.PlaidMetadata) (mcpToken : option string) (d : Db.t) :
  let r := ConnectBank.exchangePlaidPublicToken E US "" metadata mcpToken d in
  (∀ uid, authenticated E mcpToken uid → subscribed E uid →
     outcome r = Ok (ConnectBank.ExchangeFailure "Missing public token")) ∧
  (unauthenticated E mcpToken →
     outcome r = Ok (ConnectBank.ExchangeFailure ConnectBank.auth_required)) ∧
  (∀ message, refused E mcpToken message →
     outcome r = Ok (ConnectBank.ExchangeFailure message) ∧
     ∀ ev h, ev ∈ events r → ev ≠ EvGetMcpSession h) ∧
  store r = d ∧
  (∀ ev, ev ∈ events r → banking_call ev = false ∧ is_save ev = false).
Proof.
  intros r. subst r. split_and!.
  - intros uid (h & authorization & [uid'] & Hh & Ha & Hs & Hu & Ht) Hsub;
      simpl in *; subst uid'.
    unfold subscribed in Hsub. unfold_action.
    rewrite Hh; simpl. rewrite Ha; simpl. rewrite Hs; simpl. rewrite Ht; simpl.
    by rewrite Hsub.
  - intros Hun.
    by destruct (exchangePlaidPublicToken_unauthenticated E US "" metadata mcpToken d Hun)
      as [h ->].
  - intros message Href.
    rewrite (exchangePlaidPublicToken_refused E US "" metadata mcpToken d message Href).
    split; [done|]. intros ev h Hin. unfold events in Hin; simpl in Hin. event_in.
  - unfold_action; crunch; done.
  - intros ev. unfold_action; crunch; intros Hin; event_in.
Qed.

Lemma missing_public_token_witness :
  outcome (ConnectBank.exchangePlaidPublicToken (Scenario.env "item_1") Scenario.service ""
             (Some Scenario.first_bank) None (Scenario.db [])) =
    Ok (ConnectBank.ExchangeFailure "Missing public token") ∧
  outcome (ConnectBank.exchangePlaidPublicToken (Scenario.env "item_1") Scenario.service ""
             (Some Scenario.first_bank) (Some Scenario.broken_token) (Scenario.db [])) =
    Ok (ConnectBank.ExchangeFailure
          (Scenario.invalid_header_value ("Bearer " +:+ Scenario.broken_token))).
Proof.
  split.
  - apply (proj1 (missing_public_token (Scenario.env "item_1") Scenario.service
                    (Some Scenario.first_bank) None (Scenario.db []))
             "user_1" (scenario_authenticated _) (scenario_subscribed _)).
  - apply (proj1 (proj2 (proj2 (missing_public_token (Scenario.env "item_1")
                    Scenario.service (Some Scenario.first_bank)
                    (Some Scenario.broken_token) (Scenario.db []))))).
    exists (Some "Bearer good"). by vm_compute.
Defined.




(** X11 — What the connect-bank actions hand to the outside is bound to the
    session: a link token is requested only for the user whom the authority
    resolved, for the fixed four products; an item is saved only for that
    user, and only the item and the access token that the banking API
    returned for the given public token. *)
Theorem calls_bound_to_session_user (E : Env) (US : UserService)
    (mcpToken : option string) (d : Db.t) :
  (∀ request,
     EvLinkTokenCreate request ∈ events (ConnectBank.createPlaidLinkToken E US mcpToken d) →
     authenticated E mcpToken (client_user_id request) ∧
     products request = ["transactions"; "auth"; "investments"; "liabilities"] ∧
     redirect_uri request = None) ∧
  (∀ publicToken metadata u i a iid iname,
     EvSavePlaidItem u i a iid iname
       ∈ events (ConnectBank.exchangePlaidPublicToken E US publicToken metadata mcpToken d) →
     authenticated E mcpToken u ∧ subscribed E u ∧
     env_itemPublicTokenExchange E publicToken =
       Ok {| resp_access_token := a; resp_item_id := i |}).
Proof.
  split.
  - intros request Hin.
    destruct (link_token_call_guarded E US mcpToken d request Hin)
      as (uid & Hauth & _ & _ & ->).
    by split_and!.
  - intros publicToken metadata u i a iid iname.
    unfold_action.
    destruct (env_headers E) as [h|e] eqn:Hh; simpl; [|intros; event_in].
    destruct (ConnectBank.authHeaders E h mcpToken) as [authorization|e] eqn:Ha; simpl;
      [|intros; event_in].
    destruct (env_getMcpSession E _) as [s|e] eqn:Hs; simpl; [|intros; event_in].
    destruct (truthy_opt (ConnectBank.session_userId s)) eqn:Ht; simpl; [|intros; event_in].
    destruct s as [[uid]|]; simpl in *; [|done].
    destruct (env_hasActiveSubscription E uid) as [[|]|e] eqn:Hsub; simpl;
      [|intros; event_in..].
    destruct (truthy publicToken); simpl; [|intros; event_in].
    destruct (env_itemPublicTokenExchange E publicToken) as [[a' i']|e] eqn:Hresp; simpl;
      [|intros; event_in].
    intros Hin.
    assert (u = uid ∧ i = i' ∧ a = a') as (-> & -> & ->).
    { revert Hin. crunch; intros Hin; event_in. }
    split_and!; try done. by exists h, authorization, {| userId := uid |}.
Qed.

Lemma calls_bound_to_session_user_witness :
  authenticated (Scenario.env "item_1") None "user_1" ∧
  subscribed (Scenario.env "item_1") "user_1".
Proof.
  destruct (proj2 (calls_bound_to_session_user (Scenario.env "item_1") Scenario.service
                     None (Scenario.db []))
              "public-1" (Some Scenario.first_bank) "user_1" "item_1" "tok_abc"
              (Some "ins_1") (Some "First Bank")) as (Hauth & Hsub & _).
  - vm_compute. do 4 apply list_elem_of_further. apply list_elem_of_here.
  - by split.
Defined.

(** X12 — The widget actions answer a failure with a fixed text: whatever
    the banking API or the store threw, the result is one of the listed
    values, and the cause is logged. *)
Theorem widget_failures_are_fixed_texts (E : Env) (US : UserService) (d : Db.t)
    (uid : string) :
  (∀ r, outcome (WidgetActions.createPlaidLinkToken E uid d) = Ok r →
     (∃ response,
        env_linkTokenCreate E (PlaidService.link_token_request E uid None) = Ok response ∧
        r = WidgetActions.LinkSuccess (link_token response)) ∨
     r = WidgetActions.LinkFailure "User ID is required" ∨
     (r = WidgetActions.LinkFailure "Failed to create Plaid link token" ∧
      ∃ e, EvConsoleError "Error creating Plaid link token:" e
             ∈ events (WidgetActions.createPlaidLinkToken E uid d))) ∧
  (∀ publicToken institution r,
     outcome (WidgetActions.exchangePlaidPublicToken E US uid publicToken institution d) =
       Ok r →
     r = WidgetActions.ExchangeSuccess ∨
     r = WidgetActions.ExchangeFailure "User ID is required" ∨
     (r = WidgetActions.ExchangeFailure "Failed to exchange Plaid public token" ∧
      ∃ e, EvConsoleError "Error exchanging Plaid public token:" e
             ∈ events (WidgetActions.exchangePlaidPublicToken E US uid publicToken
                         institution d))).
Proof.
  split.
  - intros r. unfold_action.
    destruct (truthy uid); simpl; [|intros [= <-]; by right; left].
    destruct (env_linkTokenCreate E _) as [response|e] eqn:Hresp; simpl; intros [= <-].
    + left. by exists response.
    + right; right. split; [done|]. eexists.
      do 2 apply list_elem_of_further. apply list_elem_of_here.
  - intros publicToken institution r. unfold_action.
    destruct (truthy uid); simpl; [|intros [= <-]; by right; left].
    destruct (env_itemPublicTokenExchange E _) as [response|e]; simpl.
    + destruct (savePlaidItem US uid _ _ _ _ d) as [[[]|e] d1]; simpl; intros [= <-].
      * by left.
      * right; right. split; [done|]. eexists.
        do 2 apply list_elem_of_further. apply list_elem_of_here.
    + intros [= <-]. right; right. split; [done|]. eexists.
      do 2 apply list_elem_of_further. apply list_elem_of_here.
Qed.

Lemma widget_failures_are_fixed_texts_witness :
  outcome (WidgetActions.createPlaidLinkToken Scenario.env_provider_down "user_1"
             (Scenario.db [])) =
    Ok (WidgetActions.LinkFailure "Failed to create Plaid link token").
Proof.
  destruct (proj1 (widget_failures_are_fixed_texts Scenario.env_provider_down
                     Scenario.service (Scenario.db []) "user_1")
              (WidgetActions.LinkFailure "Failed to create Plaid link token") eq_refl)
    as [(response & Hresp & _)|[Hr|[Hr _]]].
  - discriminate Hresp.
  - discriminate Hr.
  - reflexivity.
Defined.

End ConnectExtras.

(** *** The plan query *)

Section PlanQuery.
Lemma sorts_before_trans (a b c : Db.Subscription) :
  Db.sorts_before a b = true → Db.sorts_before b c = true → Db.sorts_before a c = true.
Proof.
  unfold Db.sorts_before.
  destruct (Db.period_start a), (Db.period_start b), (Db.period_start c); try done.
  rewrite !bool_decide_eq_true. lia.
Qed.

Lemma sorts_before_between (a b c : Db.Subscription) :
  Db.sorts_before a c = true →
  Db.sorts_before a b = true ∨ Db.sorts_before b c = true.
Proof.
  unfold Db.sorts_before.
  destruct (Db.period_start a), (Db.period_start b), (Db.period_start c); try done;
    try (by left); try (by right).
  rewrite !bool_decide_eq_true. lia.
Qed.

(** The row that the descending order puts first: none of the rows sorts
    strictly before it. *)
Lemma first_by_period_start_first (best : Db.Subscription) (rows : list Db.Subscription) :
  let r := Db.first_by_period_start best rows in
  r ∈ best :: rows ∧ ∀ x, x ∈ best :: rows → Db.sorts_before x r = false.
Proof.
  revert best. induction rows as [|s rows IH]; intros best; simpl.
  { split; [apply list_elem_of_here|].
    intros x ->%list_elem_of_singleton. unfold Db.sorts_before.
    destruct (Db.period_start best); [|done]. apply bool_decide_eq_false_2. lia. }
  destruct (IH (if Db.sorts_before s best then s else best)) as [Hin Hfirst].
  split.
  - apply elem_of_cons in Hin as [->|Hin].
    + destruct (Db.sorts_before s best); [|apply list_elem_of_here].
      apply list_elem_of_further, list_elem_of_here.
    + by do 2 apply list_elem_of_further.
  - intros x Hx. apply not_true_is_false. intros Hbefore.
    assert (Hbest' : Db.sorts_before (if Db.sorts_before s best then s else best)
                       (Db.first_by_period_start
                          (if Db.sorts_before s best then s else best) rows) = false).
    { apply Hfirst, list_elem_of_here. }
    apply elem_of_cons in Hx as [->|Hx]; [|apply elem_of_cons in Hx as [->|Hx]].
    + destruct (Db.sorts_before s best) eqn:Hsb; [|congruence].
      destruct (sorts_before_between _ s _ Hbefore) as [H|H]; [|congruence].
      (* best before s and s before best *)
      pose proof (sorts_before_trans _ _ _ H Hsb) as Hrefl.
      unfold Db.sorts_before in Hrefl. destruct (Db.period_start best); [|done].
      apply bool_decide_eq_true in Hrefl. lia.
    + destruct (Db.sorts_before s best) eqn:Hsb; [congruence|].
      destruct (sorts_before_between _ best _ Hbefore) as [H|H]; congruence.
    + rewrite Hfirst in Hbefore; [done|]. by apply list_elem_of_further.
Qed.

(** X13 — The plan that sets the quota is read from a subscription of this
    user whose status is [active] or [trialing]: one that has no
    [period_start] when such a row exists for the user, otherwise one whose
    [period_start] no such row of the user exceeds.  Subscriptions of other
    users and subscriptions in any other status are never used.  The plan of
    that row, when it is not empty, is the plan that the limit is read
    from: 3 for [basic] or an empty plan, 10 for [pro], 999999 for
    [enterprise].  A user with such a row always gets a row, and a user
    without one gets the limit of the basic plan. *)
Theorem plan_from_latest_live_subscription (uid : string) (d : Db.t) :
  let mine (s : Db.Subscription) :=
    s ∈ Db.subscription d ∧ Db.reference_id s = uid ∧
    (Db.sub_status s = "active" ∨ Db.sub_status s = "trialing") in
  (∀ s, s ∈ Db.select_plan uid d →
     Db.select_plan uid d = [s] ∧ mine s ∧
     (∀ s', mine s' →
        Db.period_start s = None ∨
        ∃ x y, Db.period_start s' = Some x ∧ Db.period_start s = Some y ∧ (x ≤ y)%Z) ∧
     (Db.plan s ≠ "" → ConnectBank.plan_of (Db.select_plan uid d) = Db.plan s) ∧
     (∀ limit,
        Db.plan s = "" ∧ limit = 3%Z ∨ Db.plan s = "basic" ∧ limit = 3%Z ∨
        Db.plan s = "pro" ∧ limit = 10%Z ∨ Db.plan s = "enterprise" ∧ limit = 999999%Z →
        ConnectBank.maxAccounts (ConnectBank.plan_of (Db.select_plan uid d)) =
          ConnectBank.Limit limit)) ∧
  (∀ s, mine s → Db.select_plan uid d ≠ []) ∧
  ((∀ s, ¬ mine s) →
     Db.select_plan uid d = [] ∧
     ConnectBank.maxAccounts (ConnectBank.plan_of (Db.select_plan uid d)) =
       ConnectBank.Limit 3).
Proof.
  intros mine.
  assert (Hlive : ∀ s, Db.live uid s = true ∧ s ∈ Db.subscription d ↔ mine s).
  { intros s. unfold mine, Db.live.
    rewrite andb_true_iff, orb_true_iff, !bool_decide_eq_true. tauto. }
  unfold Db.select_plan.
  destruct (filter _ (Db.subscription d)) as [|s0 rows] eqn:Hf.
  - split_and!; [by intros s Hs%elem_of_nil| |done].
    intros s Hs%Hlive. apply (list_elem_of_filter (fun s => Db.live uid s = true)) in Hs.
    rewrite Hf in Hs. by apply elem_of_nil in Hs.
  - destruct (first_by_period_start_first s0 rows) as [Hin Hfirst].
    rewrite <- Hf in Hin, Hfirst.
    split_and!.
    + intros s ->%list_elem_of_singleton.
      apply list_elem_of_filter in Hin.
      split_and!; [done|by apply Hlive| | |].
      * intros s' Hs'%Hlive.
        apply (list_elem_of_filter (fun s => Db.live uid s = true)) in Hs'.
        specialize (Hfirst s' Hs'). unfold Db.sorts_before in Hfirst.
        destruct (Db.period_start s') as [x|], (Db.period_start (Db.first_by_period_start _ _))
          as [y|]; try done; try (by left).
        right. exists x, y. split_and!; try done.
        apply bool_decide_eq_false in Hfirst. lia.
      * intros Hplan. unfold ConnectBank.plan_of; simpl. unfold truthy.
        by rewrite bool_decide_eq_false_2.
      * intros limit Hlimit. unfold ConnectBank.plan_of; simpl.
        destruct Hlimit as [[-> ->]|[[-> ->]|[[-> ->]|[-> ->]]]]; done.
    + done.
    + intros Hnone. exfalso.
      assert (s0 ∈ filter (λ s, Db.live uid s = true) (Db.subscription d)) as Hs0.
      { rewrite Hf. apply list_elem_of_here. }
      apply list_elem_of_filter in Hs0. by apply Hlive, Hnone in Hs0.
Qed.

Lemma plan_from_latest_live_subscription_witness :
  let row u st p t :=
    {| Db.reference_id := u; Db.sub_status := st; Db.plan := p;
       Db.period_start := Some t |} in
  let d := {| Db.plaid_items := [];
              Db.subscription :=
                [row "user_1" "active" "basic" 100%Z; row "user_1" "trialing" "pro" 200%Z;
                 row "user_1" "canceled" "enterprise" 300%Z;
                 row "user_2" "active" "enterprise" 400%Z];
              Db.user := [] |} in
  Db.select_plan "user_1" d ≠ [] ∧
  ∀ s, s ∈ Db.select_plan "user_1" d →
       s = row "user_1" "trialing" "pro" 200%Z ∧
       ConnectBank.maxAccounts (ConnectBank.plan_of (Db.select_plan "user_1" d)) =
         ConnectBank.Limit 10.
Proof.
  intros row d.
  destruct (plan_from_latest_live_subscription "user_1" d) as (Hrow & Hsome & _).
  assert (Hmine : ∀ st p t, st = "active" ∨ st = "trialing" →
            row "user_1" st p t ∈ Db.subscription d →
            row "user_1" st p t ∈ Db.subscription d ∧
            Db.reference_id (row "user_1" st p t) = "user_1" ∧
            (Db.sub_status (row "user_1" st p t) = "active" ∨
             Db.sub_status (row "user_1" st p t) = "trialing")).
  { by intros. }
  assert (Hpro : row "user_1" "trialing" "pro" 200%Z ∈ Db.subscription d).
  { apply list_elem_of_further, list_elem_of_here. }
  split.
  - apply (Hsome _ (Hmine _ _ _ (or_intror eq_refl) Hpro)).
  - intros s Hs.
    destruct (Hrow s Hs) as (_ & (Hin & Huser & Hstatus) & Hlatest & _ & Hlimit).
    assert (s = row "user_1" "trialing" "pro" 200%Z) as ->.
    { specialize (Hlatest _ (Hmine _ _ _ (or_intror eq_refl) Hpro)).
      simpl in Hin. rewrite !elem_of_cons, elem_of_nil in Hin.
      destruct Hin as [-> | [-> | [-> | [-> | []]]]]; simpl in *; try done.
      - destruct Hlatest as [[=]|(x & y & [= <-] & [= <-] & Hle)]. lia.
      - destruct Hstatus as [[=]|[=]]. }
    split; [done|]. apply Hlimit. right; right; left. by split.
Defined.

End PlanQuery.

(** *** The session helpers of [mcp-auth] *)

Section McpAuthProperties.
Import McpAuth.
Variable api : option string → Outcome (option SessionData).

(** X14 — [getMcpSession] never throws and leaves the store alone: it
    returns a session exactly when the authority answers with a non-empty
    user id, and then with that user id and the access token as session id;
    no session, an empty user id and a failure of the authority all give
    null. *)
Theorem getMcpSession_never_throws (headers : option string) (d : Db.t) :
  let r := getMcpSession api headers d in
  store r = d ∧
  ∃ session,
    outcome r = Ok session ∧
    (∀ s, session = Some s ↔
          ∃ data, api headers = Ok (Some data) ∧ truthy (data_userId data) = true ∧
                  s = {| userId := data_userId data;
                         sessionId := data_accessToken data |}) ∧
    (∀ s, session = Some s → truthy (userId s) = true).
Proof.
  intros r. subst r. unfold getMcpSession. unfold_action.
  destruct (api headers) as [[data|]|e] eqn:Hapi; simpl.
  - destruct (truthy (data_userId data)) eqn:Ht; simpl.
    + split; [done|]. eexists. split; [done|]. split.
      * intros s. split.
        -- intros [= <-]. by exists data.
        -- by intros (data' & [= <-] & _ & ->).
      * by intros s [= <-].
    + split; [done|]. exists None. split; [done|]. split; [|done].
      intros s. split; [done|]. intros (data' & [= <-] & Ht' & _). congruence.
  - split; [done|]. exists None. split; [done|]. split; [|done].
    intros s. split; [done|]. by intros (data' & [=] & _).
  - split; [done|]. exists None. split; [done|]. split; [|done].
    intros s. split; [done|]. by intros (data' & [=] & _).
Qed.

(** X15 — [requireMcpAuth] and [isAuthenticated] agree: [isAuthenticated]
    never throws, and it answers true exactly when [requireMcpAuth] returns
    a session; otherwise [requireMcpAuth] throws the fixed authentication
    error, also when the authority itself failed, whose cause is not
    passed on. *)
Theorem requireMcpAuth_agrees_with_isAuthenticated (headers : option string) (d : Db.t) :
  ∃ b,
    outcome (isAuthenticated api headers d) = Ok b ∧
    (b = true → ∃ s, outcome (requireMcpAuth api headers d) = Ok s ∧
                     outcome (getOptionalMcpAuth api headers d) = Ok (Some s)) ∧
    (b = false → outcome (requireMcpAuth api headers d) =
                   Throw (ErrorObj authentication_required) ∧
                 outcome (getOptionalMcpAuth api headers d) = Ok None).
Proof.
  unfold isAuthenticated, requireMcpAuth, getOptionalMcpAuth, getMcpSession. unfold_action.
  destruct (api headers) as [[data|]|e] eqn:Hapi; simpl.
  - destruct (truthy (data_userId data)) eqn:Ht; simpl.
    + exists true. split_and!; [done| |done]. intros _. by eexists.
    + exists false. by split_and!.
  - exists false. by split_and!.
  - exists false. by split_and!.
Qed.

End McpAuthProperties.

(** *** Extraction of the OpenAI metadata *)

Section MetadataProperties.
Import Metadata.




(** X16 — [extractOpenAIMetadata] returns metadata exactly when [_meta] is
    an object (or array) in which at least one of the four [openai/...]
    fields is truthy; what it returns is complete: every field of the result
    is truthy, a missing or falsy field being replaced by its default. *)
Theorem extractOpenAIMetadata_complete (params : Value) :
  let meta := get params "_meta" in
  let present key := truthy_value (get meta key) in
  (is_Some (extractOpenAIMetadata params) ↔
     truthy_value meta = true ∧ is_object meta = true ∧
     (present "openai/userAgent" || present "openai/locale" ||
      present "openai/userLocation" || present "openai/subject") = true) ∧
  (∀ m, extractOpenAIMetadata params = Some m →
     complete m ∧
     (present "openai/userAgent" = false → userAgent m = VString "unknown") ∧
     (present "openai/locale" = false → locale m = VString "en-US") ∧
     (present "openai/userLocation" = false → userLocation m = default_location) ∧
     (present "openai/subject" = false → subject m = VString "unknown")).
Proof.
  intros meta present. unfold extractOpenAIMetadata. fold meta.
  destruct (truthy_value meta) eqn:Hm; simpl.
  2:{ split; [|done]. split; [by intros [? ?]|]. by intros ([=] & _). }
  destruct (is_object meta) eqn:Ho; simpl.
  2:{ split; [|done]. split; [by intros [? ?]|]. by intros (_ & [=] & _). }
  unfold or_value, present.
  destruct (truthy_value (get meta "openai/userAgent")) eqn:H1;
    destruct (truthy_value (get meta "openai/locale")) eqn:H2;
    destruct (truthy_value (get meta "openai/userLocation")) eqn:H3;
    destruct (truthy_value (get meta "openai/subject")) eqn:H4; simpl;
    rewrite ?H1, ?H2, ?H3, ?H4; simpl.
  16:{ split; [|done]. split; [by intros [? ?]|]. by intros (_ & _ & [=]). }
  all: split; [split; [done|by eexists]|].
  all: intros m [= <-]; unfold complete; simpl; by split_and!.
Qed.



End MetadataProperties.

(** *** Account health *)

Section AccountHealthProperties.
Import Accounts.
Variable Item : Type.
Variable accountsGet : string → Reply (list Account * Item).
Variable utilization : Q → Q → Q.

(** Goals about warnings in an explicit list. *)
Ltac health_mem :=
  rewrite ?elem_of_cons, ?elem_of_nil in *;
  intuition (try congruence; try discriminate).

Lemma lt_spec (a b : Q) : lt a b = true ↔ QArith_base.Qlt a b.
Proof.
  unfold lt. rewrite negb_true_iff. split.
  - intros H. apply QArith_base.Qnot_le_lt. intros Hle.
    apply QArith_base.Qle_bool_iff in Hle. congruence.
  - intros H. apply not_true_is_false. intros Hle%QArith_base.Qle_bool_iff.
    by apply (QArith_base.Qlt_not_le _ _ H).
Qed.

Lemma assess_status (account : Account) :
  let a := assess utilization account in
  (has_warnings a = true ↔ status a = "attention_needed") ∧
  (has_warnings a = false ↔ status a = "healthy").
Proof.
  intros a. subst a. unfold assess, has_warnings. simpl.
  match goal with |- context [length ?w] => destruct w end; simpl; by split.
Qed.

(** What [balance.current || 0] evaluates to and how it compares with the
    two thresholds, in terms of the field itself. *)
Lemma or_zero_spec (x : option Q) :
  (∀ c, x = Some c → QArith_base.Qnum c ≠ 0%Z → or_zero x = c) ∧
  (x = None ∨ (∃ c, x = Some c ∧ QArith_base.Qnum c = 0%Z) →
     or_zero x = QArith_base.inject_Z 0) ∧
  (lt (or_zero x) (num 0) = true ↔
     ∃ c, x = Some c ∧ QArith_base.Qlt c (QArith_base.inject_Z 0)) ∧
  (lt (or_zero x) (num 100) = true ↔
     x = None ∨ ∃ c, x = Some c ∧ QArith_base.Qlt c (QArith_base.inject_Z 100)).
Proof.
  rewrite !lt_spec. unfold or_zero, nonzero, num.
  destruct x as [c|]; [destruct (Z.eqb_spec (QArith_base.Qnum c) 0) as [Hz|Hz]; simpl|].
  - assert (H0 : ¬ QArith_base.Qlt c (QArith_base.inject_Z 0)).
    { unfold QArith_base.Qlt. simpl. lia. }
    assert (H100 : QArith_base.Qlt c (QArith_base.inject_Z 100)).
    { unfold QArith_base.Qlt. simpl. lia. }
    split_and!; [by intros ? [= <-]|done| |].
    + split; [done|]. by intros (? & [= <-] & ?).
    + split; [|done]. intros _. right. by exists c.
  - split_and!; [by intros ? [= <-]| | |].
    + by intros [|(? & [= <-] & ?)].
    + split; [by exists c|]. by intros (? & [= <-] & ?).
    + split; [right; by exists c|]. by intros [|(? & [= <-] & ?)].
  - split_and!; [done|done| |].
    + split; [done|]. by intros (? & ? & ?).
    + split; [by left|done].
Qed.

(** X18 — The entry of one account in [checkAccountHealth].  The balance and
    the available amount reported are the fields of the account, or zero
    when a field is missing or is zero.  [Negative balance] is reported
    exactly when the current balance is there and below zero; [Low balance
    warning] exactly for a depository account whose current balance is
    missing or below 100, so a negative depository account carries both.
    [High credit utilization (>90%)] is reported exactly for a credit
    account with a non-zero limit whose utilization exceeds 90, [Moderate
    credit utilization (>70%)] exactly for such an account whose
    utilization exceeds 70 but not 90.  The warnings come in this order,
    each at most once, and there is no other.  The status is [healthy]
    exactly when there is no warning, [attention_needed] otherwise. *)
Theorem assess_warnings (account : Account) :
  let a := assess utilization account in
  let missing (x : option Q) :=
    x = None ∨ ∃ c, x = Some c ∧ QArith_base.Qnum c = 0%Z in
  let used (threshold : Z) :=
    type account = "credit" ∧
    ∃ l, limit (balance account) = Some l ∧ QArith_base.Qnum l ≠ 0%Z ∧
         QArith_base.Qlt (QArith_base.inject_Z threshold) (utilization (healthBalance a) l) in
  (accountId a = id account ∧ accountName a = name account ∧
   accountType a = type account) ∧
  (∀ c, current (balance account) = Some c → QArith_base.Qnum c ≠ 0%Z →
        healthBalance a = c) ∧
  (missing (current (balance account)) → healthBalance a = QArith_base.inject_Z 0) ∧
  (∀ c, available (balance account) = Some c → QArith_base.Qnum c ≠ 0%Z →
        healthAvailable a = c) ∧
  (missing (available (balance account)) → healthAvailable a = QArith_base.inject_Z 0) ∧
  ("Negative balance" ∈ warnings a ↔
     ∃ c, current (balance account) = Some c ∧
          QArith_base.Qlt c (QArith_base.inject_Z 0)) ∧
  ("Low balance warning" ∈ warnings a ↔
     type account = "depository" ∧
     (current (balance account) = None ∨
      ∃ c, current (balance account) = Some c ∧
           QArith_base.Qlt c (QArith_base.inject_Z 100))) ∧
  ("High credit utilization (>90%)" ∈ warnings a ↔ used 90%Z) ∧
  ("Moderate credit utilization (>70%)" ∈ warnings a ↔ used 70%Z ∧ ¬ used 90%Z) ∧
  warnings a =
    filter (fun w => w ∈ warnings a)
      ["Low balance warning"; "Negative balance"; "High credit utilization (>90%)";
       "Moderate credit utilization (>70%)"] ∧
  (status a = "healthy" ↔ warnings a = []) ∧
  (status a = "attention_needed" ↔ warnings a ≠ []).
Proof.
  intros a missing used.
  destruct (or_zero_spec (current (balance account))) as (Hsome & Hnone & Hneg & Hlow).
  destruct (or_zero_spec (available (balance account))) as (Hsome' & Hnone' & _ & _).
  assert (Hcredit :
    ∃ credit, warnings a =
      (if lt (healthBalance a) (num 100) && bool_decide (type account = "depository")
       then ["Low balance warning"] else []) ++
      (if lt (healthBalance a) (num 0) then ["Negative balance"] else []) ++ credit ∧
      (status a = if bool_decide (length (warnings a) = 0) then "healthy"
                  else "attention_needed") ∧
      ((used 90%Z ∧ credit = ["High credit utilization (>90%)"]) ∨
       (used 70%Z ∧ ¬ used 90%Z ∧ credit = ["Moderate credit utilization (>70%)"]) ∨
       (¬ used 70%Z ∧ ¬ used 90%Z ∧ credit = []))).
  { eexists. split; [reflexivity|]. split; [reflexivity|].
    subst used a. simpl.
    set (b := or_zero (current (balance account))).
    destruct (limit (balance account)) as [l|] eqn:Hl.
    2:{ right; right. split_and!; [| |done]; by intros (_ & ? & ? & _). }
    case_bool_decide as Ht; simpl.
    2:{ right; right. split_and!; [| |done]; by intros (? & _). }
    unfold nonzero. destruct (Z.eqb_spec (QArith_base.Qnum l) 0) as [Hz|Hz]; simpl.
    { right; right. split_and!; [| |done]; by intros (_ & ? & [= <-] & ? & _). }
    destruct (lt (num 90) (utilization b l)) eqn:H90.
    { left. split; [|done]. split; [done|]. exists l. by rewrite <- lt_spec. }
    assert (¬ QArith_base.Qlt (QArith_base.inject_Z 90) (utilization b l)) as H90'.
    { rewrite <- lt_spec. unfold num in H90. by rewrite H90. }
    destruct (lt (num 70) (utilization b l)) eqn:H70.
    { right; left. split; [|split; [by intros (_ & ? & [= <-] & _ & ?)|done]].
      split; [done|]. exists l. by rewrite <- lt_spec. }
    right; right. split_and!; [|by intros (_ & ? & [= <-] & _ & ?)|done].
    intros (_ & ? & [= <-] & _ & H). apply lt_spec in H. unfold num in H70. congruence. }
  destruct Hcredit as (credit & Hw & Hstatus & Hshape).
  change (healthBalance a) with (or_zero (current (balance account))) in Hw.
  split_and!; try done.
  - rewrite Hw, <- Hneg.
    destruct (lt _ (num 100) && _), (lt _ (num 0));
      destruct Hshape as [(_ & ->)|[(_ & _ & ->)|(_ & _ & ->)]]; simpl;
      health_mem.
  - rewrite Hw, <- Hlow. clear Hstatus.
    destruct (lt _ (num 100)), (lt _ (num 0)); simpl; case_bool_decide; simpl;
      destruct Hshape as [(_ & ->)|[(_ & _ & ->)|(_ & _ & ->)]]; simpl;
      health_mem.
  - rewrite Hw.
    destruct (lt _ (num 100) && _), (lt _ (num 0));
      destruct Hshape as [(? & ->)|[(? & ? & ->)|(? & ? & ->)]]; simpl;
      health_mem.
  - rewrite Hw.
    destruct (lt _ (num 100) && _), (lt _ (num 0));
      destruct Hshape as [(? & ->)|[(? & ? & ->)|(? & ? & ->)]]; simpl;
      health_mem.
  - rewrite Hw.
    destruct (lt _ (num 100) && _), (lt _ (num 0));
      by destruct Hshape as [(_ & ->)|[(_ & _ & ->)|(_ & _ & ->)]].
  - rewrite Hstatus. destruct (warnings a); by case_bool_decide.
  - rewrite Hstatus. destruct (warnings a); by case_bool_decide.
Qed.

Lemma existsb_has_warnings (l : list AccountHealth) :
  existsb has_warnings l = bool_decide (0 < length (List.filter has_warnings l)).
Proof.
  induction l as [|a l IH]; [done|]. simpl.
  by destruct (has_warnings a).
Qed.

(** X19 — The report of [checkAccountHealth] is consistent: it has one
    entry per account of the provider, in the same order; the overall
    status is [attention_needed] exactly when some account has a warning,
    that is when the count of accounts with warnings is not zero; the count
    never exceeds the number of accounts, and it is the number of entries
    whose status is [attention_needed]. *)
Theorem health_report_consistent (accessToken : string) (report : HealthReport) :
  checkAccountHealth Item accountsGet utilization accessToken = Ok report →
  ∃ accounts item,
    accountsGet accessToken = Resolved (accounts, item) ∧
    reportAccounts report = assess utilization <$> accounts ∧
    accountId <$> reportAccounts report = id <$> accounts ∧
    totalAccounts report = length (reportAccounts report) ∧
    accountsWithWarnings report ≤ totalAccounts report ∧
    accountsWithWarnings report =
      length (filter (fun a => status a = "attention_needed") (reportAccounts report)) ∧
    (overallStatus report = "healthy" ↔ accountsWithWarnings report = 0) ∧
    (overallStatus report = "attention_needed" ↔ 0 < accountsWithWarnings report) ∧
    (overallStatus report = "healthy" ↔
       Forall (fun a => status a = "healthy") (reportAccounts report)).
Proof.
  unfold checkAccountHealth, getAccountBalances.
  destruct (accountsGet accessToken) as [[accounts item]|c] eqn:Hget.
  2:{ repeat case_match; done. }
  intros [= <-]. exists accounts, item. simpl.
  set (checks := assess utilization <$> accounts).
  assert (Hstatus : ∀ a, a ∈ checks →
            (has_warnings a = true ↔ status a = "attention_needed") ∧
            (has_warnings a = false ↔ status a = "healthy")).
  { intros a (account & -> & _)%list_elem_of_fmap. apply assess_status. }
  assert (Hcount : length (List.filter has_warnings checks) =
            length (filter (fun a => status a = "attention_needed") checks)).
  { clear -Hstatus. induction checks as [|a l IH]; [done|].
    rewrite filter_cons. simpl.
    destruct (Hstatus a (list_elem_of_here _ _)) as [Ha1 Ha2].
    assert (IH' := IH (fun x Hx => Hstatus x (list_elem_of_further _ _ _ Hx))).
    destruct (has_warnings a) eqn:Hh; simpl.
    - rewrite decide_True by by apply Ha1. simpl. by rewrite IH'.
    - rewrite decide_False; [done|]. rewrite (proj1 Ha2 eq_refl). done. }
  assert (Hle : length (List.filter has_warnings checks) ≤ length checks).
  { clear. induction checks as [|a l IH]; simpl; [lia|]. destruct (has_warnings a); simpl; lia. }
  rewrite existsb_has_warnings.
  split_and!; try done.
  - subst checks. rewrite <- list_fmap_compose. by apply list_fmap_ext.
  - subst checks. by rewrite length_fmap.
  - subst checks. rewrite length_fmap in Hle. done.
  - case_bool_decide; split; try done; lia.
  - case_bool_decide; split; try done; lia.
  - rewrite Forall_forall. case_bool_decide as Hpos; split; try done.
    + intros Hall. exfalso.
      destruct (List.filter has_warnings checks) as [|a l] eqn:Hf; [simpl in Hpos; lia|].
      assert (a ∈ List.filter has_warnings checks) as Ha by (rewrite Hf; apply list_elem_of_here).
      apply list_elem_of_In, filter_In in Ha as [Ha%list_elem_of_In Hw].
      destruct (Hstatus a Ha) as [H1 _]. rewrite (Hall a Ha) in H1.
      by specialize (proj1 H1 Hw).
    + intros _ a Ha. destruct (Hstatus a Ha) as [_ H2]. apply H2.
      apply not_true_is_false. intros Hw. apply Hpos.
      assert (a ∈ List.filter has_warnings checks) as Hin.
      { apply list_elem_of_In, filter_In. split; [by apply list_elem_of_In|done]. }
      destruct (List.filter has_warnings checks); [by apply elem_of_nil in Hin|simpl; lia].
Qed.

(** X20 — Failures of the provider in [getAccountBalances] and
    [checkAccountHealth]: every failure is thrown as an [Error]; the codes
    [ITEM_LOGIN_REQUIRED] and [INVALID_ACCESS_TOKEN] give fixed reconnect
    texts in which the provider's message does not appear, every other code
    gives [Plaid error (<code>): <message>], and a failure without a code
    gives the wrapped message of the cause.  [checkAccountHealth] puts its
    own prefix in front of whichever of these it receives. *)
Theorem account_failure_messages (accessToken : string) (c : Caught) :
  accountsGet accessToken = Rejected c →
  ∃ message,
    getAccountBalances Item accountsGet accessToken = Throw (ErrorObj message) ∧
    checkAccountHealth Item accountsGet utilization accessToken =
      Throw (ErrorObj ("Failed to check account health: " +:+ message)) ∧
    (error_code c = Some "ITEM_LOGIN_REQUIRED" → message = login_required_message) ∧
    (error_code c = Some "INVALID_ACCESS_TOKEN" → message = invalid_token_message) ∧
    (∀ code, error_code c = Some code → truthy code = true →
       code ≠ "ITEM_LOGIN_REQUIRED" → code ≠ "INVALID_ACCESS_TOKEN" →
       message = "Plaid error (" +:+ code +:+ "): " +:+ error_message c) ∧
    (truthy_opt (error_code c) = false →
       message = "Failed to get account balances: " +:+
                 message_or (cause c) "Unknown error").
Proof.
  intros Hget. unfold checkAccountHealth, getAccountBalances. rewrite Hget.
  destruct (error_code c) as [code|] eqn:Hcode; simpl.
  - destruct (truthy code) eqn:Ht; simpl.
    + case_bool_decide as H1; [|case_bool_decide as H2].
      * subst code. eexists. split_and!; try done. by intros code [= <-].
      * subst code. eexists. split_and!; try done. by intros code [= <-].
      * eexists. split_and!; try done.
        -- intros [=]. congruence.
        -- intros [=]. congruence.
        -- by intros code' [= <-].
    + eexists. split_and!; try done.
      * intros [=]. by subst code.
      * intros [=]. by subst code.
      * intros code' [= <-]. congruence.
  - eexists. by split_and!.
Qed.

End AccountHealthProperties.

Lemma assess_warnings_witness :
  let amount (z : Z) : Accounts.Q := QArith_base.inject_Z z in
  let utilization (b l : Accounts.Q) : Accounts.Q :=
    QArith_base.Qmult
      (QArith_base.Qdiv (if QArith_base.Qle_bool (amount 0%Z) b then b else QArith_base.Qopp b) l)
      (amount 100%Z) in
  let account kind current limit :=
    {| Accounts.id := "acc_1"; Accounts.name := "Everyday"; Accounts.officialName := None;
       Accounts.type := kind; Accounts.subtype := None; Accounts.mask := None;
       Accounts.balance :=
         {| Accounts.current := current; Accounts.available := None;
            Accounts.limit := limit; Accounts.isoCurrencyCode := Some "USD" |} |} in
  let overdrawn := Accounts.assess utilization (account "depository" (Some (amount (-50)%Z)) None) in
  let unknown := Accounts.assess utilization (account "depository" None None) in
  let card := Accounts.assess utilization
                (account "credit" (Some (amount 950%Z)) (Some (amount 1000%Z))) in
  (Accounts.healthBalance overdrawn = amount (-50)%Z ∧
   "Negative balance" ∈ Accounts.warnings overdrawn ∧
   "Low balance warning" ∈ Accounts.warnings overdrawn ∧
   ("High credit utilization (>90%)" ∉ Accounts.warnings overdrawn)) ∧
  (Accounts.healthBalance unknown = amount 0%Z ∧
   ("Negative balance" ∉ Accounts.warnings unknown) ∧
   "Low balance warning" ∈ Accounts.warnings unknown) ∧
  ("High credit utilization (>90%)" ∈ Accounts.warnings card ∧
   ("Moderate credit utilization (>70%)" ∉ Accounts.warnings card) ∧
   ("Low balance warning" ∉ Accounts.warnings card) ∧
   Accounts.status card = "attention_needed").
Proof.
  intros amount utilization account overdrawn unknown card.
  split; [|split].
  - destruct (assess_warnings utilization (account "depository" (Some (amount (-50)%Z)) None))
      as (_ & Hb & _ & _ & _ & Hneg & Hlow & Hhigh & _).
    split; [|split; [|split]].
    + by apply Hb.
    + apply Hneg. by exists (amount (-50)%Z).
    + apply Hlow. split; [done|]. right. by exists (amount (-50)%Z).
    + intros [Hkind _]%Hhigh. discriminate Hkind.
  - destruct (assess_warnings utilization (account "depository" None None))
      as (_ & _ & Hb & _ & _ & Hneg & Hlow & _).
    split; [|split].
    + apply Hb. by left.
    + intros (c & Hc & _)%Hneg. discriminate Hc.
    + apply Hlow. split; [done|]. by left.
  - destruct (assess_warnings utilization
                (account "credit" (Some (amount 950%Z)) (Some (amount 1000%Z))))
      as (_ & _ & _ & _ & _ & _ & Hlow & Hhigh & Hmoderate & _ & _ & Hstatus).
    assert (Hused : "High credit utilization (>90%)" ∈ Accounts.warnings card).
    { apply Hhigh. split; [done|]. exists (amount 1000%Z). by split_and!. }
    split; [|split; [|split]].
    + exact Hused.
    + intros [_ Hnot]%Hmoderate. by apply Hnot, Hhigh.
    + intros [Hkind _]%Hlow. discriminate Hkind.
    + apply Hstatus. intros Hnil. fold card in Hnil. rewrite Hnil in Hused.
      by apply elem_of_nil in Hused.
Defined.

Lemma health_report_consistent_witness :
  let accounts :=
    [ {| Accounts.id := "acc_1"; Accounts.name := "Checking";
         Accounts.officialName := None; Accounts.type := "depository";
         Accounts.subtype := None; Accounts.mask := None;
         Accounts.balance :=
           {| Accounts.current := Some (Accounts.num 2500); Accounts.available := None;
              Accounts.limit := None; Accounts.isoCurrencyCode := None |} |} ] in
  ∃ report,
    Accounts.checkAccountHealth unit (fun _ => Accounts.Resolved (accounts, tt))
      (fun _ _ => Accounts.num 0) "access-1" = Ok report ∧
    Accounts.totalAccounts report = 1.
Proof.
  intros accounts. eexists. split; [reflexivity|].
  destruct (health_report_consistent unit (fun _ => Accounts.Resolved (accounts, tt))
              (fun _ _ => Accounts.num 0) "access-1" _ eq_refl)
    as (accounts' & item & _ & _ & _ & Htotal & _).
  by rewrite Htotal.
Defined.

Lemma account_failure_messages_witness :
  Accounts.checkAccountHealth unit
    (fun _ => Accounts.Rejected
                {| Accounts.cause := ErrorObj "Request failed with status code 400";
                   Accounts.error_code := Some "ITEM_LOGIN_REQUIRED";
                   Accounts.error_message := "the login details of this item have changed" |})
    (fun _ _ => Accounts.num 0) "access-1" =
  Throw (ErrorObj ("Failed to check account health: " +:+ Accounts.login_required_message)).
Proof.
  destruct (account_failure_messages unit
              (fun _ => Accounts.Rejected
                {| Accounts.cause := ErrorObj "Request failed with status code 400";
                   Accounts.error_code := Some "ITEM_LOGIN_REQUIRED";
                   Accounts.error_message := "the login details of this item have changed" |})
              (fun _ _ => Accounts.num 0) "access-1" _ eq_refl)
    as (message & _ & Hhealth & Hlogin & _).
  rewrite Hhealth. by rewrite (Hlogin eq_refl).
Defined.

(** *** The migration runner *)

Section MigrateProperties.
Import Migrate.

(** The order of the sort, spelled out: [a] is an initial part of [b], or
    at the first place where they differ the code unit of [a] is smaller. *)
Let before (a b : Name) : Prop :=
  a `prefix_of` b ∨
  ∃ common x y ra rb, a = common ++ x :: ra ∧ b = common ++ y :: rb ∧ (x < y)%N.

#[local] Instance name_le_total : Total name_le.
Proof.
  intros a. unfold name_le. induction a as [|x a IH]; intros [|y b]; simpl; auto.
  destruct (decide (x = y)) as [->|Hne].
  - rewrite decide_True by done. apply IH.
  - rewrite (decide_False (P := y = x)) by done.
    rewrite !bool_decide_eq_true. lia.
Qed.

#[local] Instance name_le_trans : Transitive name_le.
Proof.
  intros a. unfold name_le. induction a as [|x a IH]; intros [|y b] [|z c]; simpl;
    try done.
  destruct (decide (x = y)) as [->|Hxy]; destruct (decide (y = z)) as [->|Hyz];
    rewrite ?decide_True, ?decide_False by done; try done.
  - apply IH.
  - rewrite !bool_decide_eq_true. intros Hlt Hlt'.
    destruct (decide (x = z)) as [->|Hxz]; [lia|].
    apply bool_decide_eq_true. lia.
Qed.

Lemma Sorted_filter_trans {A} (R : relation A) `{!Transitive R}
    (P : A → Prop) `{!∀ x, Decision (P x)} (l : list A) :
  Sorted R l → Sorted R (filter P l).
Proof.
  intros Hs%Sorted_StronglySorted; [|done]. apply StronglySorted_Sorted.
  induction Hs as [|a l _ IH Hall]; [constructor|].
  rewrite filter_cons. case_decide; [|done].
  constructor; [done|]. apply Forall_forall. intros b [_ Hb]%list_elem_of_filter.
  by eapply Forall_forall in Hall.
Qed.

Lemma name_le_before (a b : Name) : name_le a b ↔ before a b.
Proof.
  unfold name_le, before. revert b. induction a as [|x a IH]; intros [|y b]; simpl.
  - split; [|done]. intros _. left. apply prefix_nil.
  - split; [|done]. intros _. left. apply prefix_nil.
  - split; [done|]. intros [[k Hk]|(common & x' & y' & ra & rb & _ & Hb & _)].
    + done.
    + by destruct common.
  - destruct (decide (x = y)) as [->|Hne].
    + rewrite IH. split.
      * intros [Hpre|(common & x' & y' & ra & rb & -> & -> & Hlt)].
        -- left. by apply prefix_cons.
        -- right. by exists (y :: common), x', y', ra, rb.
      * intros [Hpre|(common & x' & y' & ra & rb & Ha & Hb & Hlt)].
        -- left. by apply prefix_cons_inv_2 in Hpre.
        -- destruct common as [|c common]; simplify_eq/=; [lia|].
           right. by exists common, x', y', ra, rb.
    + rewrite bool_decide_eq_true. split.
      * intros Hlt. right. by exists [], x, y, a, b.
      * intros [Hpre|(common & x' & y' & ra & rb & Ha & Hb & Hlt)].
        -- by apply prefix_cons_inv_1 in Hpre.
        -- destruct common as [|c common]; simplify_eq/=; done.
Qed.

Lemma Sorted_weaken {A} (R1 R2 : relation A) (l : list A) :
  (∀ a b, R1 a b → R2 a b) → Sorted R1 l → Sorted R2 l.
Proof.
  intros HR. induction 1 as [|a l _ IH Hhd]; constructor; [done|].
  destruct Hhd; constructor; auto.
Qed.

Lemma sql_suffix (f : Name) :
  endsWith f (ascii_name ".sql") = true ↔ [46; 115; 113; 108]%N `suffix_of` f.
Proof. unfold endsWith. by rewrite bool_decide_eq_true. Qed.

Lemma run_files_spec (W : World) executedSet files table ran :
  let r := run_files W executedSet files table ran in
  ∃ recorded,
    r.1.2 = table ++ recorded ∧
    r.2 `prefix_of` filter (fun f => f ∉ executedSet) files ∧
    Forall (fun f => execute W f = Ok tt) recorded ∧
    match r.1.1 with
    | Completed n =>
        r.2 = filter (fun f => f ∉ executedSet) files ∧ recorded = r.2 ∧
        n = ran + length r.2
    | Exit1 =>
        ∃ f, r.2 = recorded ++ [f] ∧ (fails (execute W f) ∨ f ∈ table ++ recorded)
    end.
Proof.
  revert table ran. induction files as [|f files IH]; intros table ran; simpl.
  { exists []. rewrite app_nil_r. split_and!; try done; simpl; lia. }
  rewrite filter_cons. case_bool_decide as Hexec.
  - rewrite decide_False by (by intros H). apply IH.
  - rewrite decide_True by done.
    destruct (execute W f) as [[]|e] eqn:Hrun.
    + case_bool_decide as Hdup.
      * exists []. rewrite app_nil_r. simpl. split_and!; try done.
        -- apply prefix_cons, prefix_nil.
        -- exists f. split; [done|]. by right.
      * destruct (IH (table ++ [f]) (S ran)) as (recorded & Htab & Hpre & Hok & Hexit).
        destruct (run_files W executedSet files (table ++ [f]) (S ran))
          as [[exit table'] attempted]. simpl in *.
        exists (f :: recorded). split_and!.
        -- by rewrite Htab, <- app_assoc.
        -- by apply prefix_cons.
        -- by constructor.
        -- destruct exit as [n|].
           ++ destruct Hexit as (-> & -> & ->). split_and!; try done; simpl; lia.
           ++ destruct Hexit as (g & -> & Hg). exists g. split; [done|].
              destruct Hg as [Hg|Hg]; [by left|right].
              by rewrite <- app_assoc in Hg.
    + exists []. rewrite app_nil_r. simpl. split_and!; try done.
      * apply prefix_cons, prefix_nil.
      * exists f. split; [done|]. left. by rewrite Hrun.
Qed.

(** The sorted listing holds the [.sql] files of the directory, each once
    when the directory lists each name once. *)
Lemma migrationFiles_spec (listing : list Name) :
  Sorted before (migrationFiles listing) ∧
  migrationFiles listing ≡ₚ
    filter (fun f => [46; 115; 113; 108]%N `suffix_of` f) listing ∧
  (∀ f, f ∈ migrationFiles listing ↔
        f ∈ listing ∧ [46; 115; 113; 108]%N `suffix_of` f) ∧
  (NoDup listing → NoDup (migrationFiles listing)).
Proof.
  unfold migrationFiles. split_and!.
  - apply (Sorted_weaken name_le); [intros a b; apply name_le_before|].
    apply Sorted_merge_sort, _.
  - rewrite merge_sort_Permutation. by rewrite (list_filter_iff _ _ _ sql_suffix).
  - intros f. rewrite merge_sort_Permutation, list_elem_of_filter, sql_suffix. tauto.
  - intros Hnd. rewrite merge_sort_Permutation. by apply NoDup_filter.
Qed.

(** X21 — What a run of the migrations does in every case.  Rows of the
    [migrations] table are never removed or reordered.  The files of the
    directory whose names end in [.sql] are taken in the order of their
    UTF-16 code units (a name before its extensions, otherwise the smaller
    code unit at the first difference first); the SQL that is run is that
    of a leading part of those among them that the table does not hold, so
    no pending file is skipped and no recorded file is run again; every
    file that is recorded ran without error; when the script exits with
    status 1 inside the loop, the last file that was run is the one that
    failed and it is not recorded. *)
Theorem migrations_run_in_order (W : World) (table : list Name) :
  let r := runMigrations W table in
  ∃ recorded,
    r.1.2 = table ++ recorded ∧
    (∀ listing, readdir W = Ok listing →
       ∃ files,
         files ≡ₚ filter (fun f => [46; 115; 113; 108]%N `suffix_of` f) listing ∧
         Sorted (fun a b =>
                   a `prefix_of` b ∨
                   ∃ common x y ra rb,
                     a = common ++ x :: ra ∧ b = common ++ y :: rb ∧ (x < y)%N) files ∧
         r.2 `prefix_of` filter (fun f => f ∉ table) files) ∧
    Forall (fun f => execute W f = Ok tt) recorded ∧
    match r.1.1 with
    | Completed n => recorded = r.2 ∧ n = length recorded
    | Exit1 =>
        r.2 = [] ∧ recorded = [] ∨
        ∃ f, r.2 = recorded ++ [f] ∧ (fails (execute W f) ∨ f ∈ table ++ recorded)
    end.
Proof.
  intros r. subst r. unfold runMigrations.
  assert (Hfiles : ∀ listing attempted,
            attempted `prefix_of` filter (fun f => f ∉ table) (migrationFiles listing) →
            ∃ files,
              files ≡ₚ filter (fun f => [46; 115; 113; 108]%N `suffix_of` f) listing ∧
              Sorted before files ∧
              attempted `prefix_of` filter (fun f => f ∉ table) files).
  { intros listing attempted Hpre. exists (migrationFiles listing).
    destruct (migrationFiles_spec listing) as (Hsorted & Hperm & _). by split_and!. }
  destruct (create_table W) as [[]|e].
  2:{ exists []. rewrite app_nil_r. simpl. split_and!; try done.
      - intros. apply Hfiles, prefix_nil.
      - by left. }
  destruct (readdir W) as [listing|e].
  2:{ exists []. rewrite app_nil_r. simpl. split_and!; try done. by left. }
  destruct (select_executed W) as [[]|e].
  2:{ exists []. rewrite app_nil_r. simpl. split_and!; try done.
      - intros. apply Hfiles, prefix_nil.
      - by left. }
  destruct (run_files_spec W table (migrationFiles listing) table 0)
    as (recorded & Htab & Hpre & Hok & Hexit).
  exists recorded. split_and!; try done.
  - intros listing' [= <-]. by apply Hfiles.
  - destruct (run_files W table (migrationFiles listing) table 0) as [[exit t] a].
    simpl in *. destruct exit as [n|].
    + by destruct Hexit as (_ & -> & ->).
    + by right.
Qed.

(** X22 — A run in which every pending migration succeeds, on a directory
    that lists each name once.  The pending files are the names of the
    directory that end in [.sql] and are not in the table, each once, in the
    order of their UTF-16 code units; all of them are run, in this order,
    and recorded behind the rows that were there; afterwards every [.sql]
    file of the directory is in the table, and a second run over the same
    directory runs nothing and leaves the table as it is, whatever the
    files would do. *)
Theorem migrations_complete_and_idempotent (W W' : World) (listing table : list Name) :
  create_table W = Ok tt → readdir W = Ok listing → select_executed W = Ok tt →
  NoDup listing →
  (∀ f, f ∈ listing → [46; 115; 113; 108]%N `suffix_of` f → f ∉ table →
        execute W f = Ok tt) →
  create_table W' = Ok tt → readdir W' = Ok listing → select_executed W' = Ok tt →
  let todo := pending listing table in
  (∀ f, f ∈ todo ↔ f ∈ listing ∧ [46; 115; 113; 108]%N `suffix_of` f ∧ f ∉ table) ∧
  NoDup todo ∧
  Sorted (fun a b =>
            a `prefix_of` b ∨
            ∃ common x y ra rb,
              a = common ++ x :: ra ∧ b = common ++ y :: rb ∧ (x < y)%N) todo ∧
  runMigrations W table = (Completed (length todo), table ++ todo, todo) ∧
  (∀ f, f ∈ listing → [46; 115; 113; 108]%N `suffix_of` f → f ∈ table ++ todo) ∧
  runMigrations W' (table ++ todo) = (Completed 0, table ++ todo, []).
Proof.
  intros Hc Hr Hs Hnd Hok Hc' Hr' Hs' todo.
  assert (Htodo : todo = filter (fun f => f ∉ table) (migrationFiles listing))
    by done.
  clearbody todo.
  destruct (migrationFiles_spec listing) as (Hsorted & _ & Hmem & Hnodup).
  assert (Hin : ∀ f, f ∈ todo ↔
            f ∈ listing ∧ [46; 115; 113; 108]%N `suffix_of` f ∧ f ∉ table).
  { intros f. rewrite Htodo, list_elem_of_filter, Hmem. tauto. }
  assert (Hall : ∀ f, f ∈ listing → [46; 115; 113; 108]%N `suffix_of` f →
                      f ∈ table ++ todo).
  { intros f Hf Hsql. apply elem_of_app.
    destruct (decide (f ∈ table)) as [?|Hnot]; [by left|right]. by apply Hin. }
  assert (Hnd' : NoDup todo) by (rewrite Htodo; apply NoDup_filter, Hnodup, Hnd).
  split_and!; [done|done| |  |done|].
  - rewrite Htodo. apply (Sorted_weaken name_le); [intros a b; apply name_le_before|].
    apply Sorted_filter_trans; [apply _|]. unfold migrationFiles.
    apply Sorted_merge_sort, _.
  - unfold runMigrations. rewrite Hc, Hr, Hs.
    destruct (run_files_spec W table (migrationFiles listing) table 0)
      as (recorded & Htab & Hpre & Hrec & Hexit).
    destruct (run_files W table (migrationFiles listing) table 0)
      as [[exit t] a]. simpl in *. rewrite <- Htodo in Hpre, Hexit.
    destruct exit as [n|].
    + destruct Hexit as (-> & -> & ->). by subst t.
    + exfalso. destruct Hexit as (f & -> & Hf).
      assert (f ∈ todo) as Hf'.
      { destruct Hpre as [k ->]. rewrite !elem_of_app, list_elem_of_singleton. auto. }
      destruct Hf as [Hf|Hf].
      * apply Hin in Hf' as (? & ? & ?). rewrite Hok in Hf; done.
      * destruct Hpre as [k Hk]. rewrite Hk in Hnd'.
        apply NoDup_app in Hnd' as [Hnd' _].
        apply NoDup_app in Hnd' as (_ & Hdisj & _).
        apply elem_of_app in Hf as [Hf|Hf].
        -- by apply Hin in Hf' as (_ & _ & Hnot).
        -- apply (Hdisj f Hf), list_elem_of_here.
  - unfold runMigrations. rewrite Hc', Hr', Hs'.
    destruct (run_files_spec W' (table ++ todo) (migrationFiles listing)
                (table ++ todo) 0) as (recorded & Htab & Hpre & Hrec & Hexit).
    assert (Hnone : filter (fun f => f ∉ table ++ todo) (migrationFiles listing) = []).
    { apply elem_of_nil_inv. intros f [Hnot Hf]%list_elem_of_filter.
      apply Hmem in Hf as [Hf Hsql]. by apply Hnot, Hall. }
    rewrite Hnone in Hpre, Hexit. apply prefix_nil_inv in Hpre.
    destruct (run_files W' (table ++ todo) (migrationFiles listing)
                (table ++ todo) 0) as [[exit t] a]. simpl in *. subst a.
    destruct exit as [n|].
    + destruct Hexit as (_ & -> & ->). subst t. by rewrite app_nil_r.
    + destruct Hexit as (f & Hf & _). by destruct recorded.
Qed.

End MigrateProperties.

Lemma migrations_complete_and_idempotent_witness :
  let name := Migrate.ascii_name in
  let tilde := ([65374] ++ name ".sql")%N in
  let face := ([55357; 56832] ++ name ".sql")%N in
  let listing := [tilde; name "b.sql"; face; name "README.md"; name "a.sql"] in
  let W := {| Migrate.create_table := Ok tt;
              Migrate.readdir := Ok listing;
              Migrate.select_executed := Ok tt;
              Migrate.execute := fun _ => Ok tt |} in
  Migrate.runMigrations W [name "a.sql"] =
    (Migrate.Completed 3,
     [name "a.sql"; name "b.sql"; face; tilde],
     [name "b.sql"; face; tilde]).
Proof.
  intros name tilde face listing W.
  refine (proj1 (proj2 (proj2 (proj2
    (migrations_complete_and_idempotent W W listing [name "a.sql"]
       eq_refl eq_refl eq_refl _ (fun _ _ _ _ => eq_refl) eq_refl eq_refl eq_refl))))).
  apply (bool_decide_unpack _). by vm_compute.
Defined.

Lemma migrations_run_in_order_witness :
  let name := Migrate.ascii_name in
  let tilde := ([65374] ++ name ".sql")%N in
  let face := ([55357; 56832] ++ name ".sql")%N in
  let W := {| Migrate.create_table := Ok tt;
              Migrate.readdir := Ok [tilde; face; name "a.sql"];
              Migrate.select_executed := Ok tt;
              Migrate.execute :=
                fun f => if bool_decide (f = tilde)
                         then Throw (ErrorObj "syntax error") else Ok tt |} in
  Migrate.runMigrations W [] =
    (Migrate.Exit1, [name "a.sql"; face], [name "a.sql"; face; tilde]) ∧
  ∃ recorded, (Migrate.runMigrations W []).1.2 = [] ++ recorded.
Proof.
  intros name tilde face W. split; [by vm_compute|].
  destruct (migrations_run_in_order W []) as (recorded & Htab & _).
  by exists recorded.
Defined.

(** *** Spending insights *)

Section SpendingProperties.
Import Accounts Spending.
Variable Acct : Type.
Variable transactionsGet :
  TransactionsGetRequest → Reply (list Transaction * list Acct * nat).
Variable add : Q → Q → Q.
Variable percentage_of : Q → Q → Q.

Lemma totals_set_keys k v (m : Totals) :
  (totals_set k v m).*1 = if bool_decide (k ∈ m.*1) then m.*1 else m.*1 ++ [k].
Proof.
  induction m as [|[k' v'] m IH]; [done|].
  cbn [totals_set]. rewrite fmap_cons. cbn [fst].
  destruct (decide (k' = k)) as [->|Hk].
  - rewrite !bool_decide_eq_true_2; [done|apply list_elem_of_here|done].
  - rewrite (bool_decide_eq_false_2 (k' = k)) by done. rewrite fmap_cons, IH. cbn [fst].
    destruct (decide (k ∈ m.*1)) as [Hin|Hin].
    + rewrite !bool_decide_eq_true_2; [done|by apply list_elem_of_further|done].
    + rewrite !bool_decide_eq_false_2; [done| |done].
      intros [?|?]%elem_of_cons; congruence.
Qed.

(** The keys after the loop: distinct, and the categories of the
    transactions that count. *)
Lemma tally_keys (txs : list Transaction) (state : Totals * Q) :
  NoDup state.1.*1 →
  let final := foldl (tally add) state txs in
  NoDup final.1.*1 ∧
  ∀ c, c ∈ final.1.*1 ↔
       c ∈ state.1.*1 ∨ ∃ tx, tx ∈ txs ∧ counts tx = true ∧ category_of tx = c.
Proof.
  revert state. induction txs as [|tx txs IH]; intros [m total] Hnd; simpl in *.
  { split; [done|]. intros c. split; [by left|]. intros [?|(tx & []%elem_of_nil & _)]. done. }
  destruct (counts tx) eqn:Hc.
  - set (m' := totals_set _ _ m).
    assert (Hkeys : m'.*1 = if bool_decide (category_of tx ∈ m.*1) then m.*1
                             else m.*1 ++ [category_of tx]) by apply totals_set_keys.
    assert (Hnd' : NoDup m'.*1).
    { rewrite Hkeys. case_bool_decide as Hin; [done|].
      apply NoDup_app. split_and!; [done| |apply NoDup_singleton].
      intros x Hx ->%list_elem_of_singleton. done. }
    destruct (IH (m', add total (amount tx)) Hnd') as [Hfinal Hmem].
    split; [done|]. intros c. rewrite Hmem. simpl. rewrite Hkeys. split.
    + intros [Hin|(tx' & Htx' & Hc' & Hcat)].
      * case_bool_decide; [by left|].
        apply elem_of_app in Hin as [? | ->%list_elem_of_singleton]; [by left|].
        right. exists tx. split_and!; [apply list_elem_of_here|done..].
      * right. exists tx'. split_and!; [by apply list_elem_of_further|done..].
    + intros [Hin|(tx' & Htx' & Hc' & Hcat)].
      * left. case_bool_decide; [done|]. apply elem_of_app. by left.
      * apply elem_of_cons in Htx' as [-> | Htx'].
        -- left. case_bool_decide; [by subst c|].
           apply elem_of_app. right. by apply list_elem_of_singleton.
        -- right. by exists tx'.
  - destruct (IH (m, total) Hnd) as [Hfinal Hmem]. split; [done|].
    intros c. rewrite Hmem. simpl. split.
    + intros [?|(tx' & ? & ? & ?)]; [by left|].
      right. exists tx'. split_and!; [by apply list_elem_of_further|done..].
    + intros [?|(tx' & Htx' & Hc' & Hcat)]; [by left|].
      apply elem_of_cons in Htx' as [-> | Htx']; [congruence|].
      right. by exists tx'.
Qed.

Lemma insert_desc_Permutation x l : insert_desc x l ≡ₚ x :: l.
Proof.
  induction l as [|y l IH]; simpl; [done|].
  destruct (lt _ _); [|done]. rewrite IH. apply Permutation_swap.
Qed.

Lemma sort_desc_Permutation l : sort_desc l ≡ₚ l.
Proof.
  induction l as [|x l IH]; simpl; [done|].
  by rewrite insert_desc_Permutation, IH.
Qed.

Lemma lt_asym (a b : Q) : lt a b = true → lt b a = false.
Proof.
  rewrite lt_spec. intros H. apply not_true_is_false. rewrite lt_spec. intros H'.
  apply (QArith_base.Qlt_irrefl a). by eapply QArith_base.Qlt_trans.
Qed.

Lemma insert_desc_Sorted x l : Sorted not_below l → Sorted not_below (insert_desc x l).
Proof.
  induction l as [|y l IH]; intros Hs; simpl.
  { by repeat constructor. }
  apply Sorted_inv in Hs as [Hs Hhd].
  destruct (lt (insightAmount x) (insightAmount y)) eqn:Hxy.
  - constructor; [by apply IH|].
    destruct l as [|z l]; simpl.
    + constructor. by apply lt_asym.
    + destruct (lt (insightAmount x) (insightAmount z)).
      * constructor. by inversion Hhd.
      * constructor. by apply lt_asym.
  - constructor; [by constructor|]. by constructor.
Qed.

Lemma sort_desc_Sorted l : Sorted not_below (sort_desc l).
Proof.
  induction l as [|x l IH]; simpl; [constructor|]. by apply insert_desc_Sorted.
Qed.

Lemma tally_nothing (txs : list Transaction) (state : Totals * Q) :
  (∀ tx, tx ∈ txs → counts tx = false) → foldl (tally add) state txs = state.
Proof.
  revert state. induction txs as [|tx txs IH]; intros [m total] Hnone; simpl; [done|].
  rewrite (Hnone tx) by apply list_elem_of_here.
  apply IH. intros tx' Htx'. by apply Hnone, list_elem_of_further.
Qed.

Lemma counts_spec (tx : Transaction) :
  counts tx = true ↔
  pending tx = false ∧ QArith_base.Qlt (QArith_base.inject_Z 0) (amount tx).
Proof.
  unfold counts. rewrite andb_true_iff, negb_true_iff, lt_spec. unfold num. tauto.
Qed.

Lemma category_of_spec (tx : Transaction) (c : string) :
  category_of tx = c ↔
  (∃ rest, category tx = Some (c :: rest) ∧ c ≠ "") ∨
  (c = "Uncategorized" ∧
   (category tx = None ∨ category tx = Some [] ∨
    ∃ rest, category tx = Some ("" :: rest))).
Proof.
  unfold category_of.
  destruct (category tx) as [[|first rest]|]; simpl.
  - split; [intros <-; right; auto|]. by intros [(? & [=] & _)|[-> _]].
  - unfold truthy. case_bool_decide as Hfirst; simpl.
    + subst first. split.
      * intros <-. right. split; [done|]. right; right. by exists rest.
      * by intros [(? & [= <- _] & ?)|[-> _]].
    + split.
      * intros <-. left. by exists rest.
      * intros [(? & [= <- _] & _)|[-> [[=]|[[=]|(? & [= -> _])]]]]; done.
  - split; [intros <-; right; auto|]. by intros [(? & [=] & _)|[-> _]].
Qed.

(** X23 — The breakdown of [getSpendingInsights].  Every category appears
    once; a category appears exactly when some transaction that is not
    pending and has an amount above zero carries it as its first category
    ([Uncategorized] when it has no category, an empty list or an empty
    first category), so pending transactions and refunds never contribute;
    no entry has a smaller amount than a later one; the transaction count
    is that of all transactions received, and the request asks for at most
    100 of them.  When no transaction counts, the breakdown is empty and the
    total is zero. *)
Theorem spending_breakdown (accessToken startDate endDate : string)
    (txs : list Transaction) (accounts : list Acct) (total : nat) :
  transactionsGet {| access_token := accessToken; start_date := startDate;
                     end_date := endDate; options_count := 100; options_offset := 0 |} =
    Resolved (txs, accounts, total) →
  let spent (tx : Transaction) :=
    pending tx = false ∧ QArith_base.Qlt (QArith_base.inject_Z 0) (amount tx) in
  let labelled (tx : Transaction) (c : string) :=
    (∃ rest, category tx = Some (c :: rest) ∧ c ≠ "") ∨
    (c = "Uncategorized" ∧
     (category tx = None ∨ category tx = Some [] ∨
      ∃ rest, category tx = Some ("" :: rest))) in
  ∃ r,
    getSpendingInsights Acct transactionsGet add percentage_of accessToken startDate endDate =
      Ok r ∧
    transactionCount r = length txs ∧
    NoDup (insightCategory <$> categoryBreakdown r) ∧
    (∀ c, c ∈ insightCategory <$> categoryBreakdown r ↔
          ∃ tx, tx ∈ txs ∧ spent tx ∧ labelled tx c) ∧
    Sorted (fun a b => QArith_base.Qle (insightAmount b) (insightAmount a))
      (categoryBreakdown r) ∧
    ((∀ tx, tx ∈ txs → ¬ spent tx) →
       categoryBreakdown r = [] ∧ totalSpending r = QArith_base.inject_Z 0).
Proof.
  intros Hget spent labelled. unfold getSpendingInsights, getTransactions. rewrite Hget.
  destruct (tally_keys txs ([], num 0) (NoDup_nil_2 : NoDup ([] : Totals).*1))
    as [Hnd Hmem].
  pose proof (tally_nothing txs ([], num 0)) as Hnone.
  destruct (foldl (tally add) ([], num 0) txs) as [m paid]. simpl in *.
  eexists. split; [done|]. simpl.
  set (entry := fun kv : string * Q => _).
  assert (Hcats : insightCategory <$> sort_desc (entry <$> m) ≡ₚ m.*1).
  { rewrite sort_desc_Permutation, <- list_fmap_compose. done. }
  split_and!.
  - done.
  - by rewrite Hcats.
  - intros c. rewrite Hcats, Hmem. split.
    + intros [[]%elem_of_nil|(tx & Htx & Hcounts & Hcat)].
      exists tx. split; [done|]. split; [by apply counts_spec|by apply category_of_spec].
    + intros (tx & Htx & Hspent & Hlabel). right.
      exists tx. split; [done|]. split; [by apply counts_spec|by apply category_of_spec].
  - apply (Sorted_weaken not_below); [|apply sort_desc_Sorted].
    intros a b Hab. unfold not_below in Hab.
    apply QArith_base.Qnot_lt_le. intros Hlt%lt_spec. congruence.
  - intros Hno.
    assert (Hnone' : ∀ tx, tx ∈ txs → counts tx = false).
    { intros tx Htx. apply not_true_is_false. intros Hc%counts_spec. by apply (Hno tx). }
    by injection (Hnone Hnone') as -> ->.
Qed.

End SpendingProperties.

Lemma spending_breakdown_witness :
  let tx (i : string) (a : Z) (c : option (list string)) (p : bool) :=
    {| Spending.id := i; Spending.accountId := "acc_1"; Spending.amount := Accounts.num a;
       Spending.isoCurrencyCode := Some "USD"; Spending.date := "2025-01-15";
       Spending.name := "purchase"; Spending.merchantName := None;
       Spending.category := c; Spending.pending := p;
       Spending.paymentChannel := "in store" |} in
  let txs :=
    [tx "t1" 12%Z (Some ["Food"; "Coffee"]) false; tx "t2" (-40)%Z (Some ["Transfer"]) false;
     tx "t3" 30%Z None false; tx "t4" 7%Z (Some ["Travel"]) true] in
  ∃ r,
    Spending.getSpendingInsights unit (fun _ => Accounts.Resolved (txs, [], 4))
      QArith_base.Qplus (fun _ _ => Accounts.num 0) "access-1" "2025-01-01" "2025-01-31" =
      Ok r ∧
    Spending.insightCategory <$> Spending.categoryBreakdown r = ["Uncategorized"; "Food"] ∧
    ("Travel" ∉ Spending.insightCategory <$> Spending.categoryBreakdown r) ∧
    ("Transfer" ∉ Spending.insightCategory <$> Spending.categoryBreakdown r) ∧
    Spending.transactionCount r = 4.
Proof.
  intros tx txs.
  destruct (spending_breakdown unit (fun _ => Accounts.Resolved (txs, [], 4))
              QArith_base.Qplus (fun _ _ => Accounts.num 0)
              "access-1" "2025-01-01" "2025-01-31" txs [] 4 eq_refl)
    as (r & Hr & Hcount & _ & Hmem & _).
  exists r. split; [exact Hr|].
  assert (Hout : ∀ c, c = "Travel" ∨ c = "Transfer" →
            c ∉ (Spending.insightCategory <$> Spending.categoryBreakdown r)).
  { intros c Hc (t & Ht & [Hpending Hpaid] & Hlabel)%Hmem.
    unfold txs in Ht. rewrite !elem_of_cons, elem_of_nil in Ht.
    destruct Ht as [-> | [-> | [-> | [-> | []]]]]; simpl in *; try discriminate;
      try (by vm_compute in Hpaid);
      destruct Hc as [-> | ->];
      destruct Hlabel as [(rest & [=] & _)|[[=] _]]. }
  split_and!; [|apply Hout; by left|apply Hout; by right|exact Hcount].
  vm_compute in Hr. by injection Hr as <-.
Defined.

Section ItemsProperties.
Import ItemsService.

Lemma selected_change (change : Item → Item) (itemId user : string) (row : Item) :
  id (change row) = id row → userId (change row) = userId row →
  selected itemId user (change row) = selected itemId user row.
Proof. unfold selected. by intros -> ->. Qed.

Lemma others_update (change : Item → Item) (itemId user : string) (table : Table) :
  (∀ row, id (change row) = id row ∧ userId (change row) = userId row) →
  others itemId user
    ((fun row => if selected itemId user row then change row else row) <$> table) =
  others itemId user table.
Proof.
  intros Hkeys. unfold others.
  induction table as [|row table IH]; [done|].
  rewrite fmap_cons. cbn [List.filter].
  destruct (selected itemId user row) eqn:Hsel.
  - destruct (Hkeys row) as [Hid Huser].
    rewrite (selected_change change _ _ _ Hid Huser), Hsel. cbn [negb]. apply IH.
  - rewrite Hsel. cbn [negb]. by rewrite IH.
Qed.

Lemma update_none (change : Item → Item) (itemId user : string) (table : Table) :
  List.filter (selected itemId user) table = [] →
  (fun row => if selected itemId user row then change row else row) <$> table = table.
Proof.
  induction table as [|row table IH]; [done|].
  rewrite fmap_cons. cbn [List.filter].
  destruct (selected itemId user row); [done|]. intros H. by rewrite (IH H).
Qed.

Lemma others_none (itemId user : string) (table : Table) :
  List.filter (selected itemId user) table = [] → others itemId user table = table.
Proof.
  unfold others. induction table as [|row table IH]; [done|]. simpl.
  destruct (selected itemId user row); [done|]. simpl. intros H. by rewrite (IH H).
Qed.

Lemma others_idemp (itemId user : string) (table : Table) :
  others itemId user (others itemId user table) = others itemId user table.
Proof.
  unfold others. induction table as [|row table IH]; [done|]. simpl.
  destruct (selected itemId user row) eqn:Hsel; simpl; [done|].
  rewrite Hsel. simpl. by rewrite IH.
Qed.

Lemma selected_head (itemId user : string) (table : Table) (row : Item) (rest : Table) :
  List.filter (selected itemId user) table = row :: rest →
  id row = itemId ∧ userId row = user.
Proof.
  intros Hf.
  assert (Hin : In row (List.filter (selected itemId user) table)) by (rewrite Hf; by left).
  apply filter_In in Hin as [_ Hsel]. unfold selected in Hsel.
  apply andb_true_iff in Hsel as [H1 H2].
  by apply bool_decide_eq_true in H1, H2.
Qed.

Lemma update_returning_confined (fault : option Thrown) (change : Item → Item)
    (itemId user : string) (table : Table) :
  (∀ row, id (change row) = id row ∧ userId (change row) = userId row) →
  let result := update_returning fault change itemId user table in
  others itemId user result.2 = others itemId user table ∧
  length result.2 = length table ∧
  (∀ row, result.1 = Ok row → id row = itemId ∧ userId row = user) ∧
  (List.filter (selected itemId user) table = [] →
   result.2 = table ∧ result.1 = Throw (default not_found fault)).
Proof.
  intros Hkeys. unfold update_returning.
  destruct fault as [error|]; simpl; [by split_and!|].
  destruct (List.filter (selected itemId user) table) as [|row rest] eqn:Hf; simpl.
  - split_and!; [by apply others_update|by rewrite length_fmap|done|].
    intros _. split; [by apply update_none|done].
  - split_and!; [by apply others_update|by rewrite length_fmap| |done].
    intros row' [= <-]. destruct (Hkeys row) as [-> ->]. by eapply selected_head.
Qed.

(** X24 — Whatever [updateItem], [archiveItem], [deleteItem], [restoreItem]
    or [hardDeleteItem] is asked, with whatever id, it touches the rows with
    that id owned by the calling user only: every other row, those of other
    users among them, stays in the table as it was, in the same order; a row
    handed back carries the id and the user of the call; and when the user
    owns no row of that id the table is left as it is and the call throws,
    with [Item not found or access denied] unless the database itself
    failed. *)
Theorem mutations_confined_to_owner (fault : option Thrown) (m : Mutation)
    (itemId user : string) (now updated : Z) (table : Table) :
  let result := mutate fault m itemId user now updated table in
  others itemId user result.2 = others itemId user table ∧
  (∀ row, result.1 = Ok row → id row = itemId ∧ userId row = user) ∧
  (List.filter (selected itemId user) table = [] →
   result.2 = table ∧ result.1 = Throw (default not_found fault)).
Proof.
  destruct m as [input| | | |]; simpl;
    try (unfold updateItem, archiveItem, deleteItem, restoreItem;
         match goal with
         | |- context [update_returning ?f ?c _ _ _] =>
             destruct (update_returning_confined f c itemId user table) as (H1 & _ & H2 & H3);
             [done|by split_and!]
         end).
  unfold hardDeleteItem. destruct fault as [error|]; simpl; [by split_and!|].
  destruct (List.filter (selected itemId user) table) as [|row rest] eqn:Hf; simpl.
  - split_and!; [apply others_idemp|done|]. intros _. split; [by apply others_none|done].
  - split_and!; [apply others_idemp| |done].
    intros row' [= <-]. by eapply selected_head.
Qed.

Lemma selected_update (change : Item → Item) (itemId user : string) (table : Table) :
  (∀ row, id (change row) = id row ∧ userId (change row) = userId row) →
  List.filter (selected itemId user)
    ((fun row => if selected itemId user row then change row else row) <$> table) =
  change <$> List.filter (selected itemId user) table.
Proof.
  intros Hkeys. induction table as [|row table IH]; [done|].
  rewrite fmap_cons. cbn [List.filter].
  destruct (selected itemId user row) eqn:Hsel.
  - destruct (Hkeys row) as [Hid Huser].
    rewrite (selected_change change _ _ _ Hid Huser), Hsel, fmap_cons. by rewrite IH.
  - by rewrite Hsel.
Qed.

Lemma owned_update (change : Item → Item) (itemId user owner : string) (table : Table) :
  (∀ row, userId (change row) = userId row) →
  length (List.filter (fun row => bool_decide (userId row = owner) && true)
            ((fun row => if selected itemId user row then change row else row) <$> table)) =
  length (List.filter (fun row => bool_decide (userId row = owner) && true) table).
Proof.
  intros Hkeys. induction table as [|row table IH]; [done|].
  rewrite fmap_cons. cbn [List.filter].
  replace (userId (if selected itemId user row then change row else row))
    with (userId row) by (by destruct (selected itemId user row)).
  destruct (bool_decide (userId row = owner) && true); simpl; by rewrite IH.
Qed.

Lemma update_twice (first second : Item → Item) (itemId user : string) (table : Table) :
  (∀ row, id (first row) = id row ∧ userId (first row) = userId row) →
  (∀ row, second (first row) = second row) →
  (fun row => if selected itemId user row then second row else row) <$>
    ((fun row => if selected itemId user row then first row else row) <$> table) =
  (fun row => if selected itemId user row then second row else row) <$> table.
Proof.
  intros Hkeys Hover. rewrite <- list_fmap_compose. apply list_fmap_ext.
  intros _ row _. simpl. destruct (selected itemId user row) eqn:Hsel; [|by rewrite Hsel].
  destruct (Hkeys row) as [Hid Huser].
  by rewrite (selected_change first _ _ _ Hid Huser), Hsel.
Qed.

(** X25 — [archiveItem] and [deleteItem] are soft.  For an item its owner
    can read, either call hands the row back with status [archived] and
    [archivedAt] set, or status [deleted] and [deletedAt] set, to the first
    reading of the clock, [updatedAt] set to the second, and every other
    column as it was; the row stays in the table, where [getItem] still
    returns it and [countUserItems] without a status still counts it.  A
    later [restoreItem] gives the same table and the same row as restoring
    the untouched table: status [active], no archive and no deletion time,
    [updatedAt] the time of the restore, every other column as it was
    before. *)
Theorem soft_delete_is_reversible (m : Mutation) (itemId user : string)
    (now updated later : Z) (table : Table) (row : Item) :
  m = ArchiveItem ∨ m = DeleteItem →
  getItem None itemId user table = Ok (Some row) →
  let kept (a : Item) :=
    id a = id row ∧ userId a = userId row ∧ title a = title row ∧
    description a = description row ∧ metadata a = metadata row ∧
    order a = order row ∧ createdAt a = createdAt row in
  ∃ gone table1 back table2,
    mutate None m itemId user now updated table = (Ok gone, table1) ∧
    (m = ArchiveItem →
       status gone = Archived ∧ archivedAt gone = Some now ∧
       deletedAt gone = deletedAt row) ∧
    (m = DeleteItem →
       status gone = Deleted ∧ deletedAt gone = Some now ∧
       archivedAt gone = archivedAt row) ∧
    updatedAt gone = updated ∧ kept gone ∧
    getItem None itemId user table1 = Ok (Some gone) ∧
    countUserItems None user None table1 = countUserItems None user None table ∧
    restoreItem None itemId user later table1 = (Ok back, table2) ∧
    restoreItem None itemId user later table = (Ok back, table2) ∧
    status back = Active ∧ archivedAt back = None ∧ deletedAt back = None ∧
    updatedAt back = later ∧ kept back.
Proof.
  intros Hm Hget kept. unfold getItem in Hget. injection Hget as Hget.
  destruct (List.filter (selected itemId user) table) as [|row' rest] eqn:Hf; [done|].
  injection Hget as ->.
  assert (Hsoft : ∃ change,
    mutate None m itemId user now updated table =
      update_returning None change itemId user table ∧
    (m = ArchiveItem → change row = set_archived now updated row) ∧
    (m = DeleteItem → change row = set_deleted now updated row) ∧
    updatedAt (change row) = updated ∧ kept (change row) ∧
    (∀ r, id (change r) = id r ∧ userId (change r) = userId r) ∧
    (∀ r, set_active later (change r) = set_active later r)).
  { destruct Hm as [-> | ->].
    - exists (set_archived now updated). by split_and!.
    - exists (set_deleted now updated). by split_and!. }
  destruct Hsoft as (change & -> & Harchive & Hdelete & Hupdated & Hkept & Hkeys & Hover).
  unfold restoreItem, getItem, countUserItems, update_returning.
  rewrite Hf, fmap_cons.
  eexists _, _, _, _. split; [reflexivity|].
  rewrite !selected_update, Hf, !fmap_cons by done.
  rewrite update_twice by done. rewrite Hover.
  split_and!; try done;
    try (intros Hcase; first [by rewrite (Harchive Hcase)|by rewrite (Hdelete Hcase)]).
  f_equal. apply owned_update. intros r. apply Hkeys.
Qed.

(** X26 — [hardDeleteItem] cannot be undone.  Once it has handed a row
    back, the owner reads nothing under that id, and every later update,
    archive, delete, restore or hard delete of it throws [Item not found
    or access denied] and leaves the table as it is. *)
Theorem hard_delete_is_final (itemId user : string) (table table1 : Table) (gone : Item) :
  hardDeleteItem None itemId user table = (Ok gone, table1) →
  getItem None itemId user table1 = Ok None ∧
  ∀ (m : Mutation) (later updated : Z),
    mutate None m itemId user later updated table1 = (Throw not_found, table1).
Proof.
  unfold hardDeleteItem.
  destruct (List.filter (selected itemId user) table) as [|row rest] eqn:Hf; [done|].
  intros [= _ <-].
  assert (Hnone : List.filter (selected itemId user)
                    (List.filter (fun r => negb (selected itemId user r)) table) = []).
  { clear Hf. induction table as [|r table IH]; [done|]. cbn [List.filter].
    destruct (selected itemId user r) eqn:Hsel; cbn [negb]; [done|].
    cbn [List.filter]. by rewrite Hsel. }
  split; [unfold getItem; by rewrite Hnone|].
  intros m later updated.
  destruct m; simpl;
    unfold updateItem, archiveItem, deleteItem, restoreItem, update_returning, hardDeleteItem;
    rewrite Hnone; simpl; f_equal;
    first [by apply update_none | by apply (others_none itemId user)].
Qed.

End ItemsProperties.

Lemma soft_delete_is_reversible_witness :
  let row (i u : string) :=
    {| ItemsService.id := i; ItemsService.userId := u; ItemsService.title := "Groceries";
       ItemsService.description := None; ItemsService.status := ItemsService.Active;
       ItemsService.metadata := None; ItemsService.order := 0%Z; ItemsService.createdAt := 5%Z;
       ItemsService.updatedAt := 10%Z; ItemsService.archivedAt := None;
       ItemsService.deletedAt := None |} in
  let table := [row "item_1" "user_2"; row "item_1" "user_1"; row "item_2" "user_1"] in
  ItemsService.getItem None "item_1" "user_1" table = Ok (Some (row "item_1" "user_1")) ∧
  ∃ gone table1 back,
    ItemsService.deleteItem None "item_1" "user_1" 20%Z 21%Z table = (Ok gone, table1) ∧
    ItemsService.status gone = ItemsService.Deleted ∧
    ItemsService.deletedAt gone = Some 20%Z ∧
    ItemsService.updatedAt gone = 21%Z ∧
    ItemsService.title gone = "Groceries" ∧
    (ItemsService.restoreItem None "item_1" "user_1" 30%Z table1).1 = Ok back ∧
    ItemsService.status back = ItemsService.Active ∧
    ItemsService.deletedAt back = None ∧
    ItemsService.updatedAt back = 30%Z.
Proof.
  intros row table. split; [reflexivity|].
  destruct (soft_delete_is_reversible ItemsService.DeleteItem "item_1" "user_1" 20%Z 21%Z
              30%Z table (row "item_1" "user_1") (or_intror eq_refl) eq_refl)
    as (gone & table1 & back & table2 & Hcall & _ & Hdelete & Hupdated & Hkept & _ & _ &
        Hrestore & _ & Hstatus & _ & Hdeleted & Hlater & _).
  destruct (Hdelete eq_refl) as (Hgone & Hat & _).
  destruct Hkept as (_ & _ & Htitle & _).
  exists gone, table1, back. split_and!; try done. by rewrite Hrestore.
Defined.

Lemma hard_delete_is_final_witness :
  let row (i u : string) :=
    {| ItemsService.id := i; ItemsService.userId := u; ItemsService.title := "Groceries";
       ItemsService.description := None; ItemsService.status := ItemsService.Active;
       ItemsService.metadata := None; ItemsService.order := 0%Z; ItemsService.createdAt := 5%Z;
       ItemsService.updatedAt := 10%Z; ItemsService.archivedAt := None;
       ItemsService.deletedAt := None |} in
  let table := [row "item_1" "user_2"; row "item_1" "user_1"] in
  ItemsService.hardDeleteItem None "item_1" "user_1" table =
    (Ok (row "item_1" "user_1"), [row "item_1" "user_2"]) ∧
  ItemsService.getItem None "item_1" "user_1" [row "item_1" "user_2"] = Ok None.
Proof.
  intros row table. split; [reflexivity|].
  exact (proj1 (hard_delete_is_final "item_1" "user_1" table [row "item_1" "user_2"]
                  (row "item_1" "user_1") eq_refl)).
Defined.
